(** * subberthehut: the identification-and-retrieval pipeline

    A shallow embedding of [subberthehut.c]: the OpenSubtitles file hash,
    the derivation of the subtitle's path, the candidate selection loop,
    the download with its base64/zlib decode loop, the loop of [main]
    over the input files, the parameters of the search call, the table of
    candidates, and the option switch of [main].

    Conventions.
    - C integers are [Z]; where the C type wraps, the wrap-around is written
      out ([u64], [u32], [to_long], [to_int]).
    - Text (paths, input lines, the base64 payload) is [string]; binary data
      (file contents, decoded and decompressed bytes) is [list byte].
    - The process state that the C code reaches through globals and through
      the operating system is an explicit [world], threaded through every
      function.
    - Library code that is not part of the repository is either spelled out
      from its documented behaviour (libc's [fseek], [fread], [strtol],
      [getline], the [printf] conversions and the fully buffered output
      stream of [fopen], [fwrite] and [fclose]; glib's
      [g_base64_decode_step]) or kept abstract behind an interface (zlib's
      [inflate], the xmlrpc-c client and the remote server; libc's
      [getopt_long]). *)

From Equations Require Import Equations.
From stdpp Require Import gmap strings list.
From Stdlib Require Import ZArith Lia Ascii.
From Stdlib.Strings Require Import Byte.

Local Open Scope Z_scope.

(** ** Machine integers *)

Definition u64 (z : Z) : Z := z mod 2 ^ 64.
Definition u32 (z : Z) : Z := z mod 2 ^ 32.

(** Conversion of an unsigned 64-bit value to [long] (two's complement). *)
Definition to_long (z : Z) : Z :=
  let z := u64 z in if z <? 2 ^ 63 then z else z - 2 ^ 64.

(** Conversion of a [long] to [int] (two's complement truncation). *)
Definition to_int (z : Z) : Z :=
  let z := u32 z in if z <? 2 ^ 31 then z else z - 2 ^ 32.

Definition LONG_MAX : Z := 2 ^ 63 - 1.
Definition LONG_MIN : Z := - 2 ^ 63.

(** [errno] values of Linux, the platform the program is written for. *)
Definition ENOENT : Z := 2.
Definition EIO : Z := 5.
Definition ENOMEM : Z := 12.
Definition EACCES : Z := 13.
Definition EEXIST : Z := 17.
Definition ENOSPC : Z := 28.

Definition byte_val (b : byte) : Z := Z.of_N (Byte.to_N b).

Definition byte_of_Z (z : Z) : byte :=
  default Byte.x00 (Byte.of_N (Z.to_N (z mod 256))).

(** ** Fingerprinter: [get_hash_and_filesize] *)

(** A stdio stream opened for reading: the file's bytes and the position. *)
Record FILE := mkFILE { f_data : list byte; f_pos : Z }.

Definition fopen_r (data : list byte) : FILE := mkFILE data 0.

Inductive whence := SEEK_SET | SEEK_END.

(** [fseek]: a resulting offset below zero is refused ([EINVAL]) and the
    position stays where it was; the result is the return value. *)
Definition fseek (h : FILE) (offset : Z) (w : whence) : FILE * Z :=
  let target :=
    match w with
    | SEEK_SET => offset
    | SEEK_END => Z.of_nat (length (f_data h)) + offset
    end in
  if target <? 0 then (h, -1) else (mkFILE (f_data h) target, 0).

Definition ftell (h : FILE) : Z := f_pos h.

(** A little-endian word, as [fread] into a [uint64_t] yields on x86-64. *)
Definition le_word (bs : list byte) : Z :=
  foldr (fun b acc => byte_val b + 256 * acc) 0 bs.

(** [fread ((char * ) &tmp, sizeof (tmp), 1, handle)]: one whole 8-byte item
    or nothing.  A partial item at the end of the file is consumed and does
    not count. *)
Definition fread_u64 (h : FILE) : option Z * FILE :=
  let rest := drop (Z.to_nat (f_pos h)) (f_data h) in
  if decide (8 ≤ length rest)%nat
  then (Some (le_word (take 8 rest)), mkFILE (f_data h) (f_pos h + 8))
  else (None, mkFILE (f_data h) (Z.max (f_pos h) (Z.of_nat (length (f_data h))))).

(** The two [for] loops: at most [n] words are read and added to the hash;
    the loop stops early once [fread] delivers no item. *)
Fixpoint sum_words (n : nat) (h : FILE) (hash : Z) : FILE * Z :=
  match n with
  | O => (h, hash)
  | S n' =>
      match fread_u64 h with
      | (Some tmp, h') => sum_words n' h' (u64 (hash + tmp))
      | (None, h') => (h', hash)
      end
  end.

(** The offset expression of the second [fseek]; [*filesize] is a
    [uint64_t], so the subtraction and the comparison are unsigned. *)
Definition trailing_offset (filesize : Z) : Z :=
  if 0 <? u64 (filesize - 65536) then u64 (filesize - 65536) else 0.

Definition get_hash_and_filesize (handle : FILE) : Z * Z :=
  let (h, _) := fseek handle 0 SEEK_END in
  let filesize := u64 (ftell h) in
  let (h, _) := fseek h 0 SEEK_SET in
  let hash := filesize in
  let (h, hash) := sum_words (Z.to_nat (65536 / 8)) h hash in
  let (h, _) := fseek h (to_long (trailing_offset filesize)) SEEK_SET in
  let (h, hash) := sum_words (Z.to_nat (65536 / 8)) h hash in
  (hash, filesize).

(** ** C strings *)

(** [strrchr (s, c)], as the offset of the last [c] in [s]; [None] is the
    null pointer. *)
Fixpoint strrchr (s : string) (c : ascii) : option nat :=
  match s with
  | EmptyString => None
  | String a s' =>
      match strrchr s' c with
      | Some i => Some (S i)
      | None => if Ascii.eqb a c then Some O else None
      end
  end.

Definition strlen (s : string) : Z := Z.of_nat (String.length s).

(** The string a pointer [s + i] denotes. *)
Fixpoint str_from (i : nat) (s : string) : string :=
  match i, s with
  | O, _ => s
  | S i', String _ s' => str_from i' s'
  | S _, EmptyString => EmptyString
  end.

(** [strncpy (dst, s, n); dst[n] = 0] for [n] up to the length of [s]. *)
Fixpoint str_take (n : nat) (s : string) : string :=
  match n, s with
  | O, _ => EmptyString
  | S n', String a s' => String a (str_take n' s')
  | S _, EmptyString => EmptyString
  end.

(** The character [s[i]]; past the characters of [s] stands the
    terminator. *)
Fixpoint char_at (i : nat) (s : string) : ascii :=
  match s, i with
  | EmptyString, _ => Ascii.zero
  | String a _, O => a
  | String _ s', S i' => char_at i' s'
  end.

Definition isspace (c : ascii) : bool :=
  let n := Z.of_N (N_of_ascii c) in (n =? 32) || ((9 <=? n) && (n <=? 13)).

Definition digit_of (c : ascii) : option Z :=
  let n := Z.of_N (N_of_ascii c) in
  if (48 <=? n) && (n <=? 57) then Some (n - 48) else None.

Fixpoint skip_spaces (s : string) : nat :=
  match s with
  | String a s' => if isspace a then S (skip_spaces s') else O
  | EmptyString => O
  end.

(** The digits at the head of [s]: their value, and how many there are. *)
Fixpoint read_digits (s : string) (acc : Z) (n : nat) : Z * nat :=
  match s with
  | String a s' =>
      match digit_of a with
      | Some d => read_digits s' (10 * acc + d) (S n)
      | None => (acc, n)
      end
  | EmptyString => (acc, n)
  end.

(** [strtol (s, &endptr, 10)]: the value, clamped to the range of [long],
    and the offset of [endptr] in [s].  Without a digit nothing is
    converted and [endptr] is [s] itself. *)
Definition strtol (s : string) : Z * nat :=
  let sp := skip_spaces s in
  let t := str_from sp s in
  let '(neg, sg) :=
    match t with
    | String "-" _ => (true, 1%nat)
    | String "+" _ => (false, 1%nat)
    | _ => (false, 0%nat)
    end in
  let '(v, n) := read_digits (str_from sg t) 0 0 in
  match n with
  | O => (0, O)
  | _ =>
      let v := if neg then Z.max LONG_MIN (- v) else Z.min LONG_MAX v in
      (v, (sp + sg + n)%nat)
  end.

(** ** Options and search results *)

(** The option globals, as [main] leaves them after [getopt_long]. *)
Record options := mkOptions {
  lang : string;
  force_overwrite : bool;
  always_ask : bool;
  never_ask : bool;
  hash_search_only : bool;
  name_search_only : bool;
  same_name : bool;
  limit : Z;
  exit_on_fail : bool;
  quiet : Z
}.

Definition default_options : options :=
  mkOptions "eng" false false false false false false 10 true 0.

Record sub_info := mkSubInfo {
  id : Z;
  matched_by_hash : bool;
  sub_lang : string;
  release_name : string;
  filename : string
}.

(** ** Output path: [get_sub_path] *)

(** The extension of the subtitle, dot included; [".srt"] when the name has
    no dot. *)
Definition sub_ext_of (sub_filename : string) : string :=
  match strrchr sub_filename "." with
  | Some i => str_from i sub_filename
  | None => ".srt"
  end.

(** [index] of the [same_name] branch. *)
Definition same_name_index (filepath : string) : Z :=
  match strrchr filepath "." with
  | None => strlen filepath - 1
  | Some i => Z.of_nat i
  end.

(** [None] is the undefined case: an empty [filepath] under [same_name],
    where [index] is [-1] and [strncpy] is asked to copy [(size_t) -1]
    bytes.  [malloc] is taken to succeed. *)
Definition get_sub_path (o : options) (filepath sub_filename : string)
  : option string :=
  if same_name o then
    let sub_ext := sub_ext_of sub_filename in
    let index := same_name_index filepath in
    if index <? 0 then None
    else Some (str_take (Z.to_nat index) filepath +:+ sub_ext)
  else
    match strrchr filepath "/" with
    | None => Some sub_filename
    | Some index => Some (str_take (index + 1) filepath +:+ sub_filename)
    end.

(** ** Base64: glib's [g_base64_decode_step]

    Not part of the repository; written out after glib's [gbase64.c]. *)

(** [mime_base64_rank]: 255 ([0xff]) marks a character outside the alphabet;
    the padding character has rank 0. *)
Definition mime_base64_rank (c : ascii) : Z :=
  let n := Z.of_N (N_of_ascii c) in
  if (65 <=? n) && (n <=? 90) then n - 65
  else if (97 <=? n) && (n <=? 122) then n - 71
  else if (48 <=? n) && (n <=? 57) then n + 4
  else if n =? 43 then 62
  else if n =? 47 then 63
  else if n =? 61 then 0
  else 255.

Definition is_pad (c : ascii) : bool := Ascii.eqb c "=".

(** The loop over the input characters.  [v] is the 32-bit accumulator, [i]
    counts the characters of the current group, [last0] and [last1] are the
    two most recent alphabet characters.  The result is the bytes written
    and the final [v], [i] and [last0]. *)
Fixpoint b64_run (cs : list ascii) (v i : Z) (last0 last1 : ascii)
  : list byte * (Z * Z * ascii) :=
  match cs with
  | [] => ([], (v, i, last0))
  | c :: cs' =>
      let rank := mime_base64_rank c in
      if rank =? 255 then b64_run cs' v i last0 last1
      else
        let v' := u32 (Z.lor (Z.shiftl v 6) rank) in
        if i + 1 =? 4 then
          let emitted :=
            byte_of_Z (Z.shiftr v' 16)
            :: (if is_pad last0 then [] else [byte_of_Z (Z.shiftr v' 8)])
            ++ (if is_pad c then [] else [byte_of_Z v']) in
          let '(out, fin) := b64_run cs' v' 0 c last0 in
          (emitted ++ out, fin)
        else b64_run cs' v' (i + 1) c last0
  end.

(** [g_base64_decode_step (in, len, out, &state, &save)] on the [len]
    characters [input]: the bytes written to [out], the new [state] and the
    new [save]. *)
Definition g_base64_decode_step (input : list ascii) (state save : Z)
  : list byte * Z * Z :=
  match input with
  | [] => ([], state, save)
  | _ =>
      let '(i, last0) :=
        if state <? 0 then (- state, "="%char) else (state, Ascii.zero) in
      let '(out, (v, i', last0')) := b64_run input save i last0 Ascii.zero in
      (out, if is_pad last0' then - i' else i', v)
  end.

(** A string in memory: its characters, the terminator, and whatever the
    heap holds after it.  The decode loop reads a whole chunk from
    [&sub_base64[b64_offset]] whatever the length of the string, so the
    memory after the terminator is part of its input; the model takes that
    memory as readable, with arbitrary content. *)
Record buffer := mkBuffer { buf_str : string; buf_beyond : nat -> ascii }.

(** The [len] characters from [&b[off]] on: characters of the string, its
    terminator, and then what lies beyond. *)
Definition buf_read (b : buffer) (off len : nat) : list ascii :=
  let cs := String.list_ascii_of_string (buf_str b) ++ [Ascii.zero] in
  let inside := take len (drop off cs) in
  inside ++ (buf_beyond b <$> seq (off - length cs) (len - length inside)).

(** ** zlib

    Not part of the repository; the decompressor stays abstract.
    [inflate strm input avail_out] is one call of [inflate (&z_strm,
    Z_NO_FLUSH)] with [input] at [next_in]: the stream afterwards, the number
    of input bytes taken, the bytes put at [next_out], and the return
    code. *)
Class Zlib := {
  z_stream : Type;
  inflateInit2 : Z -> Z * z_stream;
  inflate : z_stream -> list byte -> Z -> z_stream * nat * list byte * Z
}.

Definition ZLIB_CHUNK : Z := 64 * 1024.
Definition MAX_WBITS : Z := 15.
Definition Z_OK : Z := 0.
Definition Z_STREAM_END : Z := 1.
Definition Z_NEED_DICT : Z := 2.
Definition Z_DATA_ERROR : Z := -3.
Definition Z_MEM_ERROR : Z := -4.
Definition Z_BUF_ERROR : Z := -5.

(** ** The XML-RPC client and the remote service

    Not part of the repository.  The client library, its [env] and the
    server behind it are one abstract state [server]; a call either faults
    with a code ([env.fault_occurred], [env.fault_code]) or delivers a
    value. *)
Record result := mkResult {
  IDSubtitleFile : string;
  MatchedBy : string;
  SubLanguageID : string;
  MovieReleaseName : string;
  SubFileName : string
}.

Inductive rpc_reply (A : Type) :=
| Fault (code : Z)
| Reply (a : A).
Arguments Fault {A} code.
Arguments Reply {A} a.

(** What [search_get_results] and [xmlrpc_array_size] can meet. *)
Inductive search_reply :=
| SearchFault (code : Z)
| SearchNoData (code : Z)
| SearchNotArray (code : Z)
| SearchData (results : list result).

(** The query array and the parameter structure of [SearchSubtitles]. *)
Record search_query := mkQuery {
  q_hash : option (string * Z * Z);
  q_name : option (string * string);
  q_limit : Z
}.

Class XmlRpc := {
  server : Type;
  rpc_login : server -> rpc_reply (string * string) * server;
  rpc_search : server -> string -> search_query -> search_reply * server;
  rpc_download : server -> string -> Z -> rpc_reply buffer * server
}.

(** ** The world *)

Inductive message :=
| Searching (name : string)
| Downloading (path : string)
| Overwriting
| AlreadyExists
| LoginFailed
| QueryFailed (code : Z)
| DataFailed (code : Z)
| SizeFailed (code : Z)
| NoResults
| OpenFailed (path : string)
| ZlibInitFailed (code : Z)
| ZlibError (code : Z)
| WriteFailed
| NoExtension
| Usage.

(** What the program prints: the table, the prompt, [log_info] lines and
    [log_err] / [perror] lines. *)
Inductive event :=
| Table (infos : list sub_info) (align : Z)
| Prompt (n : Z)
| Info (m : message)
| Err (m : message).

(** Outcome of a run: a result; a step whose behaviour C leaves undefined
    (a read outside an array, [free] of a pointer that was never set), after
    which nothing is known of the process: [Crash]; or a loop that was still
    running when the fuel ran out. *)
Inductive outcome (A : Type) :=
| Done (a : A)
| Crash
| OutOfFuel.
Arguments Done {A} a.
Arguments Crash {A}.
Arguments OutOfFuel {A}.

Section Program.
Context `{Zlib} `{XmlRpc}.

(** [w_files]: the file system as the process sees it: for the file behind
    the open output stream, the bytes written to the stream so far, whether
    they have reached the file system or still stand in the stream's buffer.
    [w_denied]: paths that cannot be opened for writing.  [w_room]: how many
    bytes the file system still accepts, the bytes in the stream's buffer
    counted as taken; it is negative while the buffer holds bytes for which
    the file system has no room, until [fclose] settles the account.
    [w_stdin]: the lines still to be read from standard input, each with
    its newline.  [w_out]: everything printed so far, oldest first. *)
Record world := mkWorld {
  w_files : gmap string (list byte);
  w_denied : gset string;
  w_room : Z;
  w_stdin : list string;
  w_server : server;
  w_out : list event
}.

Definition emit (e : event) (w : world) : world :=
  mkWorld (w_files w) (w_denied w) (w_room w) (w_stdin w) (w_server w)
          (w_out w ++ [e]).

Definition set_files (fs : gmap string (list byte)) (room : Z) (w : world)
  : world :=
  mkWorld fs (w_denied w) room (w_stdin w) (w_server w) (w_out w).

Definition set_stdin (lines : list string) (w : world) : world :=
  mkWorld (w_files w) (w_denied w) (w_room w) lines (w_server w) (w_out w).

Definition set_server (s : server) (w : world) : world :=
  mkWorld (w_files w) (w_denied w) (w_room w) (w_stdin w) s (w_out w).

Definition log_err (m : message) (w : world) : world := emit (Err m) w.

Definition log_info (o : options) (m : message) (w : world) : world :=
  if 2 <=? quiet o then w else emit (Info m) w.

(** ** Download and decode: [sub_download] *)

(** The size of the buffer of the stream that [fopen (path, "w+")] returns
    for a regular file (glibc takes the block size of the file system). *)
Definition stream_buffer : Z := 4096.

(** [fwrite (z_out, 1, have, f)] on the stream opened on [path].  The stream
    is fully buffered: the bytes go to its buffer and are handed to the file
    system a block at a time, when a buffer is filled.  So after the call
    the file system has to hold the stream up to the last multiple of
    [stream_buffer] of its position; if it can ([capacity] is what it holds
    of this file at most), every byte is accepted, also the ones past that
    block boundary, for which there may be no room.  If it cannot, the file
    system keeps what it has room for and the result is short. *)
Definition fwrite (path : string) (bs : list byte) (w : world) : Z * world :=
  let have := Z.of_nat (length bs) in
  let pos := match w_files w !! path with
             | Some content => Z.of_nat (length content)
             | None => 0
             end in
  let capacity := pos + w_room w in
  if (have =? 0) || ((pos + have) / stream_buffer * stream_buffer <=? capacity)
  then (have, set_files (alter (fun old => old ++ bs) path (w_files w))
                        (w_room w - have) w)
  else (Z.max 0 (w_room w),
        set_files (alter (fun old => take (Z.to_nat capacity) (old ++ bs))
                         path (w_files w))
                  0 w).

(** [fclose (f)], which [cleanup_fclose] calls when [sub_download] returns:
    the bytes still in the buffer are handed to the file system, which
    keeps the ones it has room for.  The result of [fclose] is dropped. *)
Definition fclose (path : string) (w : world) : world :=
  if w_room w <? 0
  then set_files
         (alter (fun content =>
                   take (Z.to_nat (Z.of_nat (length content) + w_room w)) content)
                path (w_files w))
         0 w
  else w.

(** How the inner [do ... while] ends: by [goto finish] with [r] set, or by
    its condition, with the last [z_ret]. *)
Inductive inner_exit :=
| Finish (r : Z)
| Fallthrough (z_ret : Z) (strm : z_stream).

(** The inner loop: [input] is what stands at [next_in]. *)
Fixpoint inflate_loop (fuel : nat) (path : string) (strm : z_stream)
    (input : list byte) (w : world) : outcome (inner_exit * world) :=
  match fuel with
  | O => OutOfFuel
  | S fuel' =>
      let '(strm', consumed, out, ret) := inflate strm input ZLIB_CHUNK in
      let z_ret := if ret =? Z_NEED_DICT then Z_DATA_ERROR else ret in
      if (z_ret =? Z_DATA_ERROR) || (z_ret =? Z_MEM_ERROR)
      then Done (Finish z_ret, log_err (ZlibError z_ret) w)
      else
        let have := Z.of_nat (length out) in
        let '(written, w') := fwrite path out w in
        if negb (written =? have) then Done (Finish ENOSPC, log_err WriteFailed w')
        else if have =? ZLIB_CHUNK
             then inflate_loop fuel' path strm' (drop consumed input) w'
             else Done (Fallthrough z_ret strm', w')
  end.

(** The outer loop.  Each round decodes the [ZLIB_CHUNK] characters at
    [&sub_base64[b64_offset]], whatever the length of the string. *)
Fixpoint decode_loop (fuel : nat) (path : string) (sub_base64 : buffer)
    (strm : z_stream) (b64_state b64_save b64_offset : Z) (w : world)
  : outcome (Z * world) :=
  match fuel with
  | O => OutOfFuel
  | S fuel' =>
      let '(z_in, b64_state', b64_save') :=
        g_base64_decode_step
          (buf_read sub_base64 (Z.to_nat b64_offset) (Z.to_nat ZLIB_CHUNK))
          b64_state b64_save in
      let avail_in := Z.of_nat (length z_in) in
      let b64_offset' := u32 (b64_offset + u32 (avail_in * 4) / 3) in
      if avail_in =? 0 then Done (0, w)
      else
        match inflate_loop fuel' path strm z_in w with
        | Done (Finish r, w') => Done (r, w')
        | Done (Fallthrough z_ret strm', w') =>
            if z_ret =? Z_STREAM_END then Done (0, w')
            else decode_loop fuel' path sub_base64 strm'
                             b64_state' b64_save' b64_offset' w'
        | Crash => Crash
        | OutOfFuel => OutOfFuel
        end
  end.

Definition file_exists (path : string) (w : world) : bool :=
  bool_decide (is_Some (w_files w !! path)).

Definition sub_download (fuel : nat) (o : options) (token : string)
    (sub_id : Z) (file_path : string) (w : world) : outcome (Z * world) :=
  if file_exists file_path w && negb (force_overwrite o)
  then Done (EEXIST, log_err AlreadyExists w)
  else
    let w := if file_exists file_path w then log_info o Overwriting w else w in
    match rpc_download (w_server w) token sub_id with
    | (Fault code, srv) => Done (code, log_err (QueryFailed code) (set_server srv w))
    | (Reply sub_base64, srv) =>
        let w := set_server srv w in
        if bool_decide (file_path ∈ w_denied w)
        then Done (EACCES, log_err (OpenFailed file_path) w)
        else
          let w := set_files (<[file_path := []]> (w_files w)) (w_room w) w in
          let '(z_ret, z_strm) := inflateInit2 (16 + MAX_WBITS) in
          if negb (z_ret =? Z_OK)
          then Done (z_ret, fclose file_path (log_err (ZlibInitFailed z_ret) w))
          else
            match decode_loop fuel file_path sub_base64 z_strm 0 0 0 w with
            | Done (r, w) => Done (r, fclose file_path w)
            | Crash => Crash
            | OutOfFuel => OutOfFuel
            end
    end.

(** ** Selection: [select_1_out_of] and [download_chosen_results] *)

(** One answer line is acceptable when [strtol] stops at its newline and
    the number is in [1, n]. *)
Definition valid_choice (n : Z) (line : string) : bool :=
  let '(v, e) := strtol line in
  let sel := to_int v in
  Ascii.eqb (char_at e line) "010" && (1 <=? sel) && (sel <=? n).

(** The [do ... while] of [select_1_out_of] over the pending input lines:
    the value returned, the lines left, and how often the prompt was
    printed.  End of input gives [-EIO]; a line that starts with [q] or [Q]
    gives [-1]. *)
Fixpoint read_choice (n : Z) (lines : list string) : Z * list string * nat :=
  match lines with
  | [] => (- EIO, [], 1%nat)
  | line :: rest =>
      if Ascii.eqb (char_at 0 line) "q" || Ascii.eqb (char_at 0 line) "Q"
      then (-1, rest, 1%nat)
      else if valid_choice n line
           then (to_int (fst (strtol line)), rest, 1%nat)
           else let '(sel, rest', k) := read_choice n rest in (sel, rest', S k)
  end.

Definition select_1_out_of (n : Z) (w : world) : Z * world :=
  let '(sel, rest, k) := read_choice n (w_stdin w) in
  (sel, set_stdin rest (foldr (fun _ => emit (Prompt n)) w (replicate k tt))).

Definition HEADER_RELEASE_NAME : string := "Release / File Name".

Definition parse_result (r : result) : sub_info :=
  mkSubInfo (to_int (fst (strtol (IDSubtitleFile r))))
            (bool_decide (MatchedBy r = "moviehash"))
            (SubLanguageID r) (MovieReleaseName r) (SubFileName r).

(** One round of the [for] loop that fills [sub_infos]: [sel] becomes the
    1-based index of the first hash match, [align] the widest name. *)
Definition scan_result (acc : Z * Z * list sub_info) (r : result)
  : Z * Z * list sub_info :=
  let '(sel, align, infos) := acc in
  let i := Z.of_nat (length infos) in
  let info := parse_result r in
  let sel := if matched_by_hash info && (sel =? 0) then i + 1 else sel in
  let align := Z.max align (strlen (release_name info)) in
  let align := Z.max align (strlen (filename info)) in
  (sel, align, infos ++ [info]).

Definition scan_results (results : list result) : Z * Z * list sub_info :=
  fold_left scan_result results (0, strlen HEADER_RELEASE_NAME, []).

(** The download step, which the source spells out twice: the path, the
    "downloading to" line, [sub_download] for [sub_infos[sel - 1]].  The
    array has [length infos] entries; an index below 0 or past the last
    entry reads outside it. *)
Definition fetch (fuel : nat) (o : options) (filepath token : string)
    (infos : list sub_info) (sel : Z) (w : world) : outcome (Z * world) :=
  match (if sel - 1 <? 0 then None else infos !! Z.to_nat (sel - 1)) with
  | None => Crash
  | Some info =>
      let w :=
        if same_name o && bool_decide (strrchr (filename info) "." = None)
        then log_err NoExtension w else w in
      match get_sub_path o filepath (filename info) with
      | None => Crash
      | Some sub_filepath =>
          sub_download fuel o token (id info) sub_filepath
                       (log_info o (Downloading sub_filepath) w)
      end
  end.

(** The [while (sel == 0 || always_ask)] loop.  [inl r] is [goto finish]
    with [r]; [inr sel] is the loop left by its condition. *)
Fixpoint ask_loop (fuel : nat) (o : options) (filepath token : string)
    (infos : list sub_info) (align n sel : Z) (w : world)
  : outcome ((Z + Z) * world) :=
  if (sel =? 0) || always_ask o then
    match fuel with
    | O => OutOfFuel
    | S fuel' =>
        let w := emit (Table infos align) w in
        let '(sel, w) := select_1_out_of n w in
        if sel <=? 0 then Done (inl (- sel), w)
        else
          match fetch fuel' o filepath token infos sel w with
          | Done (r, w) =>
              if negb (r =? 0) || (n =? 1) then Done (inl r, w)
              else ask_loop fuel' o filepath token infos align n 0 w
          | Crash => Crash
          | OutOfFuel => OutOfFuel
          end
    end
  else Done (inr sel, w).

(** [n], the length of [results], is a parameter in the source.

    The second [sub_filepath] (line 433) is declared at function scope with
    [cleanup_free], after the loop.  Each [goto finish] inside the loop
    jumps over that declaration, so the pointer is never set on that way,
    and the cleanup still runs [free] on it at [return r]: undefined
    behaviour.  Only the way through the loop's condition reaches the
    declaration and returns [r] with the pointer set. *)
Definition download_chosen_results (fuel : nat) (o : options)
    (filepath token : string) (results : list result) (w : world)
  : outcome (Z * world) :=
  let n := Z.of_nat (length results) in
  let '(sel, align, infos) := scan_results results in
  let sel := if never_ask o && (sel =? 0) then 1 else sel in
  match ask_loop fuel o filepath token infos align n sel w with
  | Done (inl r, w) => Crash
  | Done (inr sel, w) =>
      let w := if quiet o =? 0 then emit (Table infos align) w else w in
      fetch fuel o filepath token infos sel w
  | Crash => Crash
  | OutOfFuel => OutOfFuel
  end.

(** ** One input file: [search_get_results] and [process_file] *)

Definition search_query_of (o : options) (hash filesize : Z)
    (name : string) : search_query :=
  mkQuery (if name_search_only o then None else Some (lang o, hash, filesize))
          (if hash_search_only o then None else Some (lang o, name))
          (limit o).

(** The part of the path after the last slash. *)
Definition base_name (filepath : string) : string :=
  match strrchr filepath "/" with
  | Some i => str_from (S i) filepath
  | None => filepath
  end.

(** The hash and the size that go into the query: both 0 under
    [name_search_only], where the file is not opened; [None] when the file
    cannot be opened. *)
Definition hash_of_input (o : options) (filepath : string) (w : world)
  : option (Z * Z) :=
  if name_search_only o then Some (0, 0)
  else get_hash_and_filesize ∘ fopen_r <$> w_files w !! filepath.

(** A fault whose code is 0 reads as success to the caller, which then
    goes on without a value: [Crash]. *)
Definition process_file (fuel : nat) (o : options) (filepath token : string)
    (w : world) : outcome (Z * world) :=
  match hash_of_input o filepath w with
  | None => Done (ENOENT, log_err (OpenFailed filepath) w)
  | Some (hash, filesize) =>
      let name := base_name filepath in
      let w := log_info o (Searching name) w in
      let '(reply, srv) :=
        rpc_search (w_server w) token (search_query_of o hash filesize name) in
      let w := set_server srv w in
      let failed (m : Z -> message) (code : Z) : outcome (Z * world) :=
        if code =? 0 then Crash else Done (code, log_err (m code) w) in
      match reply with
      | SearchFault code => failed QueryFailed code
      | SearchNoData code => failed DataFailed code
      | SearchNotArray code => Done (code, log_err (SizeFailed code) w)
      | SearchData [] => Done (1, log_err NoResults w)
      | SearchData results =>
          download_chosen_results fuel o filepath token results w
      end
  end.

(** ** The run: [main] after option parsing *)

(** [for (int i = optind; i < argc; i++)]: [r] is the status so far. *)
Fixpoint process_files (fuel : nat) (o : options) (token : string)
    (files : list string) (r : Z) (w : world) : outcome (Z * world) :=
  match files with
  | [] => Done (r, w)
  | filepath :: rest =>
      match process_file fuel o filepath token w with
      | Done (r, w) =>
          if negb (r =? 0) && exit_on_fail o then Done (r, w)
          else process_files fuel o token rest r w
      | Crash => Crash
      | OutOfFuel => OutOfFuel
      end
  end.

Definition EXIT_SUCCESS : Z := 0.
Definition EXIT_FAILURE : Z := 1.

(** [main] from the check for input files on; the language listing is left
    out.  The result is the value [main] returns.  A login fault with code
    0 lets the C code go on without a token: [Crash]. *)
Definition main (fuel : nat) (o : options) (files : list string) (w : world)
  : outcome (Z * world) :=
  match files with
  | [] => Done (EXIT_FAILURE, emit (Info Usage) w)
  | _ =>
      match rpc_login (w_server w) with
      | (Fault code, srv) =>
          if code =? 0 then Crash
          else Done (code, log_err LoginFailed (set_server srv w))
      | (Reply (status, token), srv) =>
          let w := set_server srv w in
          if negb (bool_decide (status = "200 OK"))
          then Done (1, log_err LoginFailed w)
          else process_files fuel o token files 0 w
      end
  end.

End Program.

(** ** Formatted output

    The conversions of [printf] and [asprintf] that the program uses,
    written out from the C standard. *)

Definition digit_char (d : Z) : ascii := ascii_of_N (Z.to_N (48 + d)).

(** The equations of the recursive definitions below are proved without
    functional extensionality. *)
Unset Equations With Funext.

(** The decimal digits of [n], most significant first, put before [acc].
    The recursion is on the number of binary digits. *)
Equations fmt_digits (n : Z) (acc : string) : string
  by wf (Z.to_nat (Z.log2 n)) lt :=
  fmt_digits n acc with Z_lt_dec n 10 := {
    | left _ => String (digit_char n) acc
    | right _ => fmt_digits (n / 10) (String (digit_char (n mod 10)) acc) }.
Next Obligation.
  intros n Hn _ _.
  assert (Hlt : Z.log2 (n / 10) < Z.log2 n).
  { apply Z.log2_lt_pow2; [apply Z.div_str_pos; lia|].
    destruct (Z.log2_spec n ltac:(lia)) as [_ Hup].
    rewrite Z.pow_succ_r in Hup by apply Z.log2_nonneg.
    apply Z.div_lt_upper_bound; lia. }
  pose proof (Z.log2_nonneg (n / 10)). lia.
Qed.

(** [%i] *)
Definition fmt_i (n : Z) : string :=
  if n <? 0 then String "-" (fmt_digits (- n) "") else fmt_digits n "".

(** [%] [PRIu64] *)
Definition fmt_u64 (n : Z) : string := fmt_digits (u64 n) "".

Definition hex_char (d : Z) : ascii :=
  ascii_of_N (Z.to_N (if d <? 10 then 48 + d else 87 + d)).

(** The lowest [k] hexadecimal digits of [n], put before [acc]. *)
Fixpoint fmt_hex (k : nat) (n : Z) (acc : string) : string :=
  match k with
  | O => acc
  | S k' => fmt_hex k' (n / 16) (String (hex_char (n mod 16)) acc)
  end.

(** [%016] [PRIx64]: a 64-bit value has at most 16 hexadecimal digits, so
    the zero padding brings every value to exactly 16. *)
Definition fmt_016x (n : Z) : string := fmt_hex 16 (u64 n) "".

Fixpoint spaces (n : nat) : string :=
  match n with
  | O => ""
  | S n' => String " " (spaces n')
  end.

(** [%-*s] and its like: [s] left-justified in a field of [width]. *)
Definition pad_right (width : Z) (s : string) : string :=
  s +:+ spaces (Z.to_nat (Z.abs width - strlen s)).

(** ** The parameters of [SearchSubtitles]: [search_get_results]

    The values that the function builds with the xmlrpc-c constructors and
    hands to [xmlrpc_client_call2f] with the format [(sAS)].  [asprintf] is
    taken to succeed. *)
Inductive xmlrpc_scalar :=
| XInt (i : Z)
| XString (s : string).

Definition xmlrpc_struct : Type := list (string * xmlrpc_scalar).

Inductive xmlrpc_value :=
| XScalar (v : xmlrpc_scalar)
| XArray (items : list xmlrpc_struct)
| XStruct (members : xmlrpc_struct).

Definition hash_query (o : options) (hash filesize : Z) : xmlrpc_struct :=
  [("sublanguageid", XString (lang o));
   ("moviehash", XString (fmt_016x hash));
   ("moviebytesize", XString (fmt_u64 filesize))].

Definition name_query (o : options) (filename : string) : xmlrpc_struct :=
  [("sublanguageid", XString (lang o)); ("query", XString filename)].

Definition search_params (o : options) (token : string) (hash filesize : Z)
    (filename : string) : list xmlrpc_value :=
  let query_array :=
    (if name_search_only o then [] else [hash_query o hash filesize])
    ++ (if hash_search_only o then [] else [name_query o filename]) in
  let param_struct := XStruct [("limit", XInt (limit o))] in
  [XScalar (XString token); XArray query_array; param_struct].

(** ** The table: [print_separator] and [print_table] *)

Definition SEP_VERTICAL : string := String "226" (String "148" (String "130" "")).
Definition SEP_HORIZONTAL : string := String "226" (String "148" (String "128" "")).
Definition SEP_CROSS : string := String "226" (String "148" (String "188" "")).
Definition SEP_UP_RIGHT : string := String "226" (String "148" (String "148" "")).

Definition newline : string := String "010" "".

(** The text written by [print_separator (c, digit_count)]. *)
Definition print_separator (c digit_count : Z) : string :=
  foldr (fun i rest =>
           (if (i =? digit_count + 1) || (i =? digit_count + 1 + 4)
               || (i =? digit_count + 1 + 4 + 6)
            then SEP_CROSS else SEP_HORIZONTAL) +:+ rest)
        newline (Z.of_nat <$> seq 0 (Z.to_nat c)).

(** [while (n_tmp) { n_tmp /= 10; digit_count++; }], by recursion on the
    number of binary digits of [n_tmp]. *)
Equations count_digits (n_tmp digit_count : Z) : Z
  by wf (Z.to_nat (Z.log2 (2 * Z.abs n_tmp))) lt :=
  count_digits n_tmp digit_count with Z.eq_dec n_tmp 0 := {
    | left _ => digit_count
    | right _ => count_digits (Z.quot n_tmp 10) (digit_count + 1) }.
Next Obligation.
  intros n_tmp Hn _ _.
  assert (Hq : Z.abs (n_tmp ÷ 10) = Z.abs n_tmp / 10).
  { rewrite <- Z.quot_abs by lia. apply Z.quot_div_nonneg; lia. }
  rewrite Hq.
  destruct (Z_lt_dec (Z.abs n_tmp) 10) as [Hsmall|Hbig].
  - rewrite Z.div_small by lia.
    change (Z.to_nat (Z.log2 (2 * 0))) with 0%nat.
    assert (0 < Z.log2 (2 * Z.abs n_tmp)) by (apply Z.log2_pos; lia). lia.
  - assert (Hlt : Z.log2 (2 * (Z.abs n_tmp / 10)) < Z.log2 (2 * Z.abs n_tmp)).
    { apply Z.log2_lt_pow2; [assert (0 < Z.abs n_tmp / 10)
                               by (apply Z.div_str_pos; lia); lia|].
      destruct (Z.log2_spec (2 * Z.abs n_tmp) ltac:(lia)) as [_ Hup].
      rewrite Z.pow_succ_r in Hup by apply Z.log2_nonneg.
      assert (Z.abs n_tmp / 10 * 10 <= Z.abs n_tmp)
        by (rewrite Z.mul_comm; apply Z.mul_div_le; lia).
      lia. }
    pose proof (Z.log2_nonneg (2 * (Z.abs n_tmp / 10))). lia.
Qed.

(** The header line of the table. *)
Definition table_header (digit_count align_release_name : Z) : string :=
  pad_right digit_count "#" +:+ " " +:+ SEP_VERTICAL +:+ " H " +:+ SEP_VERTICAL
  +:+ " Lng " +:+ SEP_VERTICAL +:+ " "
  +:+ pad_right align_release_name HEADER_RELEASE_NAME +:+ newline.

(** The two lines of entry [i]: the one with the number, the mark, the
    language and the release name, and the one with the file name. *)
Definition table_entry_line (digit_count align_release_name : Z) (i : Z)
    (info : sub_info) : string :=
  pad_right digit_count (fmt_i (i + 1)) +:+ " " +:+ SEP_VERTICAL +:+ " "
  +:+ (if matched_by_hash info then "*" else " ") +:+ " " +:+ SEP_VERTICAL
  +:+ " " +:+ sub_lang info +:+ " " +:+ SEP_VERTICAL +:+ " "
  +:+ pad_right align_release_name (release_name info) +:+ newline.

Definition table_file_line (digit_count : Z) (info : sub_info) : string :=
  pad_right digit_count "" +:+ " " +:+ SEP_VERTICAL +:+ "   "
  +:+ SEP_VERTICAL +:+ "     " +:+ SEP_VERTICAL +:+ " " +:+ SEP_UP_RIGHT
  +:+ filename info +:+ newline.

(** The [for] loop over the entries, from entry [i] on; [None] when
    [sub_infos] has fewer than [n] entries. *)
Fixpoint table_list (sub_infos : list sub_info) (n c digit_count
    align_release_name : Z) (i : Z) (todo : nat) : option string :=
  match todo with
  | O => Some ""
  | S todo' =>
      info ← sub_infos !! Z.to_nat i;
      rest ← table_list sub_infos n c digit_count align_release_name
                        (i + 1) todo';
      Some (table_entry_line digit_count align_release_name i info
            +:+ table_file_line digit_count info
            +:+ (if i =? n - 1 then "" else print_separator c digit_count)
            +:+ rest)
  end.

(** The text written by [print_table (sub_infos, n, align_release_name)].
    [printf] returns the number of bytes written, which is where [c]
    comes from. *)
Definition print_table (sub_infos : list sub_info) (n align_release_name : Z)
  : option string :=
  let digit_count := count_digits n 0 in
  let header := table_header digit_count align_release_name in
  let c := strlen header - 5 in
  list ← table_list sub_infos n c digit_count align_release_name 0 (Z.to_nat n);
  Some (newline +:+ header +:+ print_separator c digit_count +:+ list
        +:+ newline).

(** ** Option parsing: the [switch] of [main]

    [getopt_long] is libc's; what it returns, the option character with
    [optarg], is the input here. *)

(** The option globals: [options], and [list_languages]. *)
Record cli := mkCli { cli_options : options; cli_list_languages : bool }.

Definition default_cli : cli := mkCli default_options false.

(** The ways in which [main] returns from inside the [switch]: after
    [show_usage], after [show_version], after the "invalid limit" line of
    [log_err], and by the [default] case, for which [getopt_long] has
    printed its own message. *)
Inductive early_exit :=
| ExitUsage
| ExitVersion
| ExitInvalidLimit (optarg : string)
| ExitUnknown.

Definition exit_status (e : early_exit) : Z :=
  match e with
  | ExitUsage | ExitVersion => EXIT_SUCCESS
  | ExitInvalidLimit _ | ExitUnknown => EXIT_FAILURE
  end.

Definition set_lang (v : string) (o : options) : options :=
  mkOptions v (force_overwrite o) (always_ask o) (never_ask o)
            (hash_search_only o) (name_search_only o) (same_name o)
            (limit o) (exit_on_fail o) (quiet o).

Definition set_force_overwrite (v : bool) (o : options) : options :=
  mkOptions (lang o) v (always_ask o) (never_ask o)
            (hash_search_only o) (name_search_only o) (same_name o)
            (limit o) (exit_on_fail o) (quiet o).

Definition set_always_ask (v : bool) (o : options) : options :=
  mkOptions (lang o) (force_overwrite o) v (never_ask o)
            (hash_search_only o) (name_search_only o) (same_name o)
            (limit o) (exit_on_fail o) (quiet o).

Definition set_never_ask (v : bool) (o : options) : options :=
  mkOptions (lang o) (force_overwrite o) (always_ask o) v
            (hash_search_only o) (name_search_only o) (same_name o)
            (limit o) (exit_on_fail o) (quiet o).

Definition set_search_only (hash name : bool) (o : options) : options :=
  mkOptions (lang o) (force_overwrite o) (always_ask o) (never_ask o)
            hash name (same_name o)
            (limit o) (exit_on_fail o) (quiet o).

Definition set_same_name (v : bool) (o : options) : options :=
  mkOptions (lang o) (force_overwrite o) (always_ask o) (never_ask o)
            (hash_search_only o) (name_search_only o) v
            (limit o) (exit_on_fail o) (quiet o).

Definition set_limit (v : Z) (o : options) : options :=
  mkOptions (lang o) (force_overwrite o) (always_ask o) (never_ask o)
            (hash_search_only o) (name_search_only o) (same_name o)
            v (exit_on_fail o) (quiet o).

Definition set_exit_on_fail (v : bool) (o : options) : options :=
  mkOptions (lang o) (force_overwrite o) (always_ask o) (never_ask o)
            (hash_search_only o) (name_search_only o) (same_name o)
            (limit o) v (quiet o).

Definition set_quiet (v : Z) (o : options) : options :=
  mkOptions (lang o) (force_overwrite o) (always_ask o) (never_ask o)
            (hash_search_only o) (name_search_only o) (same_name o)
            (limit o) (exit_on_fail o) v.

(** One round of the [while] loop: the [switch] on the character [c] that
    [getopt_long] has returned. *)
Definition handle_option (c : ascii) (optarg : string) (s : cli)
  : early_exit + cli :=
  let o := cli_options s in
  let go (o' : options) : early_exit + cli :=
    inr (mkCli o' (cli_list_languages s)) in
  match c with
  | "h"%char => inl ExitUsage
  | "l"%char => go (set_lang optarg o)
  | "L"%char => inr (mkCli o true)
  | "a"%char => go (set_always_ask true o)
  | "n"%char => go (set_never_ask true o)
  | "f"%char => go (set_force_overwrite true o)
  | "o"%char => go (set_search_only true false o)
  | "O"%char => go (set_search_only false true o)
  | "s"%char => go (set_same_name true o)
  | "t"%char =>
      let '(v, endptr) := strtol optarg in
      let limit := to_int v in
      if negb (Ascii.eqb (char_at endptr optarg) Ascii.zero) || (limit <? 1)
      then inl (ExitInvalidLimit optarg)
      else go (set_limit limit o)
  | "e"%char => go (set_exit_on_fail false o)
  | "q"%char => go (set_quiet (u32 (quiet o + 1)) o)
  | "v"%char => inl ExitVersion
  | _ => inl ExitUnknown
  end.

(** The [while] loop over what [getopt_long] returns. *)
Fixpoint parse_options (opts : list (ascii * string)) (s : cli)
  : early_exit + cli :=
  match opts with
  | [] => inr s
  | (c, optarg) :: rest =>
      match handle_option c optarg s with
      | inl e => inl e
      | inr s' => parse_options rest s'
      end
  end.

(** ** Reference definitions the properties are stated against *)

(** How often the prompt was printed. *)
Fixpoint prompt_count (out : list event) : nat :=
  match out with
  | [] => O
  | Prompt _ :: out' => S (prompt_count out')
  | _ :: out' => prompt_count out'
  end.

(** A step of the run that reads nothing from standard input and prints
    no prompt. *)
Definition undisturbed `{XmlRpc} (w w' : world) : Prop :=
  w_stdin w' = w_stdin w /\ prompt_count (w_out w') = prompt_count (w_out w).

(** The index of the first candidate that matched by hash. *)
Fixpoint first_hash_match (infos : list sub_info) : option nat :=
  match infos with
  | [] => None
  | info :: infos' =>
      if matched_by_hash info then Some O else S <$> first_hash_match infos'
  end.

(** The widest release or file name, and at least [align]. *)
Definition widest (align : Z) (infos : list sub_info) : Z :=
  fold_left (fun a info =>
               Z.max (Z.max a (strlen (release_name info)))
                     (strlen (filename info)))
            infos align.

(** Whether the character [c] occurs in [s]. *)
Fixpoint contains (c : ascii) (s : string) : bool :=
  match s with
  | EmptyString => false
  | String a s' => Ascii.eqb a c || contains c s'
  end.

(** The sum of a file's full 8-byte words. *)
Fixpoint le_words (l : list byte) : list Z :=
  match l with
  | b0 :: b1 :: b2 :: b3 :: b4 :: b5 :: b6 :: b7 :: rest =>
      le_word [b0; b1; b2; b3; b4; b5; b6; b7] :: le_words rest
  | _ => []
  end.

Definition sumZ (l : list Z) : Z := foldr Z.add 0 l.

(** The fingerprint of a file below 64 KiB as the specification has it:
    both windows start at offset 0, so every full word counts twice. *)
Definition overlapping_fingerprint (data : list byte) : Z :=
  u64 (Z.of_nat (length data) + 2 * sumZ (le_words data)).

(** Base64 (RFC 4648) without line breaks, as the service sends it. *)
Definition b64_alphabet (n : Z) : ascii :=
  ascii_of_N (Z.to_N
    (if n <? 26 then n + 65
     else if n <? 52 then n + 71
     else if n <? 62 then n - 4
     else if n =? 62 then 43 else 47)).

Fixpoint base64_encode (bs : list byte) : string :=
  match bs with
  | [] => EmptyString
  | [a] =>
      let n := byte_val a * 65536 in
      String (b64_alphabet (n / 262144))
        (String (b64_alphabet (n / 4096 mod 64)) "==")
  | [a; b] =>
      let n := byte_val a * 65536 + byte_val b * 256 in
      String (b64_alphabet (n / 262144))
        (String (b64_alphabet (n / 4096 mod 64))
           (String (b64_alphabet (n / 64 mod 64)) "="))
  | a :: b :: c :: rest =>
      let n := byte_val a * 65536 + byte_val b * 256 + byte_val c in
      String (b64_alphabet (n / 262144))
        (String (b64_alphabet (n / 4096 mod 64))
           (String (b64_alphabet (n / 64 mod 64))
              (String (b64_alphabet (n mod 64)) (base64_encode rest))))
  end.

(** What the decode loop relies on from zlib, for a compressor [gzip]:
    [tracks s p i o] says that the stream [s] has taken the first [i] bytes
    of [gzip p] and delivered the first [o] bytes of [p].  A compressed
    stream is never empty.  A call of [inflate] whose input continues the
    compressed stream (and may run on into other bytes after its end)
    delivers the next bytes of [p]; it stops only when the input is used up
    or the output buffer is full; it returns [Z_STREAM_END] exactly when
    the compressed stream has been taken to its end, at which point all of
    [p] has been delivered. *)
Record inflates `{Zlib} (gzip : list byte -> list byte)
    (tracks : z_stream -> list byte -> nat -> nat -> Prop) : Prop := {
  gzip_nonempty : forall p, gzip p <> [];
  inflate_init : forall p,
    (inflateInit2 (16 + MAX_WBITS)).1 = Z_OK /\
    tracks (inflateInit2 (16 + MAX_WBITS)).2 p 0%nat 0%nat;
  inflate_step : forall s p i o input junk avail_out,
    tracks s p i o ->
    0 < avail_out ->
    input `prefix_of` (drop i (gzip p) ++ junk) ->
    match inflate s input avail_out with
    | (s', c, out, ret) =>
        (c <= length input)%nat /\
        (i + c <= length (gzip p))%nat /\
        out `prefix_of` drop o p /\
        Z.of_nat (length out) <= avail_out /\
        tracks s' p (i + c)%nat (o + length out)%nat /\
        if decide (i + c = length (gzip p))%nat
        then ret = Z_STREAM_END /\ (o + length out)%nat = length p
        else (ret = Z_OK \/ ret = Z_BUF_ERROR) /\
             (c = length input \/ Z.of_nat (length out) = avail_out)
    end
}.

(** The accumulator of the base64 decoder after one more character of
    rank [r], in arithmetic. *)
Definition push6 (v r : Z) : Z := (v * 64 + r) mod 2 ^ 32.

(** The world once the first [o] bytes of [p] have been appended to the
    file [path], which held [old]. *)
Definition written `{XmlRpc} (path : string) (old p : list byte) (o : nat)
    (w : world) : world :=
  set_files (<[path := old ++ take o p]> (w_files w))
            (w_room w - Z.of_nat o) w.

(** The fingerprint as the function's comment has it from its source: the
    size, plus the words of the first 64 KiB, plus the words of the last
    64 KiB, modulo 2^64. *)
Definition fingerprint (data : list byte) : Z :=
  u64 (Z.of_nat (length data)
       + sumZ (le_words (take (Z.to_nat 65536) data))
       + sumZ (le_words (drop (length data - Z.to_nat 65536) data))).

(** An input line that is neither a request to quit nor a valid choice
    out of [n]. *)
Definition rejected (n : Z) (line : string) : bool :=
  negb (Ascii.eqb (char_at 0 line) "q" || Ascii.eqb (char_at 0 line) "Q")
  && negb (valid_choice n line).


(** Between [w] and [w'] no file but [path] has changed, the set of
    paths that cannot be written is the same, and nothing was read from
    standard input. *)
Definition elsewhere `{XmlRpc} (path : string) (w w' : world) : Prop :=
  (forall q, q <> path -> w_files w' !! q = w_files w !! q) /\
  w_denied w' = w_denied w /\
  w_stdin w' = w_stdin w.

(** The candidate that is downloaded without a question, by its index:
    the first hash match, or the first candidate under [never_ask]. *)
Definition auto_choice (o : options) (infos : list sub_info) : option nat :=
  if always_ask o then None
  else match first_hash_match infos with
       | Some k => Some k
       | None => if never_ask o then Some O else None
       end.

(** The value of a string of lowercase hexadecimal digits, read after
    [acc]. *)
Definition hex_digit (c : ascii) : option Z :=
  let n := Z.of_N (N_of_ascii c) in
  if (48 <=? n) && (n <=? 57) then Some (n - 48)
  else if (97 <=? n) && (n <=? 102) then Some (n - 87)
  else None.

Fixpoint hex_value (s : string) (acc : Z) : option Z :=
  match s with
  | EmptyString => Some acc
  | String c s' =>
      match hex_digit c with
      | Some d => hex_value s' (16 * acc + d)
      | None => None
      end
  end.

(** How often the option character [c] occurs. *)
Definition count_option (c : ascii) (opts : list (ascii * string)) : nat :=
  length (filter (fun x => x.1 = c) opts).

(** The symbols of a text in UTF-8, as far as the table needs them: a
    byte from 0xE0 on starts a symbol of three bytes, any other byte is a
    symbol by itself. *)
Definition leads3 (a : ascii) : bool := 224 <=? Z.of_N (N_of_ascii a).

Fixpoint symbols (s : string) : list string :=
  match s with
  | EmptyString => []
  | String a s1 =>
      if leads3 a then
        match s1 with
        | String b (String c rest) =>
            String a (String b (String c "")) :: symbols rest
        | _ => [s]
        end
      else String a "" :: symbols s1
  end.

(** A text of one-byte symbols only. *)
Fixpoint plain (s : string) : bool :=
  match s with
  | EmptyString => true
  | String a s' => negb (leads3 a) && plain s'
  end.

(** The symbol in column [k] of a line. *)
Definition column (k : Z) (line : string) : option string :=
  if k <? 0 then None else symbols line !! Z.to_nat k.

(** ** Small instances for concrete runs *)

(** A server that answers from a table and never changes. *)
Record script := mkScript {
  s_search : string -> search_reply;
  s_download : Z -> rpc_reply buffer
}.

Definition scripted (sc : script) : XmlRpc := {|
  server := unit;
  rpc_login := fun s => (Reply ("200 OK", "token"), s);
  rpc_search := fun s _ q =>
    (match q_name q with
     | Some (_, name) => s_search sc name
     | None => SearchData []
     end, s);
  rpc_download := fun s _ sub_id => (s_download sc sub_id, s)
|}.

(** A string followed by zero bytes only. *)
Definition zero_padded (s : string) : buffer := mkBuffer s (fun _ => Ascii.zero).

(** A decompressor for a toy format: every byte of the plain text is
    preceded by the tag 1, and the tag 0 ends the stream. *)
Inductive toy_mode := ToyTag | ToyLit | ToyEnd | ToyBad.

Fixpoint toy_run (m : toy_mode) (input : list byte) (room : nat)
  : toy_mode * nat * list byte :=
  match m, input, room with
  | ToyTag, b :: rest, _ =>
      if Byte.eqb b x00 then (ToyEnd, 1%nat, [])
      else if Byte.eqb b x01 then
        let '(m', c, out) := toy_run ToyLit rest room in (m', S c, out)
      else (ToyBad, 0%nat, [])
  | ToyLit, b :: rest, S room' =>
      let '(m', c, out) := toy_run ToyTag rest room' in (m', S c, b :: out)
  | _, _, _ => (m, 0%nat, [])
  end.

Definition toy_inflate (m : toy_mode) (input : list byte) (avail_out : Z)
  : toy_mode * nat * list byte * Z :=
  let '(m', c, out) := toy_run m input (Z.to_nat avail_out) in
  (m', c, out,
   match m' with
   | ToyEnd => Z_STREAM_END
   | ToyBad => Z_DATA_ERROR
   | _ => match c with O => Z_BUF_ERROR | _ => Z_OK end
   end).

Definition toy_zlib : Zlib := {|
  z_stream := toy_mode;
  inflateInit2 := fun _ => (Z_OK, ToyTag);
  inflate := toy_inflate
|}.

Definition toy_gzip (p : list byte) : list byte :=
  flat_map (fun b => [x01; b]) p ++ [x00].

Definition toy_tracks (m : toy_mode) (p : list byte) (i o : nat) : Prop :=
  match m with
  | ToyTag => i = (2 * o)%nat /\ (o <= length p)%nat
  | ToyLit => i = (2 * o + 1)%nat /\ (o < length p)%nat
  | ToyEnd => i = (2 * length p + 1)%nat /\ o = length p
  | ToyBad => False
  end.

(** What a run shows from outside: the status, the files, the output. *)
Definition summary `{XmlRpc} (x : outcome (Z * world))
  : option (Z * list (string * list byte) * list event) :=
  match x with
  | Done (r, w) => Some (r, map_to_list (w_files w), w_out w)
  | _ => None
  end.

Definition status `{XmlRpc} (x : outcome (Z * world)) : option Z :=
  match x with
  | Done (r, _) => Some r
  | _ => None
  end.

(** An input line: the text and its newline. *)
Definition line (s : string) : string := s +:+ String "010" "".

(** The toy stream of a plain text, in base64. *)
Definition toy_payload (p : list byte) : string := base64_encode (toy_gzip p).

(** A world with the given files and input lines, nothing printed yet, and
    room for a thousand bytes. *)
Definition start (sc : script) (files : list (string * list byte))
    (lines : list string) : @world (scripted sc) :=
  @mkWorld (scripted sc) (list_to_map files) ∅ 1000 lines tt [].

Definition with_force (b : bool) : options :=
  mkOptions "eng" b false false false false false 10 true 0.

Definition with_same_name (b : bool) : options :=
  mkOptions "eng" false false false false false b 10 true 0.

Definition with_exit_on_fail (b : bool) : options :=
  mkOptions "eng" false false false false false false 10 b 0.

(** A service whose download call delivers the base64 text [payload]. *)
Definition serving (results : list result) (payload : string) : script :=
  mkScript (fun _ => SearchData results)
           (fun _ => Reply (zero_padded payload)).

(** A service whose download call faults. *)
Definition faulting (code : Z) : script :=
  mkScript (fun _ => SearchData []) (fun _ => Fault code).

(** The toy stream of ["AB"] cut off before its end mark, in base64. *)
Definition truncated_payload : string := base64_encode [x01; x41; x01; x42].

Definition by_name : result := mkResult "7" "fulltext" "eng" "Movie" "x.srt".
Definition by_hash : result := mkResult "8" "moviehash" "eng" "Movie" "y.srt".

Definition one_word_file : list byte :=
  [x01; x00; x00; x00; x00; x00; x00; x00].

(** What a run of the interactive loop shows: how it ended and what was
    printed. *)
Definition loop_summary `{XmlRpc} (x : outcome ((Z + Z) * world))
  : option ((Z + Z) * list string * list event) :=
  match x with
  | Done (e, w) => Some (e, w_stdin w, w_out w)
  | _ => None
  end.

(** Two files and a service that finds one candidate by name only. *)
Definition name_only_service : script := serving [by_name] (toy_payload [x41; x42]).


(** A service that finds a candidate by hash and delivers ["AB"]. *)
Definition hash_service : script := serving [by_hash] (toy_payload [x41; x42]).

(** A service with three candidates, the third the only hash match. *)
Definition three_candidates : list result := [by_name; by_name; by_hash].

(** A file of 64 KiB of zero bytes followed by one word of value 1. *)
Definition long_file : list byte :=
  replicate (Z.to_nat 65536) x00 ++ one_word_file.

(** A world like [start], with room for [room] bytes only. *)
Definition cramped (sc : script) (files : list (string * list byte))
    (room : Z) : @world (scripted sc) :=
  @mkWorld (scripted sc) (list_to_map files) ∅ room [] tt [].

(** A text of 5000 bytes, which spans two blocks of the output stream. *)
Definition long_text : list byte := replicate 5000 x41.

(** What [getopt_long] returns for [-t 25 -q -O -q -o]. *)
Definition some_options : list (ascii * string) :=
  [("t"%char, "25"); ("q"%char, ""); ("O"%char, ""); ("q"%char, "");
   ("o"%char, "")].


(** * Properties *)

(** The powers of two that bound the machine integers, as numerals. *)
Ltac pow_numerals :=
  change (2 ^ 64) with 18446744073709551616 in *;
  change (2 ^ 63) with 9223372036854775808 in *;
  change (2 ^ 32) with 4294967296 in *;
  change (2 ^ 31) with 2147483648 in *.

(** Settles [b = (x ?? y)] for a comparison on [Z] and a boolean [b]. *)
Ltac zbool :=
  symmetry;
  first [ apply Z.ltb_lt | apply Z.ltb_ge | apply Z.leb_le | apply Z.leb_gt
        | apply Z.eqb_eq | apply Z.eqb_neq ];
  lia.


(** ** Fingerprinter *)

Lemma u64_idem z : u64 (u64 z) = u64 z.
Proof. unfold u64. apply Z.mod_mod. lia. Qed.

Lemma u64_small z : 0 <= z < 2 ^ 64 -> u64 z = z.
Proof. intros Hz. unfold u64. apply Z.mod_small. exact Hz. Qed.

Lemma u64_add_l a b : u64 (u64 a + b) = u64 (a + b).
Proof. unfold u64. apply Zplus_mod_idemp_l. Qed.

Lemma le_words_cons (l : list byte) :
  (8 <= length l)%nat -> le_words l = le_word (take 8 l) :: le_words (drop 8 l).
Proof.
  intros Hl.
  do 8 (destruct l as [|? l]; [simpl in Hl; lia|]).
  reflexivity.
Qed.

Lemma le_words_short (l : list byte) : (length l < 8)%nat -> le_words l = [].
Proof.
  intros Hl.
  do 8 (destruct l as [|? l]; [reflexivity|]).
  simpl in Hl. lia.
Qed.

Lemma le_words_length (l : list byte) : (8 * length (le_words l) <= length l)%nat.
Proof.
  remember (length l) as n eqn:Hn.
  revert l Hn. induction (lt_wf n) as [n _ IH]. intros l ->.
  destruct (decide (8 <= length l)%nat) as [Hl|Hl].
  - rewrite (le_words_cons l Hl). cbn [length].
    specialize (IH (length (drop 8 l))).
    rewrite length_drop in IH.
    specialize (IH ltac:(lia) (drop 8 l)). rewrite length_drop in IH.
    specialize (IH eq_refl). lia.
  - rewrite le_words_short by lia. simpl. lia.
Qed.

(** One [for] loop that is allowed more rounds than full words remain reads
    them all and leaves the stream at the end of the file. *)
Lemma sum_words_all n : forall h hash,
  0 <= f_pos h ->
  u64 hash = hash ->
  (length (le_words (drop (Z.to_nat (f_pos h)) (f_data h))) < n)%nat ->
  sum_words n h hash =
    (mkFILE (f_data h) (Z.max (f_pos h) (Z.of_nat (length (f_data h)))),
     u64 (hash + sumZ (le_words (drop (Z.to_nat (f_pos h)) (f_data h))))).
Proof.
  induction n as [|n IH]; intros [data pos] hash Hpos Hhash Hn; cbn [f_pos f_data] in *.
  { lia. }
  cbn [sum_words]. unfold fread_u64. cbn [f_pos f_data].
  set (rest := drop (Z.to_nat pos) data) in *.
  destruct (decide (8 <= length rest)%nat) as [Hl|Hl].
  - rewrite (le_words_cons rest Hl) in Hn |- *. cbn [length] in Hn.
    assert (Hdrop : drop (Z.to_nat (pos + 8)) data = drop 8 rest).
    { unfold rest. rewrite drop_drop. f_equal. lia. }
    rewrite IH; cbn [f_pos f_data].
    + rewrite Hdrop. f_equal.
      * f_equal. unfold rest in Hl. rewrite length_drop in Hl. lia.
      * cbn [sumZ foldr]. rewrite u64_add_l. f_equal. unfold sumZ. lia.
    + lia.
    + apply u64_idem.
    + rewrite Hdrop. lia.
  - rewrite le_words_short by lia. cbn [sumZ foldr].
    rewrite Z.add_0_r, Hhash. reflexivity.
Qed.

(** For a file below 64 KiB the offset handed to the second [fseek] is
    negative: the unsigned difference is never below zero, so the guard
    does not replace it by 0. *)
Lemma trailing_offset_small (size : Z) :
  0 <= size < 65536 -> to_long (trailing_offset size) = size - 65536.
Proof.
  intros Hs. unfold trailing_offset, to_long.
  assert (Hu : u64 (size - 65536) = size - 65536 + 2 ^ 64).
  { unfold u64. pow_numerals. symmetry. apply (Z.mod_unique _ _ (-1)); [left|]; lia. }
  rewrite Hu.
  destruct (0 <? size - 65536 + 2 ^ 64) eqn:E; [|pow_numerals; lia].
  rewrite u64_small by (pow_numerals; lia).
  destruct (size - 65536 + 2 ^ 64 <? 2 ^ 63) eqn:E'; pow_numerals; lia.
Qed.

(** C1 (what the code computes).  For every file below 64 KiB the second
    [fseek] is refused, the stream stays at the end of the file, the second
    loop reads nothing, and the hash is the size plus the sum of the full
    8-byte words, each counted once, modulo 2^64. *)
Theorem get_hash_small (data : list byte) :
  Z.of_nat (length data) < 65536 ->
  get_hash_and_filesize (fopen_r data) =
    (u64 (Z.of_nat (length data) + sumZ (le_words data)),
     Z.of_nat (length data)).
Proof.
  intros Hlen.
  set (size := Z.of_nat (length data)) in *.
  assert (Hsize : u64 size = size) by (apply u64_small; pow_numerals; lia).
  unfold get_hash_and_filesize, fopen_r, fseek, ftell. cbn [f_data f_pos].
  change (65536 / 8) with 8192.
  fold size. replace (size + 0 <? 0) with false by lia.
  cbn [f_pos f_data]. rewrite Z.add_0_r, Hsize.
  replace (0 <? 0) with false by reflexivity.
  pose proof (le_words_length data) as Hw.
  rewrite sum_words_all; cbn [f_pos f_data]; [|lia|exact Hsize|].
  2:{ rewrite drop_0. apply Nat2Z.inj_lt. rewrite Z2Nat.id by lia. lia. }
  rewrite drop_0, trailing_offset_small by lia.
  replace (size - 65536 <? 0) with true by lia.
  rewrite sum_words_all; cbn [f_pos f_data]; [|lia|apply u64_idem|].
  2:{ rewrite drop_ge by lia. simpl. lia. }
  rewrite drop_ge by lia. cbn [le_words sumZ foldr].
  rewrite Z.add_0_r, u64_idem. reflexivity.
Qed.

Lemma get_hash_small_example :
  Z.of_nat (length one_word_file) < 65536 /\
  get_hash_and_filesize (fopen_r one_word_file) = (9, 8) /\
  overlapping_fingerprint one_word_file = 10.
Proof.
  split; [reflexivity|]. split; [|reflexivity].
  apply (get_hash_small one_word_file). reflexivity.
Defined.


(** ** Output path *)

Section Strings.
Implicit Types (s t : string) (c : ascii).

Lemma str_app_nil t : "" +:+ t = t.
Proof. reflexivity. Qed.

Lemma str_app_cons a s t : String a s +:+ t = String a (s +:+ t).
Proof. reflexivity. Qed.

Lemma strrchr_None s c : strrchr s c = None <-> contains c s = false.
Proof.
  induction s as [|a s IH]; cbn [strrchr contains]; [done|].
  destruct (strrchr s c) eqn:E.
  - split; [done|]. intros [_ Hc]%orb_false_iff. apply IH in Hc. done.
  - destruct IH as [IH _]. rewrite (IH eq_refl), orb_false_r.
    destruct (Ascii.eqb a c); done.
Qed.

Lemma strrchr_app_last s t c :
  contains c t = false ->
  strrchr (s +:+ String c t) c = Some (String.length s).
Proof.
  intros Ht. induction s as [|a s IH];
    rewrite ?str_app_nil, ?str_app_cons; cbn [strrchr String.length].
  - apply strrchr_None in Ht. rewrite Ht, Ascii.eqb_refl. reflexivity.
  - rewrite IH. reflexivity.
Qed.

Lemma str_take_app s t : str_take (String.length s) (s +:+ t) = s.
Proof.
  induction s as [|a s IH];
    rewrite ?str_app_nil, ?str_app_cons; cbn [String.length str_take].
  - destruct t; reflexivity.
  - rewrite IH. reflexivity.
Qed.

Lemma str_take_app_succ s c t :
  str_take (String.length s + 1) (s +:+ String c t) = s +:+ String c "".
Proof.
  induction s as [|a s IH];
    rewrite ?str_app_nil, ?str_app_cons; cbn [String.length str_take Nat.add].
  - reflexivity.
  - rewrite IH. reflexivity.
Qed.

Lemma str_from_app s t : str_from (String.length s) (s +:+ t) = t.
Proof.
  induction s as [|a s IH];
    rewrite ?str_app_nil, ?str_app_cons; cbn [String.length str_from]; done.
Qed.

Lemma string_app_assoc s t u : (s +:+ t) +:+ u = s +:+ t +:+ u.
Proof.
  induction s as [|a s IH]; rewrite ?str_app_nil, ?str_app_cons; [done|].
  by rewrite IH.
Qed.

Lemma string_length_app s t :
  String.length (s +:+ t) = (String.length s + String.length t)%nat.
Proof.
  induction s as [|a s IH];
    rewrite ?str_app_nil, ?str_app_cons; cbn [String.length]; [done|].
  by rewrite IH.
Qed.

Lemma sub_ext_of_dot s e :
  contains "." e = false -> sub_ext_of (s +:+ String "." e) = String "." e.
Proof.
  intros He. unfold sub_ext_of. rewrite strrchr_app_last by done.
  apply str_from_app.
Qed.

Lemma sub_ext_of_none s : contains "." s = false -> sub_ext_of s = ".srt".
Proof.
  intros Hs. unfold sub_ext_of. apply strrchr_None in Hs. by rewrite Hs.
Qed.

End Strings.

(** C6.  Without [same_name] the subtitle's own file name is put into the
    directory of the input file (the input path up to its last slash; the
    bare name when the path has no slash).  With [same_name] what follows
    the last dot of the input path is replaced by what follows the last dot
    of the subtitle's name, or by [srt] when that name has no dot. *)
Theorem get_sub_path_spec (o : options) :
  (same_name o = false ->
   (forall dir base sub, contains "/" base = false ->
      get_sub_path o (dir +:+ "/" +:+ base) sub = Some (dir +:+ "/" +:+ sub)) /\
   (forall name sub, contains "/" name = false ->
      get_sub_path o name sub = Some sub)) /\
  (same_name o = true ->
   forall stem ext, contains "." ext = false ->
   (forall s e, contains "." e = false ->
      get_sub_path o (stem +:+ "." +:+ ext) (s +:+ "." +:+ e)
        = Some (stem +:+ "." +:+ e)) /\
   (forall sub, contains "." sub = false ->
      get_sub_path o (stem +:+ "." +:+ ext) sub = Some (stem +:+ ".srt"))).
Proof.
  split; intros Hsame; unfold get_sub_path; rewrite Hsame.
  - split.
    + intros dir base sub Hbase. rewrite !str_app_cons, !str_app_nil.
      rewrite strrchr_app_last by done.
      rewrite str_take_app_succ, string_app_assoc. reflexivity.
    + intros name sub Hname. apply strrchr_None in Hname. by rewrite Hname.
  - intros stem ext Hext.
    assert (Hidx : same_name_index (stem +:+ "." +:+ ext)
                   = Z.of_nat (String.length stem)).
    { unfold same_name_index. rewrite str_app_cons, str_app_nil.
      by rewrite strrchr_app_last. }
    rewrite Hidx.
    replace (Z.of_nat (String.length stem) <? 0) with false
      by (symmetry; apply Z.ltb_ge; lia).
    rewrite Nat2Z.id, str_take_app.
    split.
    + intros s e He. rewrite !str_app_cons, !str_app_nil.
      by rewrite sub_ext_of_dot.
    + intros sub Hsub. by rewrite sub_ext_of_none.
Qed.

Lemma get_sub_path_spec_example :
  get_sub_path (with_same_name false) "/a/b/movie.mkv" "x.srt"
    = Some "/a/b/x.srt" /\
  get_sub_path (with_same_name true) "/a/b/movie.mkv" "x.srt"
    = Some "/a/b/movie.srt".
Proof.
  split.
  - destruct (get_sub_path_spec (with_same_name false)) as [Hdir _].
    destruct (Hdir eq_refl) as [Hslash _].
    exact (Hslash "/a/b" "movie.mkv" "x.srt" eq_refl).
  - destruct (get_sub_path_spec (with_same_name true)) as [_ Hext].
    destruct (Hext eq_refl "/a/b/movie" "mkv" eq_refl) as [Hdot _].
    exact (Hdot "x" "srt" eq_refl).
Defined.

(** C10.  With [same_name], an input path without a dot loses its last
    character before the extension is appended: for a subtitle named
    [s.e] the result is the path cut one character short followed by
    [.e], and for a subtitle's name without a dot it is the path cut one
    character short followed by [.srt]. *)
Theorem get_sub_path_no_dot (o : options) (path : string) (c : ascii) :
  same_name o = true ->
  contains "." (path +:+ String c "") = false ->
  (forall s e, contains "." e = false ->
     get_sub_path o (path +:+ String c "") (s +:+ "." +:+ e)
       = Some (path +:+ "." +:+ e)) /\
  (forall sub, contains "." sub = false ->
     get_sub_path o (path +:+ String c "") sub = Some (path +:+ ".srt")).
Proof.
  intros Hsame Hdot.
  assert (Hcut : forall sub,
             get_sub_path o (path +:+ String c "") sub
               = Some (path +:+ sub_ext_of sub)).
  { intros sub. unfold get_sub_path, same_name_index. rewrite Hsame.
    apply strrchr_None in Hdot. rewrite Hdot.
    unfold strlen. rewrite string_length_app. cbn [String.length].
    replace (Z.of_nat (String.length path + 1) - 1)
      with (Z.of_nat (String.length path)) by lia.
    replace (Z.of_nat (String.length path) <? 0) with false
      by (symmetry; apply Z.ltb_ge; lia).
    rewrite Nat2Z.id, str_take_app. reflexivity. }
  split.
  - intros s e He. rewrite Hcut, !str_app_cons, !str_app_nil.
    by rewrite sub_ext_of_dot.
  - intros sub Hsub. by rewrite Hcut, sub_ext_of_none.
Qed.

Lemma get_sub_path_no_dot_example :
  same_name (with_same_name true) = true /\
  contains "." "movie" = false /\
  get_sub_path (with_same_name true) "movie" "x.sub" = Some "movi.sub" /\
  get_sub_path (with_same_name true) "movie" "x.srt" = Some "movi.srt" /\
  get_sub_path (with_same_name true) "movie" "a.b.ass" = Some "movi.ass" /\
  get_sub_path (with_same_name true) "movie" "x" = Some "movi.srt".
Proof.
  destruct (get_sub_path_no_dot (with_same_name true) "movi" "e"
              eq_refl eq_refl) as [Hext Hnone].
  split; [reflexivity|]. split; [reflexivity|].
  split; [exact (Hext "x" "sub" eq_refl)|].
  split; [exact (Hext "x" "srt" eq_refl)|].
  split; [exact (Hext "a.b" "ass" eq_refl)|].
  exact (Hnone "x" eq_refl).
Defined.


(** ** Selection *)

Section Selection.
Context `{Zlib} `{XmlRpc}.
Implicit Types (w : world) (o : options) (infos : list sub_info).

(** *** What a download leaves alone: standard input and the prompt count *)

Lemma undisturbed_refl w : undisturbed w w.
Proof. done. Qed.

Lemma undisturbed_trans w1 w2 w3 :
  undisturbed w1 w2 -> undisturbed w2 w3 -> undisturbed w1 w3.
Proof. intros [? ?] [? ?]. split; congruence. Qed.

Lemma prompt_count_app out out' :
  prompt_count (out ++ out') = (prompt_count out + prompt_count out')%nat.
Proof.
  induction out as [|[] out IH]; cbn [app prompt_count]; rewrite ?IH; done.
Qed.

Lemma undisturbed_log_err m w : undisturbed w (log_err m w).
Proof.
  split; [done|]. cbn. rewrite prompt_count_app. cbn. lia.
Qed.

Lemma undisturbed_log_info o m w : undisturbed w (log_info o m w).
Proof.
  unfold log_info. destruct (2 <=? quiet o); [done|].
  split; [done|]. cbn. rewrite prompt_count_app. cbn. lia.
Qed.

Lemma undisturbed_table infos align w : undisturbed w (emit (Table infos align) w).
Proof. split; [done|]. cbn. rewrite prompt_count_app. cbn. lia. Qed.

Lemma undisturbed_set_files fs room w : undisturbed w (set_files fs room w).
Proof. done. Qed.

Lemma undisturbed_set_server s w : undisturbed w (set_server s w).
Proof. done. Qed.

Lemma undisturbed_fwrite path bs w : undisturbed w (fwrite path bs w).2.
Proof. unfold fwrite. by destruct (_ || _). Qed.

Lemma undisturbed_fclose path w : undisturbed w (fclose path w).
Proof. unfold fclose. by destruct (_ <? 0). Qed.

(** Peels the world transformers off the right-hand side, then closes the
    goal with a hypothesis or by chaining two of them. *)
Ltac undisturbed_step :=
  lazymatch goal with
  | |- undisturbed _ (log_err _ ?w') =>
      apply (undisturbed_trans _ w'); [|apply undisturbed_log_err]
  | |- undisturbed _ (log_info _ _ ?w') =>
      apply (undisturbed_trans _ w'); [|apply undisturbed_log_info]
  | |- undisturbed _ (emit (Table _ _) ?w') =>
      apply (undisturbed_trans _ w'); [|apply undisturbed_table]
  | |- undisturbed _ (set_files _ _ ?w') =>
      apply (undisturbed_trans _ w'); [|apply undisturbed_set_files]
  | |- undisturbed _ (set_server _ ?w') =>
      apply (undisturbed_trans _ w'); [|apply undisturbed_set_server]
  | |- undisturbed _ (fclose _ ?w') =>
      apply (undisturbed_trans _ w'); [|apply undisturbed_fclose]
  end.

Ltac solve_undisturbed :=
  repeat undisturbed_step;
  first [ assumption
        | apply undisturbed_refl
        | eapply undisturbed_trans; eassumption ].

Lemma inflate_loop_undisturbed fuel : forall path strm input w e w',
  inflate_loop fuel path strm input w = Done (e, w') -> undisturbed w w'.
Proof.
  induction fuel as [|fuel IH]; intros path strm input w e w'; cbn [inflate_loop].
  { done. }
  destruct (inflate strm input ZLIB_CHUNK) as [[[strm' consumed] out] ret].
  destruct (_ || _).
  { intros [= <- <-]. solve_undisturbed. }
  pose proof (undisturbed_fwrite path out w) as Hw.
  destruct (fwrite path out w) as [written w1]. cbn [snd] in Hw.
  destruct (negb _).
  { intros [= <- <-]. solve_undisturbed. }
  destruct (_ =? ZLIB_CHUNK).
  - intros Hrec. apply IH in Hrec. solve_undisturbed.
  - intros [= <- <-]. done.
Qed.

Lemma decode_loop_undisturbed fuel : forall path buf strm st sv off w r w',
  decode_loop fuel path buf strm st sv off w = Done (r, w') -> undisturbed w w'.
Proof.
  induction fuel as [|fuel IH]; intros path buf strm st sv off w r w';
    cbn [decode_loop].
  { done. }
  destruct (g_base64_decode_step _ _ _) as [[z_in st'] sv'].
  destruct (_ =? 0).
  { intros [= <- <-]. done. }
  destruct (inflate_loop fuel path strm z_in w) as [[[r1|z_ret strm'] w1]| |] eqn:E;
    try done; apply inflate_loop_undisturbed in E.
  - intros [= <- <-]. done.
  - destruct (z_ret =? Z_STREAM_END).
    + intros [= <- <-]. done.
    + intros Hrec. apply IH in Hrec. solve_undisturbed.
Qed.

Lemma sub_download_undisturbed fuel o token sub_id path w r w' :
  sub_download fuel o token sub_id path w = Done (r, w') -> undisturbed w w'.
Proof.
  unfold sub_download.
  destruct (_ && _).
  { intros [= <- <-]. solve_undisturbed. }
  set (w1 := if file_exists path w then _ else _).
  assert (H1 : undisturbed w w1).
  { unfold w1. destruct (file_exists path w); solve_undisturbed. }
  destruct (rpc_download _ _ _) as [[code|buf] srv].
  { intros [= <- <-]. solve_undisturbed. }
  destruct (bool_decide _).
  { intros [= <- <-]. solve_undisturbed. }
  destruct (inflateInit2 _) as [z_ret strm].
  destruct (negb _).
  { intros [= <- <-]. solve_undisturbed. }
  destruct (decode_loop _ _ _ _ _ _ _ _) as [[r1 w2]| |] eqn:Hd; try done.
  apply decode_loop_undisturbed in Hd.
  intros [= <- <-]. undisturbed_step.
  apply (undisturbed_trans _ _ _ H1).
  refine (undisturbed_trans _ _ _ _ Hd). solve_undisturbed.
Qed.

Lemma fetch_undisturbed fuel o filepath token infos sel w r w' :
  fetch fuel o filepath token infos sel w = Done (r, w') -> undisturbed w w'.
Proof.
  unfold fetch.
  destruct (if sel - 1 <? 0 then _ else _) as [info|]; [|done].
  set (w1 := if _ && _ then _ else _).
  assert (H1 : undisturbed w w1).
  { unfold w1. destruct (_ && _); solve_undisturbed. }
  destruct (get_sub_path _ _ _) as [p|]; [|done].
  intros Hd%sub_download_undisturbed.
  refine (undisturbed_trans _ _ _ _ Hd). solve_undisturbed.
Qed.

(** *** The scan of the results *)

Lemma scan_fold (rs : list result) : forall sel align infos,
  fold_left scan_result rs (sel, align, infos) =
    (if sel =? 0
     then match first_hash_match (parse_result <$> rs) with
          | Some k => Z.of_nat (length infos + k) + 1
          | None => 0
          end
     else sel,
     widest align (parse_result <$> rs),
     infos ++ (parse_result <$> rs)).
Proof.
  induction rs as [|r rs IH]; intros sel align infos.
  { cbn. rewrite app_nil_r. by destruct (Z.eqb_spec sel 0) as [->|]. }
  cbn [fold_left scan_result fmap list_fmap first_hash_match widest].
  rewrite IH, <- (assoc_L (++)). cbn [app].
  change (widest align (parse_result r :: (parse_result <$> rs)))
    with (widest (Z.max (Z.max align (strlen (release_name (parse_result r))))
                        (strlen (filename (parse_result r))))
                 (parse_result <$> rs)).
  do 2 f_equal.
  rewrite length_app. cbn [length].
  destruct (matched_by_hash (parse_result r)); cbn [andb].
  - destruct (sel =? 0) eqn:E.
    + destruct (Z.eqb_spec (Z.of_nat (length infos) + 1) 0); [lia|]. f_equal. lia.
    + by rewrite E.
  - destruct (sel =? 0); [|done].
    destruct (first_hash_match _); cbn; [f_equal; lia|done].
Qed.

Lemma scan_results_spec (rs : list result) :
  scan_results rs =
    (match first_hash_match (parse_result <$> rs) with
     | Some k => Z.of_nat k + 1
     | None => 0
     end,
     widest (strlen HEADER_RELEASE_NAME) (parse_result <$> rs),
     parse_result <$> rs).
Proof. unfold scan_results. rewrite scan_fold. reflexivity. Qed.

(** [first_hash_match] is the least index of a candidate matched by hash. *)
Lemma first_hash_match_Some infos (k : nat) :
  first_hash_match infos = Some k <->
  (matched_by_hash <$> (infos !! k)) = Some true /\
  forall j, (j < k)%nat -> (matched_by_hash <$> (infos !! j)) = Some false.
Proof.
  revert k. induction infos as [|info infos IH]; intros k; cbn [first_hash_match].
  { split; [done|]. by intros [? _]. }
  destruct (matched_by_hash info) eqn:E.
  - split.
    + intros [= <-]. cbn. rewrite E. split; [done|]. lia.
    + intros [Hk Hlt]. destruct k as [|k]; [done|].
      specialize (Hlt O ltac:(lia)). cbn in Hlt. congruence.
  - destruct k as [|k].
    + split; [by destruct (first_hash_match infos)|].
      cbn. intros [? _]. congruence.
    + assert (Hfm : S <$> first_hash_match infos = Some (S k)
                    <-> first_hash_match infos = Some k).
      { destruct (first_hash_match infos); cbn; split; intros [= ->]; done. }
      rewrite Hfm, IH. cbn [lookup list_lookup].
      split.
      * intros [Hk Hlt]. split; [done|].
        intros [|j] Hj; cbn; [by rewrite E|]. apply Hlt. lia.
      * intros [Hk Hlt]. split; [done|].
        intros j Hj. apply (Hlt (S j)). lia.
Qed.

(** C5.  With [always_ask] off, a candidate list whose first hash match
    has index [k] goes straight to the download step for candidate [k + 1];
    a list without a hash match does so for candidate 1 when [never_ask] is
    set.  In both cases nothing is read from standard input and no prompt
    is printed; the table is printed unless [quiet] is set. *)
Theorem select_without_prompt fuel o filepath token (results : list result) w :
  always_ask o = false ->
  let infos := parse_result <$> results in
  let shown :=
    if quiet o =? 0
    then emit (Table infos (widest (strlen HEADER_RELEASE_NAME) infos)) w
    else w in
  (forall k, first_hash_match infos = Some k ->
     download_chosen_results fuel o filepath token results w
       = fetch fuel o filepath token infos (Z.of_nat k + 1) shown) /\
  (first_hash_match infos = None -> never_ask o = true ->
     download_chosen_results fuel o filepath token results w
       = fetch fuel o filepath token infos 1 shown) /\
  (first_hash_match infos <> None \/ never_ask o = true ->
   forall r w',
     download_chosen_results fuel o filepath token results w = Done (r, w') ->
     w_stdin w' = w_stdin w /\
     prompt_count (w_out w') = prompt_count (w_out w)).
Proof.
  intros Hask infos shown.
  assert (Hk : forall k, first_hash_match infos = Some k ->
     download_chosen_results fuel o filepath token results w
       = fetch fuel o filepath token infos (Z.of_nat k + 1) shown).
  { intros k Hk. unfold download_chosen_results.
    rewrite scan_results_spec. fold infos. rewrite Hk.
    replace (Z.of_nat k + 1 =? 0) with false by zbool.
    rewrite andb_false_r.
    destruct fuel; cbn [ask_loop];
      replace (Z.of_nat k + 1 =? 0) with false by zbool; by rewrite Hask. }
  assert (Hn : first_hash_match infos = None -> never_ask o = true ->
     download_chosen_results fuel o filepath token results w
       = fetch fuel o filepath token infos 1 shown).
  { intros Hnone Hnever. unfold download_chosen_results.
    rewrite scan_results_spec. fold infos. rewrite Hnone, Hnever. cbn [andb Z.eqb].
    destruct fuel; cbn [ask_loop Z.eqb orb]; by rewrite Hask. }
  split; [exact Hk|]. split; [exact Hn|].
  intros Hauto r w' Hrun.
  assert (Hshown : undisturbed w shown).
  { unfold shown. destruct (quiet o =? 0); solve_undisturbed. }
  destruct (first_hash_match infos) as [k|] eqn:E.
  - rewrite (Hk k eq_refl) in Hrun. apply fetch_undisturbed in Hrun.
    exact (undisturbed_trans _ _ _ Hshown Hrun).
  - destruct Hauto as [|Hnever]; [done|].
    rewrite (Hn eq_refl Hnever) in Hrun. apply fetch_undisturbed in Hrun.
    exact (undisturbed_trans _ _ _ Hshown Hrun).
Qed.

(** *** The interactive loop *)

(** A line that starts with [q] or [Q] is no valid choice: the quit test
    and the validation never compete. *)
Lemma valid_choice_not_quit n line :
  valid_choice n line = true ->
  Ascii.eqb (char_at 0 line) "q" || Ascii.eqb (char_at 0 line) "Q" = false.
Proof.
  destruct line as [|c line]; [done|]. cbn [char_at].
  destruct (Ascii.eqb c "q") eqn:Eq; [apply Ascii.eqb_eq in Eq as ->; done|].
  destruct (Ascii.eqb c "Q") eqn:EQ; [apply Ascii.eqb_eq in EQ as ->; done|].
  done.
Qed.

Lemma read_choice_valid n line rest :
  valid_choice n line = true ->
  read_choice n (line :: rest) = (to_int (strtol line).1, rest, 1%nat).
Proof.
  intros Hv. cbn [read_choice].
  by rewrite (valid_choice_not_quit n line Hv), Hv.
Qed.

Lemma valid_choice_range n line :
  valid_choice n line = true -> 1 <= to_int (strtol line).1 <= n.
Proof.
  unfold valid_choice. destruct (strtol line) as [v e]. cbn [fst].
  intros [[_ ?%Z.leb_le]%andb_true_iff ?%Z.leb_le]%andb_true_iff. lia.
Qed.

(** C8.  In the interactive loop, once the user has typed a valid choice
    [sel], the table and the prompt have been printed, the line has been
    read, and the download step runs for candidate [sel].  If it returns a
    non-zero status, or the list has exactly one candidate, the loop ends
    with that status; otherwise the loop is entered again with [sel = 0],
    that is, at the prompt. *)
Theorem ask_loop_valid_choice fuel o filepath token infos align n sel0 w
    line rest :
  (sel0 = 0 \/ always_ask o = true) ->
  w_stdin w = line :: rest ->
  valid_choice n line = true ->
  let sel := to_int (strtol line).1 in
  let asked :=
    set_stdin rest (emit (Prompt n) (emit (Table infos align) w)) in
  1 <= sel <= n /\
  ask_loop (S fuel) o filepath token infos align n sel0 w =
    match fetch fuel o filepath token infos sel asked with
    | Done (r, w') =>
        if negb (r =? 0) || (n =? 1) then Done (inl r, w')
        else ask_loop fuel o filepath token infos align n 0 w'
    | Crash => Crash
    | OutOfFuel => OutOfFuel
    end.
Proof.
  intros Hloop Hin Hv sel asked.
  split; [exact (valid_choice_range n line Hv)|].
  cbn [ask_loop].
  replace ((sel0 =? 0) || always_ask o) with true.
  2:{ destruct Hloop as [->| ->]; [done|by rewrite orb_true_r]. }
  unfold select_1_out_of. cbn [emit w_stdin]. rewrite Hin, read_choice_valid by done.
  cbn [replicate foldr]. fold sel.
  replace (sel <=? 0) with false
    by (pose proof (valid_choice_range n line Hv); unfold sel; zbool).
  reflexivity.
Qed.
End Selection.


(** ** Download and decode *)

Section Download.
Context `{Zlib} `{XmlRpc}.
Implicit Types (w : world) (o : options).

Lemma file_exists_Some path w old :
  w_files w !! path = Some old -> file_exists path w = true.
Proof. intros Hold. unfold file_exists. apply bool_decide_eq_true. eauto. Qed.

Lemma log_info_server o m w : w_server (log_info o m w) = w_server w.
Proof. unfold log_info. by destruct (2 <=? quiet o). Qed.

Lemma log_info_files o m w : w_files (log_info o m w) = w_files w.
Proof. unfold log_info. by destruct (2 <=? quiet o). Qed.

Lemma log_info_denied o m w : w_denied (log_info o m w) = w_denied w.
Proof. unfold log_info. by destruct (2 <=? quiet o). Qed.

Lemma log_info_room o m w : w_room (log_info o m w) = w_room w.
Proof. unfold log_info. by destruct (2 <=? quiet o). Qed.

(** Truncating the output file makes the world forget what the file held. *)
Lemma truncate_forgets o m path srv w :
  set_files (<[path := []]> (w_files (set_server srv (log_info o m w))))
            (w_room (set_server srv (log_info o m w)))
            (set_server srv (log_info o m w)) =
  let w0 := set_files (<[path := []]> (w_files w)) (w_room w) w in
  set_files (<[path := []]> (w_files (set_server srv (log_info o m w0))))
            (w_room (set_server srv (log_info o m w0)))
            (set_server srv (log_info o m w0)).
Proof.
  unfold log_info. destruct (2 <=? quiet o); cbn; by rewrite insert_insert_eq.
Qed.

(** C2.  Whenever a round of the outer loop decodes no byte from the next
    chunk of the payload, the loop is left and the status is 0, whatever
    the decompressor has returned so far; nothing more is written. *)
Theorem decode_loop_exhausted fuel path buf strm b64_state b64_save b64_offset w :
  (g_base64_decode_step
     (buf_read buf (Z.to_nat b64_offset) (Z.to_nat ZLIB_CHUNK))
     b64_state b64_save).1.1 = [] ->
  decode_loop (S fuel) path buf strm b64_state b64_save b64_offset w
    = Done (0, w).
Proof.
  intros Hnone. cbn [decode_loop].
  destruct (g_base64_decode_step _ _ _) as [[z_in st] sv].
  cbn [fst] in Hnone. subst z_in. reflexivity.
Qed.

End Download.

(** A payload that stops before the decompressor has seen the end of its
    stream: the first round decodes and writes ["AB"], the second round
    decodes nothing, and the download returns 0. *)
Lemma truncated_payload_succeeds :
  summary (@sub_download toy_zlib (scripted (serving [] truncated_payload)) 10
             (with_force false) "token" 8 "/a/y.srt"
             (start (serving [] truncated_payload) [] []))
  = Some (0, [("/a/y.srt", [x41; x42])], []).
Proof. vm_compute. reflexivity. Qed.

Lemma decode_loop_exhausted_example :
  (g_base64_decode_step
     (buf_read (zero_padded "") (Z.to_nat 0) (Z.to_nat ZLIB_CHUNK)) 0 0).1.1 = [] /\
  @decode_loop toy_zlib (scripted (serving [] "")) 1 "/a/y.srt"
     (zero_padded "") ToyTag 0 0 0 (start (serving [] "") [] [])
    = Done (0, start (serving [] "") [] []).
Proof.
  assert (Hnone : (g_base64_decode_step
     (buf_read (zero_padded "") (Z.to_nat 0) (Z.to_nat ZLIB_CHUNK)) 0 0).1.1 = []).
  { vm_compute. reflexivity. }
  split; [exact Hnone|].
  exact (@decode_loop_exhausted toy_zlib (scripted (serving [] "")) 0 "/a/y.srt"
           (zero_padded "") ToyTag 0 0 0 (start (serving [] "") [] []) Hnone).
Defined.


(** ** The run over the input files *)

Section Run.
Context `{Zlib} `{XmlRpc}.
Implicit Types (w : world) (o : options).



(** One round of the loop of [main]. *)
Lemma process_files_cons fuel o token filepath rest r0 w :
  process_files fuel o token (filepath :: rest) r0 w =
    match process_file fuel o filepath token w with
    | Done (r, w') =>
        if negb (r =? 0) && exit_on_fail o then Done (r, w')
        else process_files fuel o token rest r w'
    | Crash => Crash
    | OutOfFuel => OutOfFuel
    end.
Proof. reflexivity. Qed.

(** A search that delivers candidates hands the file to the selector. *)
Lemma process_file_results fuel o token filepath w hash size results srv :
  hash_of_input o filepath w = Some (hash, size) ->
  rpc_search (w_server w) token
             (search_query_of o hash size (base_name filepath))
    = (SearchData results, srv) ->
  results <> [] ->
  process_file fuel o filepath token w =
    download_chosen_results fuel o filepath token results
      (set_server srv (log_info o (Searching (base_name filepath)) w)).
Proof.
  intros Hhash Hsearch Hne. unfold process_file. rewrite Hhash.
  assert (Hsrv : w_server (log_info o (Searching (base_name filepath)) w)
                 = w_server w).
  { unfold log_info. by destruct (2 <=? quiet o). }
  rewrite Hsrv, Hsearch. by destruct results.
Qed.

Lemma ask_loop_enter fuel o filepath token infos align n sel w :
  sel = 0 \/ always_ask o = true ->
  ask_loop (S fuel) o filepath token infos align n sel w =
    let w := emit (Table infos align) w in
    let '(sel, w) := select_1_out_of n w in
    if sel <=? 0 then Done (inl (- sel), w)
    else
      match fetch fuel o filepath token infos sel w with
      | Done (r, w) =>
          if negb (r =? 0) || (n =? 1) then Done (inl r, w)
          else ask_loop fuel o filepath token infos align n 0 w
      | Crash => Crash
      | OutOfFuel => OutOfFuel
      end.
Proof.
  intros Hloop. cbn [ask_loop].
  replace ((sel =? 0) || always_ask o) with true; [done|].
  destruct Hloop as [-> | ->]; [done|by rewrite orb_true_r].
Qed.




(** C4.  With [exit_on_fail] set, the loop of [main] stops at the first file
    whose status is not 0 and returns that status: when the files before
    [filepath] have all returned 0 and [filepath] returns [r <> 0], the run
    returns [r], whatever files come after.  With [exit_on_fail] cleared
    every file is processed and the status returned is that of the last
    file, whatever the files before it returned. *)
Theorem process_files_status fuel o token :
  (exit_on_fail o = true ->
   forall before filepath after w w1 r w',
     process_files fuel o token before 0 w = Done (0, w1) ->
     process_file fuel o filepath token w1 = Done (r, w') ->
     r <> 0 ->
     process_files fuel o token (before ++ filepath :: after) 0 w
       = Done (r, w')) /\
  (exit_on_fail o = false ->
   forall files filepath r0 w,
     process_files fuel o token (files ++ [filepath]) r0 w =
       match process_files fuel o token files r0 w with
       | Done (_, w') => process_file fuel o filepath token w'
       | Crash => Crash
       | OutOfFuel => OutOfFuel
       end).
Proof.
  split; intros Hexit.
  - induction before as [|f before IH]; intros filepath after w w1 r w' Hpre Hfile Hr.
    + cbn in Hpre. injection Hpre as <-.
      cbn [app]. rewrite process_files_cons, Hfile, Hexit, andb_true_r.
      by destruct (Z.eqb_spec r 0).
    + cbn [app]. rewrite process_files_cons in Hpre |- *.
      destruct (process_file fuel o f token w) as [[rf wf]| |]; [|done..].
      rewrite Hexit, andb_true_r in Hpre |- *.
      destruct (Z.eqb_spec rf 0) as [->|Hrf]; cbn [negb] in Hpre |- *.
      * by apply (IH filepath after wf w1).
      * injection Hpre as -> _. done.
  - induction files as [|f files IH]; intros filepath r0 w.
    + cbn [app]. rewrite process_files_cons. cbn [process_files].
      destruct (process_file fuel o filepath token w) as [[r w']| |]; [|done..].
      by rewrite Hexit, andb_false_r.
    + cbn [app]. rewrite !process_files_cons.
      destruct (process_file fuel o f token w) as [[r w']| |]; [|done..].
      rewrite Hexit, andb_false_r. apply IH.
Qed.

End Run.


(** ** Base64: decoding what was encoded *)

Local Abbreviation enc z := (String.list_ascii_of_string (base64_encode z)).

Lemma byte_val_range b : 0 <= byte_val b < 256.
Proof.
  unfold byte_val. pose proof (Byte.to_N_bounded b). lia.
Qed.

Lemma byte_of_Z_val b z : z mod 256 = byte_val b -> byte_of_Z z = b.
Proof.
  intros Hz. unfold byte_of_Z. rewrite Hz. unfold byte_val.
  rewrite N2Z.id, Byte.of_to_N. reflexivity.
Qed.

Lemma N_of_alphabet k :
  0 <= k < 64 ->
  Z.of_N (N_of_ascii (b64_alphabet k)) =
    if k <? 26 then k + 65
    else if k <? 52 then k + 71
    else if k <? 62 then k - 4
    else if k =? 62 then 43 else 47.
Proof.
  intros Hk. unfold b64_alphabet.
  set (m := if k <? 26 then _ else _).
  assert (Hm : 0 <= m < 256).
  { unfold m. repeat case_match; lia. }
  rewrite N_ascii_embedding by lia. lia.
Qed.

Lemma rank_alphabet k : 0 <= k < 64 -> mime_base64_rank (b64_alphabet k) = k.
Proof.
  intros Hk. unfold mime_base64_rank. rewrite N_of_alphabet by done.
  repeat case_match; lia.
Qed.

Lemma alphabet_not_pad k : 0 <= k < 64 -> is_pad (b64_alphabet k) = false.
Proof.
  intros Hk. unfold is_pad. apply Ascii.eqb_neq. intros Heq.
  pose proof (N_of_alphabet k Hk) as Hn. rewrite Heq in Hn.
  change (Z.of_N (N_of_ascii "=")) with 61 in Hn.
  repeat case_match; lia.
Qed.

Lemma rank_pad : mime_base64_rank "=" = 0.
Proof. reflexivity. Qed.

(** The accumulator step [v = (v << 6) | rank] in arithmetic. *)
Lemma lor_shiftl_6 v r : 0 <= r < 64 -> Z.lor (Z.shiftl v 6) r = v * 64 + r.
Proof.
  intros Hr. rewrite Z.shiftl_mul_pow2 by lia. change (2 ^ 6) with 64.
  rewrite <- Z.lxor_lor, <- Z.add_nocarry_lxor; [done| |].
  all: apply Z.bits_inj'; intros n Hn; rewrite Z.land_spec, Z.bits_0.
  all: destruct (Z.lt_ge_cases n 6) as [Hlt|Hge].
  all: try (replace (v * 64) with (v * 2 ^ 6) by lia;
            rewrite Z.mul_pow2_bits_low by lia; reflexivity).
  all: rewrite (Z.bits_above_log2 r n), andb_false_r; [reflexivity|lia|].
  all: destruct (Z.eq_dec r 0) as [->|]; [cbn; lia|].
  all: apply Z.log2_lt_pow2; [lia|].
  all: apply Z.lt_le_trans with (2 ^ 6); [lia|apply Z.pow_le_mono_r; lia].
Qed.

Lemma push6_spec v r : 0 <= r < 64 -> u32 (Z.lor (Z.shiftl v 6) r) = push6 v r.
Proof. intros Hr. unfold u32, push6. by rewrite lor_shiftl_6. Qed.

Lemma push6_nonneg v r : 0 <= push6 v r.
Proof. unfold push6. apply Z.mod_pos_bound. lia. Qed.

(** Four alphabet or padding characters make one round of the group. *)
Lemma b64_run_group c1 c2 c3 c4 rest v l0 l1 r1 r2 r3 r4 :
  mime_base64_rank c1 = r1 -> mime_base64_rank c2 = r2 ->
  mime_base64_rank c3 = r3 -> mime_base64_rank c4 = r4 ->
  0 <= r1 < 64 -> 0 <= r2 < 64 -> 0 <= r3 < 64 -> 0 <= r4 < 64 ->
  let v4 := push6 (push6 (push6 (push6 v r1) r2) r3) r4 in
  b64_run (c1 :: c2 :: c3 :: c4 :: rest) v 0 l0 l1 =
    ((byte_of_Z (Z.shiftr v4 16)
      :: (if is_pad c3 then [] else [byte_of_Z (Z.shiftr v4 8)])
      ++ (if is_pad c4 then [] else [byte_of_Z v4]))
     ++ (b64_run rest v4 0 c4 c3).1,
     (b64_run rest v4 0 c4 c3).2).
Proof.
  intros H1 H2 H3 H4 B1 B2 B3 B4 v4. cbn [b64_run].
  rewrite H1, H2, H3, H4.
  replace (r1 =? 255) with false by zbool.
  replace (r2 =? 255) with false by zbool.
  replace (r3 =? 255) with false by zbool.
  replace (r4 =? 255) with false by zbool.
  rewrite !push6_spec by done. cbn [Z.add Z.eqb Pos.add Pos.succ Pos.eqb].
  fold v4. by destruct (b64_run rest v4 0 c4 c3).
Qed.

(** The three bytes of a group, read back from the accumulator. *)
Lemma group_bytes v n :
  0 <= n < 2 ^ 24 ->
  let v4 := push6 (push6 (push6 (push6 v (n / 262144)) (n / 4096 mod 64))
                         (n / 64 mod 64)) (n mod 64) in
  Z.shiftr v4 16 mod 256 = n / 65536 /\
  Z.shiftr v4 8 mod 256 = n / 256 mod 256 /\
  v4 mod 256 = n mod 256.
Proof.
  intros Hn v4.
  assert (Hv4 : v4 mod 2 ^ 24 = n).
  { unfold v4, push6. change (2 ^ 24) with 16777216 in *.
    change (2 ^ 32) with 4294967296. Z.div_mod_to_equations. lia. }
  rewrite !Z.shiftr_div_pow2 by lia.
  change (2 ^ 24) with 16777216 in *. change (2 ^ 16) with 65536.
  change (2 ^ 8) with 256. Z.div_mod_to_equations. lia.
Qed.

Lemma enc_nil : enc [] = [].
Proof. reflexivity. Qed.

Lemma enc_1 a :
  enc [a] =
    [b64_alphabet (byte_val a * 65536 / 262144);
     b64_alphabet (byte_val a * 65536 / 4096 mod 64); "="%char; "="%char].
Proof. reflexivity. Qed.

Lemma enc_2 a b :
  enc [a; b] =
    [b64_alphabet ((byte_val a * 65536 + byte_val b * 256) / 262144);
     b64_alphabet ((byte_val a * 65536 + byte_val b * 256) / 4096 mod 64);
     b64_alphabet ((byte_val a * 65536 + byte_val b * 256) / 64 mod 64);
     "="%char].
Proof. reflexivity. Qed.

Lemma enc_3 a b c z :
  enc (a :: b :: c :: z) =
    b64_alphabet ((byte_val a * 65536 + byte_val b * 256 + byte_val c) / 262144)
    :: b64_alphabet ((byte_val a * 65536 + byte_val b * 256 + byte_val c) / 4096 mod 64)
    :: b64_alphabet ((byte_val a * 65536 + byte_val b * 256 + byte_val c) / 64 mod 64)
    :: b64_alphabet ((byte_val a * 65536 + byte_val b * 256 + byte_val c) mod 64)
    :: enc z.
Proof. reflexivity. Qed.

(** Induction over a list three elements at a time. *)
Lemma list_ind3 {A} (P : list A -> Prop) :
  P [] -> (forall a, P [a]) -> (forall a b, P [a; b]) ->
  (forall a b c l, P l -> P (a :: b :: c :: l)) ->
  forall l, P l.
Proof.
  intros H0 H1 H2 H3.
  assert (Hall : forall l, P l /\ (forall a, P (a :: l)) /\
                           (forall a b, P (a :: b :: l))).
  { induction l as [|x l (IHl & IHl1 & IHl2)]; [by auto|].
    split; [apply IHl1|]. split; [intros a; apply IHl2|].
    intros a b. by apply H3. }
  intros l. apply Hall.
Qed.

(** Decoding the encoding of [z], from a group boundary and with anything
    after it, yields [z] and goes on with what comes after, again at a
    group boundary. *)
Lemma b64_run_enc z : forall rest v l0 l1,
  exists v' l0' l1',
    b64_run (enc z ++ rest) v 0 l0 l1 =
      (z ++ (b64_run rest v' 0 l0' l1').1, (b64_run rest v' 0 l0' l1').2) /\
    (z = [] -> l0' = l0) /\
    (z <> [] -> (length z mod 3 = 0)%nat -> is_pad l0' = false).
Proof.
  induction z as [|a|a b|a b c z IH] using list_ind3; intros rest v l0 l1.
  - exists v, l0, l1. split; [|done]. cbn [app]. by destruct (b64_run _ _ _ _ _).
  - pose proof (byte_val_range a) as Ha.
    set (n := byte_val a * 65536).
    assert (Hn : 0 <= n < 2 ^ 24) by (unfold n; change (2 ^ 24) with 16777216; lia).
    rewrite enc_1. fold n. cbn [app].
    erewrite b64_run_group;
      [|apply rank_alphabet|apply rank_alphabet|apply rank_pad|apply rank_pad|..];
      [|Z.div_mod_to_equations; lia..].
    cbn [is_pad Ascii.eqb Bool.eqb app].
    eexists _, "="%char, _. split; [|split; [done|cbn; lia]].
    f_equal. cbn [app]. f_equal.
    apply byte_of_Z_val.
    pose proof (group_bytes v n Hn) as (Hb1 & _ & _).
    replace (n / 64 mod 64) with 0 in Hb1 by (unfold n; Z.div_mod_to_equations; lia).
    replace (n mod 64) with 0 in Hb1 by (unfold n; Z.div_mod_to_equations; lia).
    rewrite Hb1. unfold n. Z.div_mod_to_equations. lia.
  - pose proof (byte_val_range a) as Ha. pose proof (byte_val_range b) as Hb.
    set (n := byte_val a * 65536 + byte_val b * 256).
    assert (Hn : 0 <= n < 2 ^ 24) by (unfold n; change (2 ^ 24) with 16777216; lia).
    rewrite enc_2. fold n. cbn [app].
    erewrite b64_run_group;
      [|apply rank_alphabet|apply rank_alphabet|apply rank_alphabet|apply rank_pad|..];
      [|Z.div_mod_to_equations; lia..].
    rewrite alphabet_not_pad by (Z.div_mod_to_equations; lia).
    cbn [is_pad Ascii.eqb Bool.eqb app].
    eexists _, "="%char, _. split; [|split; [done|cbn; lia]].
    f_equal. cbn [app].
    pose proof (group_bytes v n Hn) as (Hb1 & Hb2 & _).
    replace (n mod 64) with 0 in Hb1, Hb2 by (unfold n; Z.div_mod_to_equations; lia).
    f_equal; [|f_equal]; apply byte_of_Z_val.
    + rewrite Hb1. unfold n. Z.div_mod_to_equations. lia.
    + rewrite Hb2. unfold n. Z.div_mod_to_equations. lia.
  - pose proof (byte_val_range a) as Ha. pose proof (byte_val_range b) as Hb.
    pose proof (byte_val_range c) as Hc.
    set (n := byte_val a * 65536 + byte_val b * 256 + byte_val c).
    assert (Hn : 0 <= n < 2 ^ 24) by (unfold n; change (2 ^ 24) with 16777216; lia).
    rewrite enc_3. fold n. cbn [app].
    erewrite b64_run_group;
      [|apply rank_alphabet|apply rank_alphabet|apply rank_alphabet
       |apply rank_alphabet|..];
      [|Z.div_mod_to_equations; lia..].
    rewrite !alphabet_not_pad by (Z.div_mod_to_equations; lia).
    cbn [app].
    pose proof (group_bytes v n Hn) as (Hb1 & Hb2 & Hb3).
    set (v4 := push6 _ _) in *.
    destruct (IH rest v4 (b64_alphabet (n mod 64)) (b64_alphabet (n / 64 mod 64)))
      as (v' & l0' & l1' & Hrun & Hnil & Hpad).
    rewrite Hrun. cbn [fst snd].
    exists v', l0', l1'. split; [|split; [done|]].
    + f_equal. f_equal; [|f_equal; [|f_equal]]; apply byte_of_Z_val.
      * rewrite Hb1. unfold n. Z.div_mod_to_equations. lia.
      * rewrite Hb2. unfold n. Z.div_mod_to_equations. lia.
      * rewrite Hb3. unfold n. Z.div_mod_to_equations. lia.
    + intros _ Hlen. destruct z as [|x z].
      * rewrite Hnil by done. apply alphabet_not_pad.
        Z.div_mod_to_equations. lia.
      * apply Hpad; [done|].
        replace (length (a :: b :: c :: x :: z))
          with (length (x :: z) + 1 * 3)%nat in Hlen by (cbn [length]; lia).
        by rewrite Nat.Div0.mod_add in Hlen.
Qed.

Lemma enc_app z1 z2 :
  (length z1 mod 3 = 0)%nat -> enc (z1 ++ z2) = enc z1 ++ enc z2.
Proof.
  induction z1 as [|a|a b|a b c z1 IH] using list_ind3; intros Hlen.
  - reflexivity.
  - cbn in Hlen. lia.
  - cbn in Hlen. lia.
  - cbn [app]. rewrite !enc_3, IH; [reflexivity|].
    replace (length (a :: b :: c :: z1)) with (length z1 + 1 * 3)%nat in Hlen
      by (cbn [length]; lia).
    by rewrite Nat.Div0.mod_add in Hlen.
Qed.

Lemma enc_length z : length (enc z) = (4 * ((length z + 2) / 3))%nat.
Proof.
  induction z as [|a|a b|a b c z IH] using list_ind3; [reflexivity..|].
  rewrite enc_3. cbn [length]. rewrite IH.
  replace (S (S (S (length z))) + 2)%nat with (length z + 2 + 1 * 3)%nat by lia.
  rewrite Nat.div_add by lia. lia.
Qed.

Lemma enc_length_3 z m : length z = (3 * m)%nat -> length (enc z) = (4 * m)%nat.
Proof.
  intros Hz. rewrite enc_length, Hz.
  replace (3 * m + 2)%nat with (2 + m * 3)%nat by lia.
  rewrite Nat.div_add by lia. cbn. lia.
Qed.

Lemma enc_length_le z m :
  (length z <= 3 * m)%nat -> (length (enc z) <= 4 * m)%nat.
Proof.
  intros Hz. rewrite enc_length.
  assert ((length z + 2) / 3 <= m)%nat; [|lia].
  transitivity ((2 + m * 3) / 3)%nat.
  - apply Nat.Div0.div_le_mono. lia.
  - rewrite Nat.div_add by lia. cbn. lia.
Qed.

Lemma enc_length_ge z m :
  (3 * m <= length z)%nat -> (4 * m <= length (enc z))%nat.
Proof.
  intros Hz. rewrite enc_length.
  assert (m <= (length z + 2) / 3)%nat; [|lia].
  apply Nat.div_le_lower_bound; lia.
Qed.

Lemma length_list_ascii_of_string s :
  length (String.list_ascii_of_string s) = String.length s.
Proof. induction s as [|a s IH]; cbn; [done|by rewrite IH]. Qed.

(** *** One round of decoding *)

(** With [state = 0] on entry the step is the run from a group boundary. *)
Lemma decode_step_0 input save :
  g_base64_decode_step input 0 save =
    let '(out, (v, i, last0)) := b64_run input save 0 Ascii.zero Ascii.zero in
    (out, if is_pad last0 then - i else i, v).
Proof. destruct input; reflexivity. Qed.

(** A chunk that lies inside the payload: [4 * q] characters that encode
    [3 * q] bytes. *)
Lemma buf_read_inner z1 z2a z2b beyond (m q : nat) :
  length z1 = (3 * m)%nat -> length z2a = (3 * q)%nat ->
  buf_read (mkBuffer (base64_encode (z1 ++ z2a ++ z2b)) beyond) (4 * m) (4 * q)
    = enc z2a.
Proof.
  intros H1 H2. unfold buf_read. cbn [buf_str].
  rewrite !enc_app by (rewrite ?H1, ?H2, Nat.mul_comm; apply Nat.Div0.mod_mul).
  rewrite <- !(assoc_L (++)).
  rewrite drop_app_length' by (symmetry; by apply enc_length_3).
  rewrite take_app_length' by (symmetry; by apply enc_length_3).
  rewrite (enc_length_3 z2a q H2), Nat.sub_diag. cbn. apply app_nil_r.
Qed.

(** A chunk that holds the rest of the payload, and then the terminator
    and whatever follows it. *)
Lemma buf_read_last z1 z2 beyond (m q : nat) :
  length z1 = (3 * m)%nat -> (length z2 <= 3 * q)%nat ->
  exists rest,
    buf_read (mkBuffer (base64_encode (z1 ++ z2)) beyond) (4 * m) (4 * q)
      = enc z2 ++ rest.
Proof.
  intros H1 H2. unfold buf_read. cbn [buf_str].
  rewrite enc_app by (rewrite H1, Nat.mul_comm; apply Nat.Div0.mod_mul).
  rewrite <- !(assoc_L (++)).
  rewrite drop_app_length' by (symmetry; by apply enc_length_3).
  rewrite take_app_ge by (by apply enc_length_le).
  rewrite <- (assoc_L (++)). eauto.
Qed.

Lemma decode_round_inner z1 z2a z2b beyond (m q : nat) save :
  length z1 = (3 * m)%nat -> length z2a = (3 * q)%nat -> q <> O ->
  exists save',
    g_base64_decode_step
      (buf_read (mkBuffer (base64_encode (z1 ++ z2a ++ z2b)) beyond)
                (4 * m) (4 * q)) 0 save
    = (z2a, 0, save').
Proof.
  intros H1 H2 Hq. rewrite (buf_read_inner _ _ _ _ m q) by done.
  rewrite decode_step_0.
  destruct (b64_run_enc z2a [] save Ascii.zero Ascii.zero)
    as (v' & l0' & l1' & Hrun & _ & Hpad).
  rewrite app_nil_r in Hrun. rewrite Hrun. cbn [b64_run fst snd].
  rewrite app_nil_r, Hpad; [by eexists| |].
  - intros ->. cbn in H2. lia.
  - rewrite H2, Nat.mul_comm. apply Nat.Div0.mod_mul.
Qed.

Lemma decode_round_last z1 z2 beyond (m q : nat) save :
  length z1 = (3 * m)%nat -> (length z2 <= 3 * q)%nat ->
  exists g st save',
    g_base64_decode_step
      (buf_read (mkBuffer (base64_encode (z1 ++ z2)) beyond) (4 * m) (4 * q))
      0 save
    = (z2 ++ g, st, save').
Proof.
  intros H1 H2.
  destruct (buf_read_last z1 z2 beyond m q H1 H2) as [rest ->].
  rewrite decode_step_0.
  destruct (b64_run_enc z2 rest save Ascii.zero Ascii.zero)
    as (v' & l0' & l1' & Hrun & _ & _).
  rewrite Hrun.
  destruct (b64_run rest v' 0 l0' l1') as [out [[v i] last0]]. cbn [fst snd].
  by eexists _, _, _.
Qed.


(** ** The decode loop on a compressed, encoded plain text *)

(** The last block boundary at or before a position of the stream. *)
Lemma block_floor_le (a : Z) : a / stream_buffer * stream_buffer <= a.
Proof. rewrite Z.mul_comm. apply Z.mul_div_le. done. Qed.

Lemma block_floor_mono (a b : Z) :
  a <= b -> a / stream_buffer * stream_buffer <= b / stream_buffer * stream_buffer.
Proof.
  intros Hab. apply Z.mul_le_mono_nonneg_r; [done|].
  apply Z.div_le_mono; done.
Qed.

Lemma prefix_drop_length (p : list byte) (o : nat) (out : list byte) :
  (o <= length p)%nat -> out `prefix_of` drop o p ->
  (o + length out <= length p)%nat.
Proof.
  intros Ho Hout. apply prefix_length in Hout. rewrite length_drop in Hout. lia.
Qed.

(** A write that the stream accepts: the bytes that [inflate] has delivered
    from offset [o] of [p] on, when the blocks up to their end fit. *)
Lemma fwrite_written `{XmlRpc} path (old p : list byte) (o : nat)
    (out : list byte) (w0 : world) :
  (o <= length p)%nat ->
  out `prefix_of` drop o p ->
  (Z.of_nat (length old) + Z.of_nat (o + length out))
    / stream_buffer * stream_buffer
    <= Z.of_nat (length old) + w_room w0 ->
  fwrite path out (written path old p o w0)
    = (Z.of_nat (length out), written path old p (o + length out) w0).
Proof.
  intros Ho Hout Hblocks.
  assert (Hout' : out = take (length out) (drop o p)).
  { destruct Hout as [k ->]. by rewrite take_app_length. }
  unfold fwrite, written. cbn [w_room w_files set_files].
  rewrite lookup_insert_eq.
  assert (Hfits :
    ((Z.of_nat (length (old ++ take o p)) + Z.of_nat (length out))
       / stream_buffer * stream_buffer
     <=? Z.of_nat (length (old ++ take o p)) + (w_room w0 - Z.of_nat o)) = true).
  { apply Z.leb_le. rewrite length_app, length_take.
    replace (o `min` length p)%nat with o by lia.
    replace (Z.of_nat (length old + o) + Z.of_nat (length out))
      with (Z.of_nat (length old) + Z.of_nat (o + length out)) by lia.
    lia. }
  rewrite Hfits, orb_true_r, alter_insert_eq.
  f_equal. unfold set_files. cbn. f_equal.
  - rewrite <- (assoc_L (++)). rewrite Hout' at 1. by rewrite take_take_drop.
  - lia.
Qed.

Section Roundtrip.
Context `{Zlib} `{XmlRpc}.
Variable gzip : list byte -> list byte.
Variable tracks : z_stream -> list byte -> nat -> nat -> Prop.
Hypothesis zlib_ok : inflates gzip tracks.

Variable p : list byte.
Variable path : string.
Variable old : list byte.
Variable w0 : world.
(** Every full block of the stream fits the file system; the bytes after
    the last block boundary need not. *)
Hypothesis blocks_ok :
  (Z.of_nat (length old) + Z.of_nat (length p)) / stream_buffer * stream_buffer
    <= Z.of_nat (length old) + w_room w0.

Local Abbreviation sink o := (written path old p o w0).

Lemma fwrite_sink (o : nat) (out : list byte) :
  (o <= length p)%nat ->
  out `prefix_of` drop o p ->
  fwrite path out (sink o) = (Z.of_nat (length out), sink (o + length out)).
Proof.
  intros Ho Hout.
  pose proof (prefix_drop_length p o out Ho Hout) as Hlen.
  apply fwrite_written; [done..|].
  etrans; [|exact blocks_ok]. apply block_floor_mono. lia.
Qed.

Lemma inflate_loop_S fuel strm input w :
  inflate_loop (S fuel) path strm input w =
    let '(strm', consumed, out, ret) := inflate strm input ZLIB_CHUNK in
    let z_ret := if ret =? Z_NEED_DICT then Z_DATA_ERROR else ret in
    if (z_ret =? Z_DATA_ERROR) || (z_ret =? Z_MEM_ERROR)
    then Done (Finish z_ret, log_err (ZlibError z_ret) w)
    else
      let have := Z.of_nat (length out) in
      let '(written, w') := fwrite path out w in
      if negb (written =? have) then Done (Finish ENOSPC, log_err WriteFailed w')
      else if have =? ZLIB_CHUNK
           then inflate_loop fuel path strm' (drop consumed input) w'
           else Done (Fallthrough z_ret strm', w').
Proof. reflexivity. Qed.

(** One call of [inflate] on a stream that follows the compressed text,
    and the round of the inner loop around it. *)
Lemma inflate_round s i o input junk :
  tracks s p i o ->
  input `prefix_of` (drop i (gzip p) ++ junk) ->
  (o <= length p)%nat ->
  exists s1 c1 (out : list byte) ret,
    (c1 <= length input)%nat /\
    (i + c1 <= length (gzip p))%nat /\
    (o + length out <= length p)%nat /\
    tracks s1 p (i + c1) (o + length out) /\
    (if decide (i + c1 = length (gzip p))%nat
     then ret = Z_STREAM_END /\ (o + length out)%nat = length p
     else ret <> Z_STREAM_END /\
          (c1 = length input \/ Z.of_nat (length out) = ZLIB_CHUNK)) /\
    forall fuel,
      inflate_loop (S fuel) path s input (sink o) =
        if Z.of_nat (length out) =? ZLIB_CHUNK
        then inflate_loop fuel path s1 (drop c1 input) (sink (o + length out))
        else Done (Fallthrough ret s1, sink (o + length out)).
Proof.
  intros Htr Hpre Ho.
  pose proof (inflate_step _ _ zlib_ok s p i o input junk ZLIB_CHUNK Htr
                ltac:(done) Hpre) as Hstep.
  destruct (inflate s input ZLIB_CHUNK) as [[[s1 c1] out] ret] eqn:Einf.
  destruct Hstep as (Hc1 & Hi1 & Hout & Hroom & Htr1 & Hend).
  pose proof (prefix_drop_length p o out Ho Hout) as Hlen.
  assert (Hret : ret = Z_STREAM_END \/ ret = Z_OK \/ ret = Z_BUF_ERROR).
  { destruct (decide _); [left; apply Hend|right; apply Hend]. }
  exists s1, c1, out, ret. repeat split; try done.
  - destruct (decide _) as [Hat|Hnot]; [done|].
    destruct Hend as [[-> | ->] Hstop]; done.
  - intros fuel. rewrite inflate_loop_S, Einf, (fwrite_sink o out Ho Hout).
    destruct Hret as [-> | [-> | ->]]; cbn [Z.eqb orb];
      by rewrite Z.eqb_refl.
Qed.

(** The inner loop, once the stream follows the compressed text: it ends
    by its condition, everything it was given has gone to the file, and
    either the stream is at its end and all of [p] is written, or the
    whole input was taken and the compressed text goes on. *)
Lemma inflate_loop_follows (n : nat) : forall s i o input junk,
  tracks s p i o ->
  input `prefix_of` (drop i (gzip p) ++ junk) ->
  (o <= length p)%nat ->
  (length p - o <= n)%nat ->
  exists fuel0 s' c o' ret,
    (forall fuel, (fuel0 <= fuel)%nat ->
       inflate_loop fuel path s input (sink o)
         = Done (Fallthrough ret s', sink o')) /\
    tracks s' p (i + c) o' /\
    (c <= length input)%nat /\
    (o' <= length p)%nat /\
    ((ret = Z_STREAM_END /\ o' = length p) \/
     (ret <> Z_STREAM_END /\ (i + c < length (gzip p))%nat /\ c = length input)).
Proof.
  induction n as [|n IH]; intros s i o input junk Htr Hpre Ho Hn.
  all: destruct (inflate_round s i o input junk Htr Hpre Ho)
         as (s1 & c1 & out & ret & Hc1 & Hi1 & Hlen & Htr1 & Hend & Hrun).
  all: destruct (Z.eqb_spec (Z.of_nat (length out)) ZLIB_CHUNK) as [Hfull|Hpart].
  (* n = 0, buffer full: impossible, nothing of [p] is left *)
  - unfold ZLIB_CHUNK in Hfull. lia.
  (* n = 0, the loop ends *)
  - exists 1%nat, s1, c1, (o + length out)%nat, ret.
    split; [|split; [done|split; [done|split; [done|]]]].
    { intros [|fuel] Hfuel; [lia|]. rewrite Hrun.
      by destruct (Z.eqb_spec (Z.of_nat (length out)) ZLIB_CHUNK). }
    destruct (decide _) as [Hat|Hnot]; [by left|right].
    destruct Hend as [Hr [Hall|Hfull]]; [|done]. split; [done|]. lia.
  (* buffer full: one more round *)
  - assert (Hpre1 : drop c1 input `prefix_of` (drop (i + c1) (gzip p) ++ junk)).
    { destruct Hpre as [k Hk].
      exists k. rewrite <- drop_drop, <- drop_app_le by (rewrite length_drop; lia).
      rewrite Hk, drop_app_le by lia. done. }
    destruct (IH s1 (i + c1)%nat (o + length out)%nat (drop c1 input) junk
                Htr1 Hpre1 Hlen)
      as (fuel0 & s' & c & o' & ret' & Hloop & Htr' & Hc & Ho' & Hfin).
    { unfold ZLIB_CHUNK in Hfull. lia. }
    rewrite length_drop in Hc, Hfin.
    exists (S fuel0), s', (c1 + c)%nat, o', ret'.
    split; [|split; [by rewrite Nat.add_assoc|split; [lia|split; [done|]]]].
    { intros [|fuel] Hfuel; [lia|]. rewrite Hrun.
      destruct (Z.eqb_spec (Z.of_nat (length out)) ZLIB_CHUNK); [|done].
      apply Hloop. lia. }
    destruct Hfin as [Hfin|(Hr & Hlt & Hall)]; [by left|right].
    split; [done|]. lia.
  (* the loop ends *)
  - exists 1%nat, s1, c1, (o + length out)%nat, ret.
    split; [|split; [done|split; [done|split; [done|]]]].
    { intros [|fuel] Hfuel; [lia|]. rewrite Hrun.
      by destruct (Z.eqb_spec (Z.of_nat (length out)) ZLIB_CHUNK). }
    destruct (decide _) as [Hat|Hnot]; [by left|right].
    destruct Hend as [Hr [Hall|Hfull]]; [|done]. split; [done|]. lia.
Qed.

Variable beyond : nat -> ascii.
Hypothesis length_ok :
  Z.of_nat (String.length (base64_encode (gzip p))) < 2 ^ 32.

Local Abbreviation payload := (mkBuffer (base64_encode (gzip p)) beyond).

(** A quarter of [ZLIB_CHUNK]: one round takes [4 * chunk4] characters,
    which hold [3 * chunk4] bytes. *)
Local Abbreviation chunk4 := (Z.to_nat 16384).

Lemma ZLIB_CHUNK_chars : Z.to_nat ZLIB_CHUNK = (4 * chunk4)%nat.
Proof. unfold ZLIB_CHUNK. lia. Qed.

Lemma decode_loop_S fuel strm b64_state b64_save b64_offset w :
  decode_loop (S fuel) path payload strm b64_state b64_save b64_offset w =
    let '(z_in, b64_state', b64_save') :=
      g_base64_decode_step
        (buf_read payload (Z.to_nat b64_offset) (Z.to_nat ZLIB_CHUNK))
        b64_state b64_save in
    let avail_in := Z.of_nat (length z_in) in
    let b64_offset' := u32 (b64_offset + u32 (avail_in * 4) / 3) in
    if avail_in =? 0 then Done (0, w)
    else
      match inflate_loop fuel path strm z_in w with
      | Done (Finish r, w') => Done (r, w')
      | Done (Fallthrough z_ret strm', w') =>
          if z_ret =? Z_STREAM_END then Done (0, w')
          else decode_loop fuel path payload strm'
                           b64_state' b64_save' b64_offset' w'
      | Crash => Crash
      | OutOfFuel => OutOfFuel
      end.
Proof. reflexivity. Qed.

(** The outer loop at the start of round [k], the stream having followed
    the compressed text so far: it ends with status 0 and all of [p] in
    the file. *)
Lemma decode_loop_follows (n : nat) : forall (k : nat) s o save,
  tracks s p (3 * (chunk4 * k)) o ->
  (3 * (chunk4 * k) < length (gzip p))%nat ->
  (o <= length p)%nat ->
  (length (gzip p) - 3 * (chunk4 * k) <= n)%nat ->
  exists fuel0, forall fuel, (fuel0 <= fuel)%nat ->
    decode_loop fuel path payload s 0 save (Z.of_nat (4 * (chunk4 * k)))
                (sink o)
      = Done (0, sink (length p)).
Proof.
  induction n as [|n IH]; intros k s o save Htr Hk Ho Hn; [lia|].
  set (i := (3 * (chunk4 * k))%nat) in *.
  assert (Hz : (gzip p) = take i (gzip p) ++ drop i (gzip p)) by (by rewrite take_drop).
  assert (Hz1 : length (take i (gzip p)) = (3 * (chunk4 * k))%nat)
    by (rewrite length_take; unfold i; lia).
  destruct (decide (length (drop i (gzip p)) <= 3 * chunk4)%nat) as [Hlast|Hinner].
  - (* the rest of the payload lies in this chunk *)
    destruct (decode_round_last (take i (gzip p)) (drop i (gzip p)) beyond (chunk4 * k)
                chunk4 save Hz1 Hlast) as (g & st & save' & Hdec).
    rewrite <- Hz in Hdec.
    destruct (inflate_loop_follows (length p) s i o (drop i (gzip p) ++ g) g Htr
                ltac:(done) Ho ltac:(lia))
      as (fuel0 & s' & c & o' & ret & Hloop & Htr' & Hc & Ho' & Hfin).
    exists (S fuel0). intros [|fuel] Hfuel; [lia|].
    rewrite decode_loop_S, Nat2Z.id, ZLIB_CHUNK_chars, Hdec. cbv zeta.
    assert (Hin : length (drop i (gzip p) ++ g) <> O).
    { rewrite length_app, length_drop. lia. }
    destruct (Z.eqb_spec (Z.of_nat (length (drop i (gzip p) ++ g))) 0) as [|_]; [lia|].
    rewrite Hloop by lia.
    destruct Hfin as [[-> ->]|(Hr & Hlt & Hall)]; [done|].
    rewrite length_app, length_drop in Hall. lia.
  - (* a full chunk inside the payload *)
    set (z2 := drop i (gzip p)) in *.
    assert (Hz2 : z2 = take (3 * chunk4) z2 ++ drop (3 * chunk4) z2)
      by (by rewrite take_drop).
    assert (Hz2a : length (take (3 * chunk4) z2) = (3 * chunk4)%nat)
      by (rewrite length_take; lia).
    destruct (decode_round_inner (take i (gzip p)) (take (3 * chunk4) z2)
                (drop (3 * chunk4) z2) beyond (chunk4 * k) chunk4 save
                Hz1 Hz2a ltac:(lia)) as (save' & Hdec).
    rewrite <- Hz2, <- Hz in Hdec.
    destruct (inflate_loop_follows (length p) s i o (take (3 * chunk4) z2) []
                Htr) as (fuel0 & s' & c & o' & ret & Hloop & Htr' & Hc & Ho' & Hfin);
      [apply prefix_app_r, prefix_take|done|lia|].
    destruct Hfin as [[-> ->]|(Hr & Hlt & Hall)].
    + exists (S fuel0). intros [|fuel] Hfuel; [lia|].
      rewrite decode_loop_S, Nat2Z.id, ZLIB_CHUNK_chars, Hdec, Hz2a. cbv zeta.
      destruct (Z.eqb_spec (Z.of_nat (3 * chunk4)) 0) as [|_]; [lia|].
      by rewrite Hloop by lia.
    + rewrite Hz2a in Hall. subst c.
      replace (i + 3 * chunk4)%nat with (3 * (chunk4 * S k))%nat in Htr', Hlt
        by (unfold i; lia).
      destruct (IH (S k) s' o' save' Htr' Hlt Ho' ltac:(unfold i in Hn; lia))
        as [fuel1 Hrest].
      exists (S (fuel0 `max` fuel1)). intros [|fuel] Hfuel; [lia|].
      rewrite decode_loop_S, Nat2Z.id, ZLIB_CHUNK_chars, Hdec, Hz2a. cbv zeta.
      destruct (Z.eqb_spec (Z.of_nat (3 * chunk4)) 0) as [|_]; [lia|].
      rewrite Hloop by lia.
      destruct (Z.eqb_spec ret Z_STREAM_END) as [|_]; [done|].
      assert (Hoff : u32 (Z.of_nat (4 * (chunk4 * k))
                          + u32 (Z.of_nat (3 * chunk4) * 4) / 3)
                     = Z.of_nat (4 * (chunk4 * S k))).
      { pose proof (enc_length_ge (gzip p) (chunk4 * S k) ltac:(lia)) as Hge.
        rewrite length_list_ascii_of_string in Hge.
        replace (Z.of_nat (3 * chunk4) * 4) with 196608 by lia.
        change (u32 196608 / 3) with 65536.
        unfold u32. rewrite Z.mod_small; lia. }
      rewrite Hoff. apply Hrest. lia.
Qed.

(** From the first round on. *)
Lemma decode_loop_from_start :
  exists fuel0, forall fuel, (fuel0 <= fuel)%nat ->
    decode_loop fuel path payload (inflateInit2 (16 + MAX_WBITS)).2 0 0 0
                (sink 0)
      = Done (0, sink (length p)).
Proof.
  destruct (inflate_init _ _ zlib_ok p) as [_ Htr].
  pose proof (gzip_nonempty _ _ zlib_ok p) as Hne.
  destruct (decode_loop_follows (length (gzip p)) 0
              (inflateInit2 (16 + MAX_WBITS)).2 0 0) as [fuel0 Hloop].
  - by rewrite Nat.mul_0_r.
  - rewrite Nat.mul_0_r. destruct (gzip p); [done|cbn; lia].
  - lia.
  - lia.
  - exists fuel0. intros fuel Hfuel. specialize (Hloop fuel Hfuel).
    by rewrite Nat.mul_0_r in Hloop.
Qed.

End Roundtrip.

Lemma written_start `{XmlRpc} path (old p : list byte) (w : world) :
  w_files w !! path = Some old -> written path old p 0 w = w.
Proof.
  intros Hold. destruct w as [fs den room inp srv out]. unfold written. cbn in *.
  unfold set_files. cbn. f_equal.
  - rewrite app_nil_r. by apply insert_id.
  - lia.
Qed.

(** C9.  For a plain text [p], a compressor whose streams zlib's [inflate]
    decompresses in the way [inflates] describes, and the base64 text of
    [gzip p] lying in memory with anything at all after its terminator:
    given fuel enough, the decode loop ends with status 0 and has appended
    exactly the bytes of [p] to the output file, however many chunks the
    text spans.  The text has to fit the [unsigned int] offset and the
    file system has to have room for [p]. *)
Theorem decode_roundtrip `{Zlib} `{XmlRpc} gzip tracks (p : list byte)
    path (old : list byte) beyond (w : world) :
  inflates gzip tracks ->
  Z.of_nat (String.length (base64_encode (gzip p))) < 2 ^ 32 ->
  Z.of_nat (length p) <= w_room w ->
  w_files w !! path = Some old ->
  exists fuel0, forall fuel, (fuel0 <= fuel)%nat ->
    decode_loop fuel path (mkBuffer (base64_encode (gzip p)) beyond)
                (inflateInit2 (16 + MAX_WBITS)).2 0 0 0 w
      = Done (0, set_files (<[path := old ++ p]> (w_files w))
                           (w_room w - Z.of_nat (length p)) w).
Proof.
  intros Hz Hlen Hroom Hold.
  assert (Hblocks :
    (Z.of_nat (length old) + Z.of_nat (length p)) / stream_buffer * stream_buffer
      <= Z.of_nat (length old) + w_room w).
  { etrans; [apply block_floor_le|lia]. }
  destruct (decode_loop_from_start gzip tracks Hz p path old w Hblocks beyond Hlen)
    as [fuel0 Hloop].
  exists fuel0. intros fuel Hfuel. specialize (Hloop fuel Hfuel).
  rewrite (written_start path old p w Hold) in Hloop. rewrite Hloop.
  unfold written. by rewrite firstn_all.
Qed.


(** ** The toy decompressor meets the zlib contract *)

Lemma toy_gzip_cons b p : toy_gzip (b :: p) = x01 :: b :: toy_gzip p.
Proof. reflexivity. Qed.

Lemma toy_gzip_length p : length (toy_gzip p) = (2 * length p + 1)%nat.
Proof.
  induction p as [|b p IH]; [reflexivity|].
  rewrite toy_gzip_cons. cbn [length]. lia.
Qed.

Lemma toy_gzip_drop (o : nat) : forall p,
  (o <= length p)%nat -> drop (2 * o) (toy_gzip p) = toy_gzip (drop o p).
Proof.
  induction o as [|o IH]; intros p Ho; [reflexivity|].
  destruct p as [|b p]; [cbn in Ho; lia|].
  replace (2 * S o)%nat with (S (S (2 * o))) by lia.
  rewrite toy_gzip_cons. cbn [drop]. apply IH. cbn in Ho. lia.
Qed.

(** A run of the toy decompressor on input that continues a toy stream:
    from a tag position with [r] left to deliver, and from a literal
    position with [b] and then [r] left. *)
Lemma toy_run_follows (input : list byte) : forall (r : list byte) room junk,
  (input `prefix_of` toy_gzip r ++ junk ->
   exists m' c out,
     toy_run ToyTag input room = (m', c, out) /\
     out `prefix_of` r /\ (length out <= room)%nat /\ (c <= length input)%nat /\
     ((m' = ToyEnd /\ c = (2 * length r + 1)%nat /\ out = r) \/
      (m' = ToyTag /\ c = (2 * length out)%nat /\ c = length input) \/
      (m' = ToyLit /\ c = (2 * length out + 1)%nat /\
       (length out < length r)%nat /\
       (c = length input \/ length out = room)))) /\
  (forall b, input `prefix_of` (b :: toy_gzip r) ++ junk ->
   exists m' c out,
     toy_run ToyLit input room = (m', c, out) /\
     out `prefix_of` (b :: r) /\ (length out <= room)%nat /\
     (c <= length input)%nat /\
     ((m' = ToyEnd /\ c = (2 * length r + 2)%nat /\ out = b :: r) \/
      (m' = ToyTag /\ (c + 1)%nat = (2 * length out)%nat /\ c = length input) \/
      (m' = ToyLit /\ c = (2 * length out)%nat /\
       (length out < length r + 1)%nat /\
       (c = length input \/ length out = room)))).
Proof.
  induction input as [|x input IH]; intros r room junk.
  { split.
    - intros _. exists ToyTag, O, []. cbn.
      repeat split; [apply prefix_nil|lia..|]. right; left. done.
    - intros b _. exists ToyLit, O, []. cbn.
      repeat split; [apply prefix_nil|lia..|]. right; right.
      repeat split; [lia|by left]. }
  split.
  - intros Hpre. destruct r as [|b r].
    + (* the end mark *)
      cbn [toy_gzip flat_map app] in Hpre.
      apply prefix_cons_inv_1 in Hpre as ->.
      exists ToyEnd, 1%nat, []. cbn.
      repeat split; [done|lia..|]. left. done.
    + (* a tag, then a literal *)
      rewrite toy_gzip_cons in Hpre. cbn [app] in Hpre.
      pose proof (prefix_cons_inv_1 _ _ _ _ Hpre) as ->.
      apply prefix_cons_inv_2 in Hpre.
      destruct (IH r room junk) as [_ IHlit].
      destruct (IHlit b Hpre) as (m' & c & out & Hrun & Hout & Hroom & Hc & Hfin).
      exists m', (S c), out. cbn [toy_run Byte.eqb]. cbn. rewrite Hrun.
      repeat split; [done|done|cbn [length]; lia|].
      cbn [length].
      destruct Hfin as [(-> & -> & ->)|[(-> & Hc2 & ->)|(-> & -> & Hlt & Hstop)]].
      * left. repeat split; lia.
      * right; left. repeat split; lia.
      * right; right. repeat split; [lia..|]. destruct Hstop; [left|right]; lia.
  - intros b Hpre. cbn [app] in Hpre.
    pose proof (prefix_cons_inv_1 _ _ _ _ Hpre) as ->.
    apply prefix_cons_inv_2 in Hpre.
    destruct room as [|room].
    + exists ToyLit, O, []. cbn.
      repeat split; [apply prefix_nil|lia..|]. right; right.
      repeat split; [lia|by right].
    + destruct (IH r room junk) as [IHtag _].
      destruct (IHtag Hpre) as (m' & c & out & Hrun & Hout & Hroom & Hc & Hfin).
      exists m', (S c), (b :: out). cbn [toy_run]. rewrite Hrun.
      repeat split; [by apply prefix_cons|cbn [length]; lia..|].
      cbn [length].
      destruct Hfin as [(-> & -> & ->)|[(-> & -> & Hall)|(-> & -> & Hlt & Hstop)]].
      * left. repeat split; lia.
      * right; left. repeat split; lia.
      * right; right. repeat split; [lia..|]. destruct Hstop; [left|right]; lia.
Qed.

(** Splits the six parts of the contract's conclusion and settles the
    arithmetic ones. *)
Ltac contract_parts :=
  refine (conj _ (conj _ (conj _ (conj _ (conj _ _)))));
  [ lia | lia | try done
  | lia | cbn [toy_tracks]; lia
  | case_decide; try lia; try (split; [done|lia]) ].

(** The return code of a call that has not reached the end mark. *)
Ltac toy_code :=
  lazymatch goal with
  | |- context [match ?n with O => _ | S _ => _ end] => destruct n; by auto
  | |- _ => by left
  end.

Lemma toy_inflates : @inflates toy_zlib toy_gzip toy_tracks.
Proof.
  split.
  - intros p. unfold toy_gzip. by destruct (flat_map _ p).
  - intros p. cbn. repeat split; lia.
  - intros m p i o input junk avail_out Htr Havail Hpre.
    cbn [inflate toy_zlib]. unfold toy_inflate.
    rewrite toy_gzip_length.
    destruct m; cbn [toy_tracks] in Htr; [| | |done].
    + (* at a tag *)
      destruct Htr as [-> Ho]. rewrite toy_gzip_drop in Hpre by done.
      destruct (toy_run_follows input (drop o p) (Z.to_nat avail_out) junk)
        as [Htag _].
      destruct (Htag Hpre) as (m' & c & out & -> & Hout & Hroom & Hc & Hfin).
      clear Htag.
      pose proof (prefix_length _ _ Hout) as Hlen.
      rewrite length_drop in Hfin, Hlen.
      destruct Hfin as [(-> & -> & ->)|[(-> & -> & Hall)|(-> & -> & Hlt & Hstop)]];
        rewrite ?length_drop in *; contract_parts.
      * split; [toy_code|by left].
      * split; [toy_code|]. destruct Hstop; [by left|right; lia].
    + (* at a literal *)
      destruct Htr as [-> Ho].
      destruct (drop o p) as [|b r] eqn:E.
      { apply (f_equal length) in E. rewrite length_drop in E. cbn in E. lia. }
      assert (Hr : length r = (length p - o - 1)%nat).
      { apply (f_equal length) in E. rewrite length_drop in E. cbn in E. lia. }
      assert (Hdrop : drop (2 * o + 1) (toy_gzip p) = b :: toy_gzip r).
      { rewrite <- drop_drop, toy_gzip_drop, E by lia. done. }
      rewrite Hdrop in Hpre.
      destruct (toy_run_follows input r (Z.to_nat avail_out) junk) as [_ Hlit].
      destruct (Hlit b Hpre) as (m' & c & out & -> & Hout & Hroom & Hc & Hfin).
      clear Hlit.
      pose proof (prefix_length _ _ Hout) as Hlen. cbn [length] in Hlen.
      destruct Hfin as [(-> & -> & ->)|[(-> & Hc2 & Hall)|(-> & -> & Hlt & Hstop)]];
        cbn [length] in *; contract_parts.
      * split; [toy_code|by left].
      * split; [toy_code|]. destruct Hstop; [by left|right; lia].
    + (* at the end *)
      destruct Htr as [-> ->].
      assert (Hrun : toy_run ToyEnd input (Z.to_nat avail_out) = (ToyEnd, O, []))
        by (by destruct input).
      rewrite Hrun. cbn [length]. contract_parts. apply prefix_nil.
Qed.

(** The toy stream of ["AB"], written to an empty file. *)
Lemma decode_roundtrip_example :
  Z.of_nat (String.length (toy_payload [x41; x42])) < 2 ^ 32 /\
  exists fuel0, forall fuel, (fuel0 <= fuel)%nat ->
    @decode_loop toy_zlib (scripted (serving [] "")) fuel "/a/y.srt"
      (zero_padded (toy_payload [x41; x42])) ToyTag 0 0 0
      (start (serving [] "") [("/a/y.srt", [])] [])
    = Done (0, set_files
                 (<["/a/y.srt" := [x41; x42]]>
                    (w_files (start (serving [] "") [("/a/y.srt", [])] [])))
                 (1000 - 2)
                 (start (serving [] "") [("/a/y.srt", [])] [])).
Proof.
  split; [reflexivity|].
  exact (@decode_roundtrip toy_zlib (scripted (serving [] "")) toy_gzip
           toy_tracks [x41; x42] "/a/y.srt" [] (fun _ => Ascii.zero)
           (start (serving [] "") [("/a/y.srt", [])] [])
           toy_inflates eq_refl ltac:(cbn; lia) eq_refl).
Defined.


(** ** A download that goes through *)

Section Overwrite.
Context `{Zlib} `{XmlRpc}.
Implicit Types (w : world) (o : options).

(** A download of the encoded, compressed text [p] whose full blocks fit
    the file system: every [fwrite] is accepted, the status is 0 and
    nothing is logged after the start; the file holds of [p] what the file
    system had room for. *)
Lemma sub_download_stream gzip tracks (p : list byte) beyond o token sub_id
    path w srv :
  inflates gzip tracks ->
  file_exists path w = false \/ force_overwrite o = true ->
  rpc_download (w_server w) token sub_id
    = (Reply (mkBuffer (base64_encode (gzip p)) beyond), srv) ->
  path ∉ w_denied w ->
  Z.of_nat (String.length (base64_encode (gzip p))) < 2 ^ 32 ->
  Z.of_nat (length p) / stream_buffer * stream_buffer <= w_room w ->
  exists fuel0, forall fuel, (fuel0 <= fuel)%nat ->
    exists w',
      sub_download fuel o token sub_id path w = Done (0, w') /\
      w_files w' = <[path := take (Z.to_nat (w_room w)) p]> (w_files w) /\
      w_room w' = Z.max 0 (w_room w - Z.of_nat (length p)) /\
      w_stdin w' = w_stdin w /\
      w_server w' = srv /\
      w_out w' = w_out (if file_exists path w then log_info o Overwriting w
                        else w).
Proof.
  intros Hz Hfree Hrpc Hden Hlen Hblocks.
  assert (Hroom0 : 0 <= w_room w).
  { etrans; [|exact Hblocks]. apply Z.mul_nonneg_nonneg; [|done].
    apply Z.div_pos; [lia|done]. }
  set (w1 := if file_exists path w then log_info o Overwriting w else w).
  assert (H1 : w_server w1 = w_server w /\ w_files w1 = w_files w /\
               w_denied w1 = w_denied w /\ w_room w1 = w_room w /\
               w_stdin w1 = w_stdin w).
  { unfold w1, log_info. by destruct (file_exists path w), (2 <=? quiet o). }
  destruct H1 as (Hs1 & Hf1 & Hd1 & Hr1 & Hi1).
  set (w3 := set_files (<[path := []]> (w_files (set_server srv w1)))
                       (w_room (set_server srv w1)) (set_server srv w1)).
  assert (Hold : w_files w3 !! path = Some []) by apply lookup_insert_eq.
  assert (Hblocks3 :
    (Z.of_nat (length (@nil byte)) + Z.of_nat (length p))
      / stream_buffer * stream_buffer
    <= Z.of_nat (length (@nil byte)) + w_room w3).
  { change (w_room w3) with (w_room w1). rewrite Hr1.
    change (Z.of_nat (length (@nil byte))) with 0. by rewrite !Z.add_0_l. }
  destruct (decode_loop_from_start gzip tracks Hz p path [] w3
              Hblocks3 beyond Hlen) as [fuel0 Hloop].
  rewrite (written_start path [] p w3 Hold) in Hloop.
  destruct (inflate_init _ _ Hz p) as [Hinit _].
  exists fuel0. intros fuel Hfuel. specialize (Hloop fuel Hfuel).
  unfold sub_download.
  replace (file_exists path w && negb (force_overwrite o)) with false.
  2:{ destruct Hfree as [-> | ->]; [done|by rewrite andb_false_r]. }
  fold w1. rewrite Hs1, Hrpc.
  rewrite bool_decide_eq_false_2 by (cbn; by rewrite Hd1).
  fold w3.
  destruct (inflateInit2 (16 + MAX_WBITS)) as [z_ret strm]. cbn [fst snd] in *.
  subst z_ret. cbn [Z.eqb Z_OK negb]. rewrite Hloop.
  eexists. split; [reflexivity|].
  unfold fclose, written, w3.
  cbn [w_room w_files w_stdin w_server w_out set_files set_server app].
  rewrite firstn_all, Hr1, Hf1.
  destruct (Z.ltb_spec (w_room w - Z.of_nat (length p)) 0) as [Hshort|Hfits];
    cbn [w_room w_files w_stdin w_server w_out set_files set_server].
  - rewrite alter_insert_eq, !insert_insert_eq.
    replace (Z.of_nat (length p) + (w_room w - Z.of_nat (length p)))
      with (w_room w) by lia.
    repeat split; try done. lia.
  - rewrite insert_insert_eq, take_ge by lia.
    repeat split; try done. lia.
Qed.

(** With room for all of [p], the output file holds exactly [p]
    afterwards. *)
Lemma sub_download_delivers gzip tracks (p : list byte) beyond o token sub_id
    path w srv :
  inflates gzip tracks ->
  file_exists path w = false \/ force_overwrite o = true ->
  rpc_download (w_server w) token sub_id
    = (Reply (mkBuffer (base64_encode (gzip p)) beyond), srv) ->
  path ∉ w_denied w ->
  Z.of_nat (String.length (base64_encode (gzip p))) < 2 ^ 32 ->
  Z.of_nat (length p) <= w_room w ->
  exists fuel0, forall fuel, (fuel0 <= fuel)%nat ->
    exists w',
      sub_download fuel o token sub_id path w = Done (0, w') /\
      w_files w' = <[path := p]> (w_files w) /\
      w_stdin w' = w_stdin w /\
      w_server w' = srv.
Proof.
  intros Hz Hfree Hrpc Hden Hlen Hroom.
  destruct (sub_download_stream gzip tracks p beyond o token sub_id path w srv
              Hz Hfree Hrpc Hden Hlen) as [fuel0 Hdl].
  { etrans; [apply block_floor_le|exact Hroom]. }
  exists fuel0. intros fuel Hfuel.
  destruct (Hdl fuel Hfuel) as (w' & Hrun & Hfiles & _ & Hin & Hsrv & _).
  exists w'. rewrite take_ge in Hfiles by lia. done.
Qed.

End Overwrite.

(** C7.  A download whose output path names an existing file.  Without
    [force_overwrite] it fails with [EEXIST] before the service is called
    and writes no bytes: the file system is as before.  With
    [force_overwrite] the prior contents are replaced: once the call has
    delivered and the file is opened, the outcome is that of the same
    download into the file emptied, so what the file held plays no part;
    and when the service delivers the base64 text of a compressed subtitle
    [p] and the file system has room for it, the status is 0 and the file
    holds exactly [p]. *)
Theorem sub_download_existing `{Zlib} `{XmlRpc} (o : options) token sub_id
    path (w : world) (old : list byte) :
  w_files w !! path = Some old ->
  (force_overwrite o = false ->
     forall fuel,
       sub_download fuel o token sub_id path w
         = Done (EEXIST, log_err AlreadyExists w) /\
       w_files (log_err AlreadyExists w) = w_files w /\
       w_room (log_err AlreadyExists w) = w_room w /\
       w_server (log_err AlreadyExists w) = w_server w) /\
  (force_overwrite o = true ->
     (forall fuel buf srv,
        rpc_download (w_server w) token sub_id = (Reply buf, srv) ->
        path ∉ w_denied w ->
        sub_download fuel o token sub_id path w
          = sub_download fuel o token sub_id path
              (set_files (<[path := []]> (w_files w)) (w_room w) w)) /\
     (forall gzip tracks (p : list byte) beyond srv,
        inflates gzip tracks ->
        rpc_download (w_server w) token sub_id
          = (Reply (mkBuffer (base64_encode (gzip p)) beyond), srv) ->
        path ∉ w_denied w ->
        Z.of_nat (String.length (base64_encode (gzip p))) < 2 ^ 32 ->
        Z.of_nat (length p) <= w_room w ->
        exists fuel0, forall fuel, (fuel0 <= fuel)%nat ->
          exists w',
            sub_download fuel o token sub_id path w = Done (0, w') /\
            w_files w' !! path = Some p /\
            w_files w' = <[path := p]> (w_files w))).
Proof.
  intros Hold. pose proof (file_exists_Some path w old Hold) as Hex.
  split; intros Hforce.
  { intros fuel. unfold sub_download. rewrite Hex, Hforce. done. }
  split.
  - intros fuel buf srv Hrpc Hden. unfold sub_download.
    assert (Hex' : file_exists path
              (set_files (<[path := []]> (w_files w)) (w_room w) w) = true).
    { apply (file_exists_Some _ _ []). cbn. apply lookup_insert_eq. }
    rewrite Hex, Hex', Hforce, !log_info_server. cbn [andb negb].
    cbn [set_files w_server]. rewrite Hrpc.
    rewrite !bool_decide_eq_false_2 by (cbn; by rewrite log_info_denied).
    rewrite (truncate_forgets o Overwriting path srv w). reflexivity.
  - intros gzip tracks p beyond srv Hz Hrpc Hden Hlen Hroom.
    destruct (sub_download_delivers gzip tracks p beyond o token sub_id path
                w srv Hz (or_intror Hforce) Hrpc Hden Hlen Hroom)
      as [fuel0 Hdl].
    exists fuel0. intros fuel Hfuel.
    destruct (Hdl fuel Hfuel) as (w' & Hrun & Hfiles & _).
    exists w'. split; [exact Hrun|]. split; [|exact Hfiles].
    rewrite Hfiles. apply lookup_insert_eq.
Qed.

(** The file holds ["old"]; the service delivers the toy stream of ["AB"]. *)
Lemma sub_download_existing_example :
  w_files (start (serving [] (toy_payload [x41; x42]))
                 [("/a/y.srt", [x6f; x6c; x64]); ("/a/z.srt", [x7a])] [])
    !! "/a/y.srt" = Some [x6f; x6c; x64] /\
  summary (@sub_download toy_zlib (scripted (serving [] (toy_payload [x41; x42])))
             10 (with_force false) "token" 8 "/a/y.srt"
             (start (serving [] (toy_payload [x41; x42]))
                    [("/a/y.srt", [x6f; x6c; x64]); ("/a/z.srt", [x7a])] []))
    = Some (EEXIST, [("/a/y.srt", [x6f; x6c; x64]); ("/a/z.srt", [x7a])],
            [Err AlreadyExists]) /\
  (exists fuel0, forall fuel, (fuel0 <= fuel)%nat ->
     exists w',
       @sub_download toy_zlib (scripted (serving [] (toy_payload [x41; x42])))
          fuel (with_force true) "token" 8 "/a/y.srt"
          (start (serving [] (toy_payload [x41; x42]))
                 [("/a/y.srt", [x6f; x6c; x64]); ("/a/z.srt", [x7a])] [])
         = Done (0, w') /\
       w_files w' !! "/a/y.srt" = Some [x41; x42] /\
       w_files w' =
         <["/a/y.srt" := [x41; x42]]>
           (w_files (start (serving [] (toy_payload [x41; x42]))
                       [("/a/y.srt", [x6f; x6c; x64]); ("/a/z.srt", [x7a])]
                       []))) /\
  summary (@sub_download toy_zlib (scripted (serving [] (toy_payload [x41; x42])))
             10 (with_force true) "token" 8 "/a/y.srt"
             (start (serving [] (toy_payload [x41; x42]))
                    [("/a/y.srt", [x6f; x6c; x64]); ("/a/z.srt", [x7a])] []))
    = Some (0, [("/a/y.srt", [x41; x42]); ("/a/z.srt", [x7a])],
            [Info Overwriting]).
Proof.
  set (sc := serving [] (toy_payload [x41; x42])).
  set (w := start sc _ _).
  assert (Hold : w_files w !! "/a/y.srt" = Some [x6f; x6c; x64])
    by (vm_compute; reflexivity).
  destruct (@sub_download_existing toy_zlib (scripted sc) (with_force false)
              "token" 8 "/a/y.srt" w [x6f; x6c; x64] Hold) as [Hkeep _].
  destruct (@sub_download_existing toy_zlib (scripted sc) (with_force true)
              "token" 8 "/a/y.srt" w [x6f; x6c; x64] Hold) as [_ Hforce].
  destruct (Hforce eq_refl) as [_ Hnew].
  split; [exact Hold|]. split; [|split].
  - destruct (Hkeep eq_refl 10%nat) as [-> _]. vm_compute. reflexivity.
  - apply (Hnew toy_gzip toy_tracks [x41; x42] (fun _ => Ascii.zero) tt
             toy_inflates eq_refl).
    + vm_compute. set_solver.
    + vm_compute. reflexivity.
    + vm_compute. congruence.
  - vm_compute. reflexivity.
Defined.


(** ** Concrete runs *)

(** Candidate 3 is the only hash match: it is downloaded, to its own file
    name, and nothing is asked. *)
Lemma select_without_prompt_example :
  always_ask default_options = false /\
  first_hash_match (parse_result <$> three_candidates) = Some 2%nat /\
  summary (@download_chosen_results toy_zlib
             (scripted (serving three_candidates (toy_payload [x41; x42])))
             10 default_options "/a/m.mkv" "token" three_candidates
             (start (serving three_candidates (toy_payload [x41; x42])) [] []))
  = Some (0, [("/a/y.srt", [x41; x42])],
          [Table (parse_result <$> three_candidates) 19;
           Info (Downloading "/a/y.srt")]).
Proof.
  split; [reflexivity|]. split; [reflexivity|].
  destruct (@select_without_prompt toy_zlib
              (scripted (serving three_candidates (toy_payload [x41; x42])))
              10 default_options "/a/m.mkv" "token" three_candidates
              (start (serving three_candidates (toy_payload [x41; x42])) [] [])
              eq_refl) as [Hk _].
  rewrite (Hk 2%nat eq_refl). vm_compute. reflexivity.
Defined.

(** Two candidates, no hash match: the user picks 2, the download succeeds,
    the prompt comes again, and the user quits. *)
Lemma ask_loop_valid_choice_example :
  valid_choice 2 (line "2") = true /\
  loop_summary (@ask_loop toy_zlib
                  (scripted (serving [by_name; by_hash] (toy_payload [x41; x42])))
                  3 default_options "/a/m.mkv" "token"
                  (parse_result <$> [by_name; by_hash]) 19 2 0
                  (start (serving [by_name; by_hash] (toy_payload [x41; x42]))
                         [] [line "2"; line "q"]))
  = Some (inl 1, [],
          [Table (parse_result <$> [by_name; by_hash]) 19; Prompt 2;
           Info (Downloading "/a/y.srt");
           Table (parse_result <$> [by_name; by_hash]) 19; Prompt 2]).
Proof.
  split; [reflexivity|].
  destruct (@ask_loop_valid_choice toy_zlib
              (scripted (serving [by_name; by_hash] (toy_payload [x41; x42])))
              2 default_options "/a/m.mkv" "token"
              (parse_result <$> [by_name; by_hash]) 19 2 0
              (start (serving [by_name; by_hash] (toy_payload [x41; x42]))
                     [] [line "2"; line "q"])
              (line "2") [line "q"] (or_introl eq_refl) eq_refl eq_refl)
    as [_ ->].
  vm_compute. reflexivity.
Defined.



(** With [exit_on_fail] cleared, a file that cannot be opened followed by a
    file that is served: the run returns 0. *)
Lemma last_file_masks_failure :
  status (@process_file toy_zlib (scripted hash_service) 10
            (with_exit_on_fail false) "/a/missing.mkv" "token"
            (start hash_service [("/a/m.mkv", one_word_file)] []))
  = Some ENOENT /\
  summary (@main toy_zlib (scripted hash_service) 10 (with_exit_on_fail false)
             ["/a/missing.mkv"; "/a/m.mkv"]
             (start hash_service [("/a/m.mkv", one_word_file)] []))
  = Some (0, [("/a/m.mkv", one_word_file); ("/a/y.srt", [x41; x42])],
          [Err (OpenFailed "/a/missing.mkv");
           Info (Searching "m.mkv");
           Table [parse_result by_hash] 19;
           Info (Downloading "/a/y.srt")]).
Proof. split; vm_compute; reflexivity. Qed.

Lemma process_files_status_example :
  exit_on_fail (with_exit_on_fail false) = false /\
  status (@process_files toy_zlib (scripted hash_service) 10
            (with_exit_on_fail false) "token"
            (["/a/missing.mkv"] ++ ["/a/m.mkv"]) 0
            (start hash_service [("/a/m.mkv", one_word_file)] []))
  = Some 0.
Proof.
  split; [reflexivity|].
  destruct (@process_files_status toy_zlib (scripted hash_service) 10
              (with_exit_on_fail false) "token") as [_ Hlast].
  rewrite (Hlast eq_refl). vm_compute. reflexivity.
Defined.


(** ** Fingerprinter: files of 64 KiB and more *)

Lemma le_words_take_S (n : nat) (l : list byte) :
  (8 * S n <= length l)%nat ->
  le_words (take (8 * S n) l) =
    le_word (take 8 l) :: le_words (take (8 * n) (drop 8 l)).
Proof.
  intros Hl. rewrite le_words_cons by (rewrite length_take; lia).
  rewrite take_take.
  replace (8 `min` (8 * S n))%nat with 8%nat by lia.
  rewrite take_drop_commute.
  replace (8 * S n)%nat with (8 + 8 * n)%nat by lia. reflexivity.
Qed.

(** One [for] loop with [n] full words ahead of the stream reads exactly
    these. *)
Lemma sum_words_exact n : forall h hash,
  0 <= f_pos h ->
  u64 hash = hash ->
  (Z.to_nat (f_pos h) + 8 * n <= length (f_data h))%nat ->
  sum_words n h hash =
    (mkFILE (f_data h) (f_pos h + 8 * Z.of_nat n),
     u64 (hash + sumZ (le_words (take (8 * n)
                                      (drop (Z.to_nat (f_pos h)) (f_data h)))))).
Proof.
  induction n as [|n IH]; intros [data pos] hash Hpos Hhash Hn;
    cbn [f_pos f_data] in *.
  { cbn [sum_words]. rewrite Nat.mul_0_r, take_0. cbn [le_words sumZ foldr].
    rewrite !Z.add_0_r, Hhash. reflexivity. }
  cbn [sum_words]. unfold fread_u64. cbn [f_pos f_data].
  set (rest := drop (Z.to_nat pos) data) in *.
  assert (Hrest : length rest = (length data - Z.to_nat pos)%nat)
    by (unfold rest; apply length_drop).
  destruct (decide (8 <= length rest)%nat) as [Hl|Hl]; [|lia].
  assert (Hdrop : drop (Z.to_nat (pos + 8)) data = drop 8 rest).
  { unfold rest. rewrite drop_drop. f_equal. lia. }
  rewrite IH; cbn [f_pos f_data]; [|lia|apply u64_idem|lia].
  rewrite Hdrop, le_words_take_S by lia.
  f_equal; [f_equal; lia|].
  cbn [sumZ foldr]. rewrite u64_add_l. f_equal. unfold sumZ. lia.
Qed.

(** From 64 KiB on the guard of the second [fseek] does what it was
    written for. *)
Lemma trailing_offset_large (size : Z) :
  65536 <= size < 2 ^ 63 -> to_long (trailing_offset size) = size - 65536.
Proof.
  intros Hs. unfold trailing_offset, to_long.
  rewrite (u64_small (size - 65536)) by (pow_numerals; lia).
  destruct (0 <? size - 65536) eqn:E.
  - rewrite u64_small by (pow_numerals; lia).
    destruct (size - 65536 <? 2 ^ 63) eqn:E'; pow_numerals; lia.
  - assert (size = 65536) as -> by lia. reflexivity.
Qed.

(** The two loops on a file of 64 KiB or more: 8192 words from the start,
    8192 words from 64 KiB before the end. *)
Lemma get_hash_two_loops (data : list byte) :
  65536 <= Z.of_nat (length data) < 2 ^ 63 ->
  get_hash_and_filesize (fopen_r data) =
    (u64 (Z.of_nat (length data)
          + sumZ (le_words (take (Z.to_nat 65536) data))
          + sumZ (le_words (take (Z.to_nat 65536)
                                 (drop (length data - Z.to_nat 65536) data)))),
     Z.of_nat (length data)).
Proof.
  intros Hlen.
  set (size := Z.of_nat (length data)) in *.
  assert (Hsize : u64 size = size) by (apply u64_small; pow_numerals; lia).
  unfold get_hash_and_filesize, fopen_r, fseek, ftell. cbn [f_data f_pos].
  change (65536 / 8) with 8192.
  fold size. replace (size + 0 <? 0) with false by lia.
  cbn [f_pos f_data]. rewrite Z.add_0_r, Hsize.
  replace (0 <? 0) with false by reflexivity.
  rewrite sum_words_exact; cbn [f_pos f_data]; [|lia|exact Hsize|lia].
  rewrite drop_0, trailing_offset_large by lia.
  replace (size - 65536 <? 0) with false by lia.
  rewrite sum_words_exact; cbn [f_pos f_data]; [|lia|apply u64_idem|lia].
  rewrite u64_add_l.
  replace (8 * Z.to_nat 8192)%nat with (Z.to_nat 65536) by lia.
  replace (Z.to_nat (size - 65536)) with (length data - Z.to_nat 65536)%nat
    by lia.
  reflexivity.
Qed.

(** X1.  For every file of at least 64 KiB, [get_hash_and_filesize] returns
    the fingerprint: the size plus the 8192 words of the first 64 KiB plus
    the 8192 words of the last 64 KiB, modulo 2^64, together with the
    size. *)
Theorem get_hash_large (data : list byte) :
  65536 <= Z.of_nat (length data) < 2 ^ 63 ->
  get_hash_and_filesize (fopen_r data) =
    (fingerprint data, Z.of_nat (length data)).
Proof.
  intros Hlen. rewrite get_hash_two_loops by done.
  unfold fingerprint.
  rewrite (take_ge (drop _ _)) by (rewrite length_drop; lia).
  reflexivity.
Qed.

Lemma get_hash_large_example :
  65536 <= Z.of_nat (length long_file) < 2 ^ 63 /\
  get_hash_and_filesize (fopen_r long_file) = (65545, 65544).
Proof.
  assert (Hlen : 65536 <= Z.of_nat (length long_file) < 2 ^ 63)
    by (vm_compute; split; congruence).
  split; [exact Hlen|].
  etransitivity; [apply (get_hash_large long_file Hlen)|].
  vm_compute. reflexivity.
Defined.

(** X2.  The hash of a file depends on its size, its first 64 KiB and its
    last 64 KiB only: what lies between them can be replaced by anything
    of the same length. *)
Theorem get_hash_ignores_middle (head middle middle' tail : list byte) :
  length head = Z.to_nat 65536 ->
  length tail = Z.to_nat 65536 ->
  length middle = length middle' ->
  Z.of_nat (length middle) < 2 ^ 62 ->
  get_hash_and_filesize (fopen_r (head ++ middle ++ tail)) =
  get_hash_and_filesize (fopen_r (head ++ middle' ++ tail)).
Proof.
  intros Hh Ht Hm Hlen.
  assert (Hwin : forall m : list byte, length m = length middle ->
            take (Z.to_nat 65536) (head ++ m ++ tail) = head /\
            drop (length (head ++ m ++ tail) - Z.to_nat 65536)
                 (head ++ m ++ tail) = tail).
  { intros m Hlm. split.
    - rewrite <- Hh. by rewrite take_app_length.
    - rewrite !length_app.
      replace (length head + (length m + length tail) - Z.to_nat 65536)%nat
        with (length (head ++ m)) by (rewrite length_app; lia).
      by rewrite (assoc_L (++)), drop_app_length. }
  destruct (Hwin middle eq_refl) as [Hhead Htail].
  destruct (Hwin middle' (eq_sym Hm)) as [Hhead' Htail'].
  rewrite !get_hash_two_loops by (rewrite !length_app; pow_numerals; lia).
  rewrite Hhead, Htail, Hhead', Htail', !length_app, Hm. reflexivity.
Qed.

Lemma get_hash_ignores_middle_example :
  get_hash_and_filesize
    (fopen_r (replicate (Z.to_nat 65536) x01 ++ [x00; x00]
              ++ replicate (Z.to_nat 65536) x02)) =
  get_hash_and_filesize
    (fopen_r (replicate (Z.to_nat 65536) x01 ++ [xff; x07]
              ++ replicate (Z.to_nat 65536) x02)).
Proof.
  apply (get_hash_ignores_middle
           (replicate (Z.to_nat 65536) x01) [x00; x00] [xff; x07]
           (replicate (Z.to_nat 65536) x02));
    [apply length_replicate|apply length_replicate|reflexivity|reflexivity].
Defined.


(** ** Numerals: what [printf] writes, [strtol] reads back *)

Lemma fmt_digits_eq n acc :
  fmt_digits n acc =
    if Z_lt_dec n 10 then String (digit_char n) acc
    else fmt_digits (n / 10) (String (digit_char (n mod 10)) acc).
Proof.
  rewrite fmt_digits_equation_1. destruct (Z_lt_dec n 10); reflexivity.
Qed.

(** Induction along the recursion of [fmt_digits]. *)
Lemma fmt_digits_ind (P : Z -> Prop) :
  (forall n, n < 10 -> P n) ->
  (forall n, 10 <= n -> P (n / 10) -> P n) ->
  forall n, P n.
Proof.
  intros Hbase Hstep n.
  destruct (Z_lt_dec n 10) as [Hn|Hn]; [by apply Hbase|].
  assert (H0 : 0 <= n) by lia. clear Hn. revert n H0.
  apply (Z_lt_induction (fun n => P n)). intros n IH.
  destruct (Z_lt_dec n 10) as [Hn|Hn]; [by apply Hbase|].
  apply Hstep; [lia|]. apply IH. split; [apply Z.div_pos; lia|].
  apply Z.div_lt; lia.
Qed.

Lemma fmt_digits_acc n : forall acc,
  fmt_digits n acc = fmt_digits n "" +:+ acc.
Proof.
  induction n as [n Hn|n Hn IH] using fmt_digits_ind; intros acc.
  - rewrite (fmt_digits_eq n acc), (fmt_digits_eq n "").
    destruct (Z_lt_dec n 10); [reflexivity|lia].
  - rewrite (fmt_digits_eq n acc), (fmt_digits_eq n "").
    destruct (Z_lt_dec n 10); [lia|].
    rewrite IH, (IH (String _ "")), string_app_assoc. reflexivity.
Qed.

Lemma digit_of_char d : 0 <= d <= 9 -> digit_of (digit_char d) = Some d.
Proof.
  intros Hd.
  assert (Hc : d = 0 \/ d = 1 \/ d = 2 \/ d = 3 \/ d = 4 \/ d = 5 \/ d = 6
               \/ d = 7 \/ d = 8 \/ d = 9) by lia.
  repeat (destruct Hc as [-> | Hc]; [reflexivity|]). by subst.
Qed.

Lemma digit_char_plain d :
  0 <= d <= 9 ->
  isspace (digit_char d) = false /\
  digit_char d <> "-"%char /\ digit_char d <> "+"%char /\
  digit_char d <> "q"%char /\ digit_char d <> "Q"%char.
Proof.
  intros Hd.
  assert (Hc : d = 0 \/ d = 1 \/ d = 2 \/ d = 3 \/ d = 4 \/ d = 5 \/ d = 6
               \/ d = 7 \/ d = 8 \/ d = 9) by lia.
  repeat (destruct Hc as [-> | Hc]; [by repeat split|]). subst.
  by repeat split.
Qed.

(** A numeral starts with a digit. *)
Lemma fmt_digits_head n : forall acc,
  0 <= n -> exists d s, 0 <= d <= 9 /\ fmt_digits n acc = String (digit_char d) s.
Proof.
  induction n as [n Hn|n Hn IH] using fmt_digits_ind; intros acc H0;
    rewrite fmt_digits_eq; destruct (Z_lt_dec n 10); try lia.
  - exists n, acc. split; [lia|done].
  - apply IH. apply Z.div_pos; lia.
Qed.

(** Reading the digits of a numeral gives the number back. *)
Lemma read_digits_fmt n : forall acc k,
  0 <= n ->
  read_digits (fmt_digits n acc) 0 k =
    read_digits acc n (k + String.length (fmt_digits n "")).
Proof.
  induction n as [n Hn|n Hn IH] using fmt_digits_ind; intros acc k H0;
    rewrite (fmt_digits_eq n acc), (fmt_digits_eq n "");
    destruct (Z_lt_dec n 10); try lia.
  - cbn [read_digits String.length]. rewrite digit_of_char by lia.
    rewrite Z.mul_0_r, Z.add_0_l. f_equal. lia.
  - rewrite IH by (apply Z.div_pos; lia).
    cbn [read_digits].
    rewrite digit_of_char by (pose proof (Z.mod_pos_bound n 10); lia).
    rewrite (fmt_digits_acc (n / 10) (String _ "")), string_length_app.
    cbn [String.length]. f_equal; [|lia].
    pose proof (Z.div_mod n 10 ltac:(lia)). lia.
Qed.

(** [strtol] on a numeral that is followed by something other than a
    digit: the number, clamped to [LONG_MAX], and the numeral's end. *)
Lemma strtol_fmt n rest :
  0 <= n ->
  digit_of (char_at 0 rest) = None ->
  strtol (fmt_digits n "" +:+ rest) =
    (Z.min LONG_MAX n, String.length (fmt_digits n "")).
Proof.
  intros H0 Hrest.
  rewrite <- fmt_digits_acc.
  destruct (fmt_digits_head n rest H0) as (d & s & Hd & Hs).
  destruct (digit_char_plain d Hd) as (Hsp & Hminus & Hplus & _).
  pose proof (read_digits_fmt n rest 0 H0) as Hread.
  assert (Hlen : String.length (fmt_digits n "") <> 0%nat).
  { destruct (fmt_digits_head n "" H0) as (? & ? & _ & ->). done. }
  assert (Hstop : read_digits rest n (String.length (fmt_digits n ""))
                  = (n, String.length (fmt_digits n ""))).
  { destruct rest as [|c rest]; [done|].
    cbn [char_at] in Hrest. cbn [read_digits]. by rewrite Hrest. }
  unfold strtol. rewrite Hs in *. cbn [skip_spaces]. rewrite Hsp.
  cbn [str_from].
  assert (Hsign : forall A (x y z : A),
            match String (digit_char d) s with
            | String "-" _ => x | String "+" _ => y | _ => z end = z).
  { intros A x y z. destruct (digit_char d) as [[] [] [] [] [] [] [] []];
      try reflexivity; done. }
  rewrite Hsign. cbn [str_from].
  rewrite Hread, Nat.add_0_l, Hstop.
  destruct (String.length (fmt_digits n "")); [done|]. reflexivity.
Qed.

Lemma str_app_nil_r s : s +:+ "" = s.
Proof.
  induction s as [|a s IH]; rewrite ?str_app_nil, ?str_app_cons; [done|].
  by rewrite IH.
Qed.

Lemma char_at_app_length s t :
  char_at (String.length s) (s +:+ t) = char_at 0 t.
Proof.
  induction s as [|a s IH]; rewrite ?str_app_nil, ?str_app_cons;
    cbn [String.length char_at]; [|done].
  by destruct t.
Qed.


(** ** The prompt: numerals, repeated questions, the end of the input *)

Section Prompt.
Context `{Zlib} `{XmlRpc}.
Implicit Types (w : world) (o : options) (infos : list sub_info).

Lemma to_int_small v : - 2 ^ 31 <= v < 2 ^ 31 -> to_int v = v.
Proof.
  intros Hv. unfold to_int, u32. pow_numerals.
  destruct (Z_lt_dec v 0) as [Hneg|Hpos].
  - assert (Hm : v mod 4294967296 = v + 4294967296).
    { symmetry. apply (Z.mod_unique _ _ (-1)); [left|]; lia. }
    rewrite Hm. destruct (v + 4294967296 <? 2147483648) eqn:E; lia.
  - rewrite Z.mod_small by lia.
    destruct (v <? 2147483648) eqn:E; lia.
Qed.

Lemma to_int_wrap k j : to_int (k + j * 2 ^ 32) = to_int k.
Proof. unfold to_int, u32. by rewrite Z.mod_add by (pow_numerals; lia). Qed.

(** The line that holds the numeral of [v] is read as [v], clamped to
    [LONG_MAX] and cut to an [int]. *)
Lemma strtol_line v :
  0 <= v ->
  strtol (line (fmt_i v)) =
    (Z.min LONG_MAX v, String.length (fmt_digits v "")) /\
  char_at (String.length (fmt_digits v "")) (line (fmt_i v)) = "010"%char.
Proof.
  intros Hv. unfold line, fmt_i.
  replace (v <? 0) with false by zbool.
  split; [by apply strtol_fmt|]. by rewrite char_at_app_length.
Qed.

Lemma valid_choice_line n v :
  0 <= v ->
  valid_choice n (line (fmt_i v)) =
    (1 <=? to_int (Z.min LONG_MAX v)) && (to_int (Z.min LONG_MAX v) <=? n).
Proof.
  intros Hv. unfold valid_choice.
  destruct (strtol_line v Hv) as [-> ->]. reflexivity.
Qed.

Lemma select_line n v rest w :
  0 <= v <= LONG_MAX ->
  1 <= to_int v <= n ->
  w_stdin w = line (fmt_i v) :: rest ->
  select_1_out_of n w = (to_int v, set_stdin rest (emit (Prompt n) w)).
Proof.
  intros Hv Hsel Hin. unfold select_1_out_of. rewrite Hin.
  assert (Hvalid : valid_choice n (line (fmt_i v)) = true).
  { rewrite valid_choice_line, Z.min_r by lia.
    apply andb_true_iff. split; apply Z.leb_le; lia. }
  rewrite read_choice_valid by done.
  destruct (strtol_line v ltac:(lia)) as [-> _].
  cbn [fst replicate foldr]. by rewrite Z.min_r by lia.
Qed.

(** X3.  Typing the number of a candidate selects it: for every [k] from 1
    to [n], when the next input line is the decimal numeral of [k],
    [select_1_out_of] prints the prompt once, takes the line and returns
    [k]. *)
Theorem typed_number_selects n k rest w :
  1 <= k <= n ->
  n < 2 ^ 31 ->
  w_stdin w = line (fmt_i k) :: rest ->
  select_1_out_of n w = (k, set_stdin rest (emit (Prompt n) w)).
Proof.
  intros Hk Hn Hin.
  assert (Hint : to_int k = k) by (apply to_int_small; pow_numerals; lia).
  rewrite <- Hint at 1.
  apply select_line; [unfold LONG_MAX; pow_numerals; lia|lia|done].
Qed.

(** X4.  The number typed is cut to an [int] before it is checked: the
    numeral of [k + j * 2^32] selects candidate [k] as well, as long as it
    fits a [long]; a numeral above [LONG_MAX] is read as [LONG_MAX], which
    is [-1] as an [int], and is never a valid choice. *)
Theorem typed_number_wraps n k :
  1 <= k <= n ->
  n < 2 ^ 31 ->
  (forall j rest w,
     1 <= j ->
     k + j * 2 ^ 32 <= LONG_MAX ->
     w_stdin w = line (fmt_i (k + j * 2 ^ 32)) :: rest ->
     select_1_out_of n w = (k, set_stdin rest (emit (Prompt n) w))) /\
  (forall v, LONG_MAX < v -> valid_choice n (line (fmt_i v)) = false).
Proof.
  intros Hk Hn. split.
  - intros j rest w Hj Hmax Hin.
    assert (Hint : to_int (k + j * 2 ^ 32) = k).
    { rewrite to_int_wrap. apply to_int_small. pow_numerals. lia. }
    rewrite <- Hint at 1.
    apply select_line; [pow_numerals; lia|lia|done].
  - intros v Hv. rewrite valid_choice_line by (unfold LONG_MAX in Hv; lia).
    rewrite Z.min_l by lia. reflexivity.
Qed.

Lemma read_choice_rejected n bad : forall lines,
  Forall (fun l => rejected n l = true) bad ->
  read_choice n (bad ++ lines) =
    let '(sel, rest, k) := read_choice n lines in
    (sel, rest, (length bad + k)%nat).
Proof.
  induction bad as [|l bad IH]; intros lines Hbad.
  { cbn. by destruct (read_choice n lines) as [[sel rest] k]. }
  apply Forall_cons in Hbad as [Hl Hbad].
  unfold rejected in Hl.
  apply andb_true_iff in Hl as [Hq%negb_true_iff Hv%negb_true_iff].
  cbn [app read_choice]. rewrite Hq, Hv, IH by done.
  by destruct (read_choice n lines) as [[sel rest] k].
Qed.

Lemma read_choice_end n lines :
  Forall (fun l => rejected n l = true) lines ->
  read_choice n lines = (- EIO, [], S (length lines)).
Proof.
  intros Hbad. rewrite <- (app_nil_r lines) at 1.
  rewrite read_choice_rejected by done. cbn [read_choice]. do 2 f_equal. lia.
Qed.

Lemma prompts_out n k w :
  w_out (foldr (fun _ => emit (Prompt n)) w (replicate k tt)) =
    w_out w ++ replicate k (Prompt n).
Proof.
  induction k as [|k IH]; cbn [replicate foldr]; [by rewrite app_nil_r|].
  cbn [emit w_out]. rewrite IH, <- (assoc_L (++)). f_equal.
  clear. induction k as [|k IH]; [done|]. cbn [replicate app]. by rewrite IH.
Qed.

Lemma prompts_keep n k w :
  let w' := foldr (fun _ => emit (Prompt n)) w (replicate k tt) in
  w_files w' = w_files w /\ w_server w' = w_server w /\
  w_denied w' = w_denied w /\ w_room w' = w_room w.
Proof. induction k as [|k IH]; cbn [replicate foldr]; [done|]. apply IH. Qed.

(** X5.  An answer that is neither a request to quit nor a valid choice is
    asked for again: after any number of such lines, the first valid line
    is the choice, every line up to it has been taken from the input, and
    the prompt has been printed once per line. *)
Theorem select_asks_again n bad good rest w :
  Forall (fun l => rejected n l = true) bad ->
  valid_choice n good = true ->
  w_stdin w = bad ++ good :: rest ->
  exists w',
    select_1_out_of n w = (to_int (strtol good).1, w') /\
    1 <= to_int (strtol good).1 <= n /\
    w_stdin w' = rest /\
    w_out w' = w_out w ++ replicate (S (length bad)) (Prompt n).
Proof.
  intros Hbad Hgood Hin. unfold select_1_out_of.
  rewrite Hin, read_choice_rejected, read_choice_valid by done.
  eexists. split; [reflexivity|]. split; [by apply valid_choice_range|].
  split; [done|]. cbn [set_stdin w_out].
  rewrite prompts_out. do 2 f_equal. lia.
Qed.


(** X6.  When standard input ends at the prompt before a valid answer or
    a request to quit has come, the loop of the selector is left through
    [goto finish] with [r = EIO]: the table has been printed once, the
    prompt once for every line and once more, nothing has been written
    and the service has not been called. *)
Theorem end_of_input_is_EIO fuel o filepath token infos align n sel w :
  sel = 0 \/ always_ask o = true ->
  Forall (fun l => rejected n l = true) (w_stdin w) ->
  exists w',
    ask_loop (S fuel) o filepath token infos align n sel w
      = Done (inl EIO, w') /\
    w_stdin w' = [] /\
    w_files w' = w_files w /\
    w_server w' = w_server w /\
    w_out w' =
      w_out w
      ++ Table infos align :: replicate (S (length (w_stdin w))) (Prompt n).
Proof.
  intros Hloop Hbad.
  rewrite ask_loop_enter by done. cbv zeta.
  unfold select_1_out_of. cbn [emit w_stdin].
  rewrite read_choice_end by done.
  eexists. split; [reflexivity|].
  cbn [set_stdin w_stdin w_files w_server w_out].
  pose proof (prompts_keep n (S (length (w_stdin w)))
                (emit (Table infos align) w)) as (Hf & Hs & _).
  cbv zeta in Hf, Hs. cbn [emit w_files w_server] in Hf, Hs.
  split; [done|]. split; [exact Hf|]. split; [exact Hs|].
  rewrite prompts_out. cbn [w_out].
  cbn [emit w_out]. by rewrite <- (assoc_L (++)).
Qed.



End Prompt.


(** ** What a download touches, and what it delivers *)

Section Delivery.
Context `{Zlib} `{XmlRpc}.
Implicit Types (w : world) (o : options).

Lemma elsewhere_refl path w : elsewhere path w w.
Proof. done. Qed.

Lemma elsewhere_trans path w1 w2 w3 :
  elsewhere path w1 w2 -> elsewhere path w2 w3 -> elsewhere path w1 w3.
Proof.
  intros (Hf1 & Hd1 & Hs1) (Hf2 & Hd2 & Hs2). split; [|split; congruence].
  intros q Hq. rewrite Hf2, Hf1; done.
Qed.

Lemma elsewhere_log_err path m w : elsewhere path w (log_err m w).
Proof. done. Qed.

Lemma elsewhere_log_info path o m w : elsewhere path w (log_info o m w).
Proof. unfold log_info. by destruct (2 <=? quiet o). Qed.

Lemma elsewhere_set_server path s w : elsewhere path w (set_server s w).
Proof. done. Qed.

Lemma elsewhere_truncate path w :
  elsewhere path w (set_files (<[path := []]> (w_files w)) (w_room w) w).
Proof.
  split; [|done]. intros q Hq. cbn. by rewrite lookup_insert_ne.
Qed.

Lemma elsewhere_fwrite path bs w : elsewhere path w (fwrite path bs w).2.
Proof.
  unfold fwrite. destruct (_ || _); (split; [|done]); intros q Hq; cbn;
    by rewrite lookup_alter_ne.
Qed.

Lemma elsewhere_fclose path w : elsewhere path w (fclose path w).
Proof.
  unfold fclose. destruct (_ <? 0); [|done].
  split; [|done]. intros q Hq. cbn. by rewrite lookup_alter_ne.
Qed.

Lemma inflate_loop_elsewhere fuel : forall path strm input w e w',
  inflate_loop fuel path strm input w = Done (e, w') -> elsewhere path w w'.
Proof.
  induction fuel as [|fuel IH]; intros path strm input w e w'; cbn [inflate_loop].
  { done. }
  destruct (inflate strm input ZLIB_CHUNK) as [[[strm' consumed] out] ret].
  destruct (_ || _).
  { intros [= <- <-]. apply elsewhere_log_err. }
  pose proof (elsewhere_fwrite path out w) as Hw.
  destruct (fwrite path out w) as [written w1]. cbn [snd] in Hw.
  destruct (negb _).
  { intros [= <- <-]. exact Hw. }
  destruct (_ =? ZLIB_CHUNK).
  - intros Hrec%IH. exact (elsewhere_trans _ _ _ _ Hw Hrec).
  - intros [= <- <-]. exact Hw.
Qed.

Lemma decode_loop_elsewhere fuel : forall path buf strm st sv off w r w',
  decode_loop fuel path buf strm st sv off w = Done (r, w') ->
  elsewhere path w w'.
Proof.
  induction fuel as [|fuel IH]; intros path buf strm st sv off w r w';
    cbn [decode_loop].
  { done. }
  destruct (g_base64_decode_step _ _ _) as [[z_in st'] sv'].
  destruct (_ =? 0).
  { intros [= <- <-]. done. }
  destruct (inflate_loop fuel path strm z_in w) as [[[r1|z_ret strm'] w1]| |] eqn:E;
    try done; apply inflate_loop_elsewhere in E.
  - intros [= <- <-]. done.
  - destruct (z_ret =? Z_STREAM_END).
    + intros [= <- <-]. done.
    + intros Hrec%IH. exact (elsewhere_trans _ _ _ _ E Hrec).
Qed.

Lemma sub_download_keeps fuel o token sub_id path w r w' :
  sub_download fuel o token sub_id path w = Done (r, w') ->
  elsewhere path w w'.
Proof.
  unfold sub_download.
  destruct (_ && _).
  { intros [= <- <-]. done. }
  set (w1 := if file_exists path w then _ else _).
  assert (H1 : elsewhere path w w1).
  { unfold w1. destruct (file_exists path w); [apply elsewhere_log_info|done]. }
  destruct (rpc_download _ _ _) as [[code|buf] srv].
  { intros [= <- <-]. exact H1. }
  destruct (bool_decide _).
  { intros [= <- <-]. exact H1. }
  destruct (inflateInit2 _) as [z_ret strm].
  destruct (negb _).
  { intros [= <- <-].
    refine (elsewhere_trans _ _ _ _ _ (elsewhere_fclose path _)).
    exact (elsewhere_trans _ _ _ _ H1 (elsewhere_truncate path _)). }
  destruct (decode_loop _ _ _ _ _ _ _ _) as [[r1 w2]| |] eqn:Hd; try done.
  apply decode_loop_elsewhere in Hd.
  intros [= <- <-].
  refine (elsewhere_trans _ _ _ _ _ (elsewhere_fclose path _)).
  apply (elsewhere_trans _ _ _ _ H1).
  exact (elsewhere_trans _ _ _ _ (elsewhere_truncate path _) Hd).
Qed.

(** X8.  A download writes to its output path and to nothing else: every
    other path holds afterwards what it held before, whatever the service
    delivers and the decompressor does; the download reads nothing from
    standard input. *)
Theorem sub_download_elsewhere fuel o token sub_id path w r w' :
  sub_download fuel o token sub_id path w = Done (r, w') ->
  (forall q, q <> path -> w_files w' !! q = w_files w !! q) /\
  w_denied w' = w_denied w /\
  w_stdin w' = w_stdin w.
Proof.
  intros Hrun. destruct (sub_download_keeps _ _ _ _ _ _ _ _ Hrun)
    as (Hfiles & Hdenied & Hstdin).
  split; [exact Hfiles|]. split; [exact Hdenied|exact Hstdin].
Qed.

(** The download step writes to the path derived for its candidate. *)
Lemma fetch_keeps fuel o filepath token infos sel w r w' q :
  fetch fuel o filepath token infos sel w = Done (r, w') ->
  (forall info, info ∈ infos ->
     get_sub_path o filepath (filename info) <> Some q) ->
  w_files w' !! q = w_files w !! q.
Proof.
  unfold fetch. intros Hrun Hq.
  destruct (sel - 1 <? 0); [done|].
  destruct (infos !! Z.to_nat (sel - 1)) as [info|] eqn:E; [|done].
  apply list_elem_of_lookup_2 in E. specialize (Hq info E).
  destruct (get_sub_path o filepath (filename info)) as [p|]; [|done].
  apply sub_download_keeps in Hrun as [Hfiles _].
  rewrite Hfiles by congruence.
  unfold log_info. by destruct (2 <=? quiet o), (same_name o && _).
Qed.

Lemma select_keeps_files n w :
  w_files (select_1_out_of n w).2 = w_files w.
Proof.
  unfold select_1_out_of. destruct (read_choice n (w_stdin w)) as [[sel rest] k].
  cbn [snd set_stdin w_files]. apply prompts_keep.
Qed.

Lemma ask_loop_keeps fuel : forall o filepath token infos align n sel w e w' q,
  ask_loop fuel o filepath token infos align n sel w = Done (e, w') ->
  (forall info, info ∈ infos ->
     get_sub_path o filepath (filename info) <> Some q) ->
  w_files w' !! q = w_files w !! q.
Proof.
  induction fuel as [|fuel IH];
    intros o filepath token infos align n sel w e w' q; cbn [ask_loop];
    destruct (_ || _); try done; try (by intros [= <- <-]).
  pose proof (select_keeps_files n (emit (Table infos align) w)) as Hsel.
  destruct (select_1_out_of n _) as [sel1 w1]. cbn [snd emit w_files] in Hsel.
  destruct (sel1 <=? 0).
  { intros [= <- <-] _. by rewrite Hsel. }
  destruct (fetch _ _ _ _ _ _ _) as [[r w2]| |] eqn:E; [|done..].
  intros Hrun Hq. pose proof (fetch_keeps _ _ _ _ _ _ _ _ _ q E Hq) as Hfetch.
  destruct (negb _ || _).
  - injection Hrun as <- <-. by rewrite Hfetch, Hsel.
  - rewrite (IH _ _ _ _ _ _ _ _ _ _ q Hrun Hq). by rewrite Hfetch, Hsel.
Qed.

(** X23.  The selector writes to the paths of its candidates and to no
    others: a path that [get_sub_path] derives for none of the candidates
    of the list holds after [download_chosen_results] what it held
    before, whatever was chosen; and it holds the same when the loop of
    questions is left, through [goto finish] or by its condition, however
    many downloads were made in it. *)
Theorem selector_writes_candidate_paths fuel o filepath token
    (results : list result) w q :
  (forall info, info ∈ parse_result <$> results ->
     get_sub_path o filepath (filename info) <> Some q) ->
  (forall r w',
     download_chosen_results fuel o filepath token results w = Done (r, w') ->
     w_files w' !! q = w_files w !! q) /\
  (forall align n sel e w',
     ask_loop fuel o filepath token (parse_result <$> results) align n sel w
       = Done (e, w') ->
     w_files w' !! q = w_files w !! q).
Proof.
  intros Hq. split.
  - intros r w'. unfold download_chosen_results. rewrite scan_results_spec.
    intros Hrun.
    destruct (ask_loop _ _ _ _ _ _ _ _ _) as [[[r1|sel] w1]| |] eqn:E;
      [done| |done..].
    apply (fetch_keeps _ _ _ _ _ _ _ _ _ q) in Hrun; [|done].
    rewrite Hrun.
    transitivity (w_files w1 !! q); [by destruct (quiet o =? 0)|].
    exact (ask_loop_keeps _ _ _ _ _ _ _ _ _ _ _ q E Hq).
  - intros align n sel e w' Hrun.
    exact (ask_loop_keeps _ _ _ _ _ _ _ _ _ _ _ q Hrun Hq).
Qed.

(** Without [always_ask], a list with a candidate to take goes straight to
    the download step. *)
Lemma download_chosen_direct fuel o filepath token (results : list result) w k :
  auto_choice o (parse_result <$> results) = Some k ->
  download_chosen_results fuel o filepath token results w =
    fetch fuel o filepath token (parse_result <$> results) (Z.of_nat k + 1)
      (if quiet o =? 0
       then emit (Table (parse_result <$> results)
                    (widest (strlen HEADER_RELEASE_NAME)
                            (parse_result <$> results))) w
       else w).
Proof.
  unfold auto_choice, download_chosen_results. rewrite scan_results_spec.
  destruct (always_ask o) eqn:Hask; [done|].
  destruct (first_hash_match _) as [j|].
  - intros [= ->].
    replace (Z.of_nat k + 1 =? 0) with false by zbool.
    rewrite andb_false_r.
    destruct fuel; cbn [ask_loop];
      replace (Z.of_nat k + 1 =? 0) with false by zbool; by rewrite Hask.
  - destruct (never_ask o); [|done]. intros [= <-]. cbn [andb Z.eqb].
    destruct fuel; cbn [ask_loop Z.eqb orb]; by rewrite Hask.
Qed.

(** X9.  The pipeline end to end.  When the search for an input file
    delivers candidates of which one is taken without a question, the
    path derived for it is free (or [force_overwrite] is set) and can be
    written, and the download call delivers the base64 text of the
    compressed subtitle [p], then, given fuel enough, [process_file]
    returns 0, the file at the derived path holds exactly [p], no other
    file has changed and nothing was read from standard input. *)
Theorem process_file_delivers gzip tracks (p : list byte) beyond o token
    filepath w hash size (results : list result) k info out srv srv' :
  inflates gzip tracks ->
  hash_of_input o filepath w = Some (hash, size) ->
  rpc_search (w_server w) token
             (search_query_of o hash size (base_name filepath))
    = (SearchData results, srv) ->
  auto_choice o (parse_result <$> results) = Some k ->
  (parse_result <$> results) !! k = Some info ->
  get_sub_path o filepath (filename info) = Some out ->
  file_exists out w = false \/ force_overwrite o = true ->
  out ∉ w_denied w ->
  rpc_download srv token (id info)
    = (Reply (mkBuffer (base64_encode (gzip p)) beyond), srv') ->
  Z.of_nat (String.length (base64_encode (gzip p))) < 2 ^ 32 ->
  Z.of_nat (length p) <= w_room w ->
  exists fuel0, forall fuel, (fuel0 <= fuel)%nat ->
    exists w',
      process_file fuel o filepath token w = Done (0, w') /\
      w_files w' = <[out := p]> (w_files w) /\
      w_stdin w' = w_stdin w.
Proof.
  intros Hz Hhash Hsearch Hauto Hinfo Hout Hfree Hden Hrpc Hlen Hroom.
  assert (Hne : results <> []) by (intros ->; done).
  set (w1 := set_server srv (log_info o (Searching (base_name filepath)) w)).
  set (infos := parse_result <$> results) in *.
  set (w2 := if quiet o =? 0
             then emit (Table infos (widest (strlen HEADER_RELEASE_NAME) infos)) w1
             else w1).
  set (w3 := if same_name o && bool_decide (strrchr (filename info) "." = None)
             then log_err NoExtension w2 else w2).
  set (w4 := log_info o (Downloading out) w3).
  assert (H4 : w_files w4 = w_files w /\ w_denied w4 = w_denied w /\
               w_room w4 = w_room w /\ w_stdin w4 = w_stdin w /\
               w_server w4 = srv).
  { unfold w4, w3, w2, w1, log_info.
    by destruct (2 <=? quiet o), (quiet o =? 0), (same_name o && _). }
  destruct H4 as (Hf4 & Hd4 & Hr4 & Hi4 & Hs4).
  destruct (sub_download_delivers gzip tracks p beyond o token (id info) out
              w4 srv' Hz) as [fuel0 Hdl].
  { unfold file_exists in *. by rewrite Hf4. }
  { by rewrite Hs4. }
  { by rewrite Hd4. }
  { done. }
  { by rewrite Hr4. }
  exists fuel0. intros fuel Hfuel.
  destruct (Hdl fuel Hfuel) as (w' & Hrun & Hfiles & Hin & _).
  exists w'. rewrite Hfiles, Hin, Hf4, Hi4. split; [|done].
  rewrite (process_file_results fuel o token filepath w hash size results srv
             Hhash Hsearch Hne).
  rewrite (download_chosen_direct fuel o filepath token results _ k Hauto).
  fold infos w1 w2. unfold fetch.
  replace (Z.of_nat k + 1 - 1 <? 0) with false by zbool.
  replace (Z.to_nat (Z.of_nat k + 1 - 1)) with k by lia.
  rewrite Hinfo. fold w3. rewrite Hout. exact Hrun.
Qed.

(** X22.  The interactive route for a single candidate: when the loop of
    questions is entered, the user answers [1], the path derived for the
    candidate is free (or [force_overwrite] is set) and can be written,
    and the download call delivers the base64 text of the compressed
    subtitle [p], then, given fuel enough, the loop is left through
    [goto finish] with [r = 0] after one table and one prompt, the
    question is not put again, the file holds exactly [p], and the answer
    is the only line taken from standard input. *)
Theorem single_candidate_answer gzip tracks (p : list byte) beyond o token
    filepath (r : result) align sel w out rest srv :
  inflates gzip tracks ->
  sel = 0 \/ always_ask o = true ->
  w_stdin w = line (fmt_i 1) :: rest ->
  get_sub_path o filepath (filename (parse_result r)) = Some out ->
  file_exists out w = false \/ force_overwrite o = true ->
  out ∉ w_denied w ->
  rpc_download (w_server w) token (id (parse_result r))
    = (Reply (mkBuffer (base64_encode (gzip p)) beyond), srv) ->
  Z.of_nat (String.length (base64_encode (gzip p))) < 2 ^ 32 ->
  Z.of_nat (length p) <= w_room w ->
  exists fuel0, forall fuel, (fuel0 <= fuel)%nat ->
    exists w',
      ask_loop fuel o filepath token [parse_result r] align 1 sel w
        = Done (inl 0, w') /\
      w_files w' = <[out := p]> (w_files w) /\
      w_stdin w' = rest /\
      prompt_count (w_out w') = S (prompt_count (w_out w)).
Proof.
  intros Hz Hloop Hin Hout Hfree Hden Hrpc Hlen Hroom.
  set (infos := [parse_result r]).
  set (w1 := emit (Table infos align) w).
  set (w2 := set_stdin rest (emit (Prompt 1) w1)).
  set (w3 := if same_name o
                && bool_decide (strrchr (filename (parse_result r)) "." = None)
             then log_err NoExtension w2 else w2).
  set (w4 := log_info o (Downloading out) w3).
  assert (H4 : w_files w4 = w_files w /\ w_denied w4 = w_denied w /\
               w_room w4 = w_room w /\ w_stdin w4 = rest /\
               w_server w4 = w_server w /\
               prompt_count (w_out w4) = S (prompt_count (w_out w))).
  { unfold w4, w3, w2, w1, log_info.
    destruct (2 <=? quiet o), (same_name o && _); cbn;
      rewrite ?prompt_count_app; cbn; repeat split; lia. }
  destruct H4 as (Hf4 & Hd4 & Hr4 & Hi4 & Hs4 & Hp4).
  destruct (sub_download_delivers gzip tracks p beyond o token
              (id (parse_result r)) out w4 srv Hz) as [fuel0 Hdl].
  { unfold file_exists in *. by rewrite Hf4. }
  { by rewrite Hs4. }
  { by rewrite Hd4. }
  { done. }
  { by rewrite Hr4. }
  exists (S fuel0). intros [|fuel] Hfuel; [lia|].
  destruct (Hdl fuel ltac:(lia)) as (w' & Hrun & Hfiles & Hstdin & _).
  pose proof (sub_download_undisturbed _ _ _ _ _ _ _ _ Hrun) as [_ Hprompts].
  exists w'. rewrite Hfiles, Hstdin, Hprompts, Hf4, Hi4, Hp4.
  split; [|done].
  rewrite ask_loop_enter by done. cbv zeta. fold w1.
  rewrite (select_line 1 1 rest w1) by (done || by vm_compute).
  change (to_int 1) with 1. cbn [Z.leb Z.compare].
  fold w2. unfold fetch at 1.
  change (1 - 1 <? 0) with false.
  change (infos !! Z.to_nat (1 - 1)) with (Some (parse_result r)).
  cbv iota. fold w3. rewrite Hout. fold w4. rewrite Hrun. reflexivity.
Qed.

End Delivery.


(** ** The decode loop when the file system runs out of room *)

Lemma chunk_chars : Z.to_nat ZLIB_CHUNK = (4 * Z.to_nat 16384)%nat.
Proof. unfold ZLIB_CHUNK. lia. Qed.

Section DiskFull.
Context `{Zlib} `{XmlRpc}.
Variable gzip : list byte -> list byte.
Variable tracks : z_stream -> list byte -> nat -> nat -> Prop.
Hypothesis zlib_ok : inflates gzip tracks.

Variable p : list byte.
Variable path : string.
Variable old : list byte.
Variable w0 : world.
Hypothesis room_pos : 0 <= w_room w0.

(** The stream up to offset [o] of [p], as far as it has to be in the
    file system, fits. *)
Local Abbreviation fits o :=
  ((Z.of_nat (length old) + Z.of_nat o) / stream_buffer * stream_buffer
   <= Z.of_nat (length old) + w_room w0).

(** A block of the stream is too much for the file system. *)
Hypothesis block_stuck : ~ fits (length p).

Local Abbreviation room := (Z.to_nat (w_room w0)).
Local Abbreviation sink o := (written path old p o w0).
Local Abbreviation stuck := (log_err WriteFailed (written path old p room w0)).

Lemma fits_before (o o' : nat) : (o <= o')%nat -> fits o' -> fits o.
Proof.
  intros Hle Hfit. etrans; [|exact Hfit]. apply block_floor_mono. lia.
Qed.

Lemma room_below (o : nat) : ~ fits o -> (room < o)%nat.
Proof.
  intros Hno. apply Z.nle_gt in Hno.
  pose proof (block_floor_le (Z.of_nat (length old) + Z.of_nat o)). lia.
Qed.

(** A write that makes the stream hand over a block for which there is no
    room: the file keeps what there is room for, and [fwrite] reports
    fewer bytes than it was given. *)
Lemma fwrite_short (o : nat) (out : list byte) :
  (o <= length p)%nat ->
  fits o ->
  ~ fits (o + length out) ->
  out `prefix_of` drop o p ->
  exists written : Z,
    written <> Z.of_nat (length out) /\
    fwrite path out (sink o) = (written, sink room).
Proof.
  intros Ho Hfit Hover Hout.
  pose proof (room_below _ Hover) as Hroom.
  assert (Hout' : out = take (length out) (drop o p)).
  { destruct Hout as [k ->]. by rewrite take_app_length. }
  assert (Hsome : length out <> O).
  { intros Hnil. apply Hover. by rewrite Hnil, Nat.add_0_r. }
  exists (Z.max 0 (w_room w0 - Z.of_nat o)). split; [lia|].
  unfold fwrite, written. cbn [w_room w_files set_files].
  rewrite lookup_insert_eq.
  rewrite length_app, length_take.
  replace (o `min` length p)%nat with o by lia.
  replace (Z.of_nat (length out) =? 0) with false by zbool.
  replace ((Z.of_nat (length old + o) + Z.of_nat (length out))
             / stream_buffer * stream_buffer
           <=? Z.of_nat (length old + o) + (w_room w0 - Z.of_nat o))
    with false.
  2:{ symmetry. apply Z.leb_gt. apply Z.nle_gt in Hover.
      replace (Z.of_nat (length old + o) + Z.of_nat (length out))
        with (Z.of_nat (length old) + Z.of_nat (o + length out)) by lia.
      lia. }
  cbn [orb]. rewrite alter_insert_eq.
  f_equal. unfold set_files. cbn. f_equal.
  - f_equal.
    replace (Z.to_nat (Z.of_nat (length old + o) + (w_room w0 - Z.of_nat o)))
      with (length old + room)%nat by lia.
    rewrite <- (assoc_L (++)), take_app_add. f_equal.
    rewrite Hout', take_take_drop, take_take.
    f_equal. lia.
  - lia.
Qed.

(** One round of the inner loop: either what [inflate] delivers is
    accepted and the round is as with room enough, or the write is short
    and the loop is left with [ENOSPC]. *)
Lemma inflate_round_short s i o input junk :
  tracks s p i o ->
  input `prefix_of` (drop i (gzip p) ++ junk) ->
  (o <= length p)%nat ->
  fits o ->
  (forall fuel,
     inflate_loop (S fuel) path s input (sink o) = Done (Finish ENOSPC, stuck)) \/
  exists s1 c1 (out : list byte) ret,
    (c1 <= length input)%nat /\
    (i + c1 <= length (gzip p))%nat /\
    (o + length out <= length p)%nat /\
    fits (o + length out) /\
    tracks s1 p (i + c1) (o + length out) /\
    ret <> Z_STREAM_END /\
    (i + c1 < length (gzip p))%nat /\
    (c1 = length input \/ Z.of_nat (length out) = ZLIB_CHUNK) /\
    forall fuel,
      inflate_loop (S fuel) path s input (sink o) =
        if Z.of_nat (length out) =? ZLIB_CHUNK
        then inflate_loop fuel path s1 (drop c1 input) (sink (o + length out))
        else Done (Fallthrough ret s1, sink (o + length out)).
Proof.
  intros Htr Hpre Ho Hfit0.
  pose proof (inflate_step _ _ zlib_ok s p i o input junk ZLIB_CHUNK Htr
                ltac:(done) Hpre) as Hstep.
  destruct (inflate s input ZLIB_CHUNK) as [[[s1 c1] out] ret] eqn:Einf.
  destruct Hstep as (Hc1 & Hi1 & Hout & Hroom & Htr1 & Hend).
  pose proof (prefix_drop_length p o out Ho Hout) as Hlen.
  assert (Hret : ret = Z_STREAM_END \/ ret = Z_OK \/ ret = Z_BUF_ERROR).
  { destruct (decide _); [left; apply Hend|right; apply Hend]. }
  destruct (decide (fits (o + length out))) as [Hfit|Hover].
  - right. exists s1, c1, out, ret.
    destruct (decide (i + c1 = length (gzip p))%nat) as [Hat|Hnot].
    { destruct Hend as [_ Hall]. rewrite Hall in Hfit. done. }
    destruct Hend as [Hr Hstop].
    split; [done|]. split; [done|]. split; [done|]. split; [done|].
    split; [done|].
    split; [by destruct Hr as [-> | ->]|]. split; [lia|]. split; [done|].
    intros fuel.
    rewrite (inflate_loop_S path), Einf,
      (fwrite_written path old p o out w0 Ho Hout Hfit).
    destruct Hret as [-> | [-> | ->]]; cbn [Z.eqb orb];
      by rewrite Z.eqb_refl.
  - left. intros fuel.
    destruct (fwrite_short o out Ho Hfit0 Hover Hout) as (wr & Hwr & Hfw).
    rewrite (inflate_loop_S path), Einf, Hfw.
    destruct Hret as [-> | [-> | ->]]; cbn [Z.eqb orb];
      by destruct (Z.eqb_spec wr (Z.of_nat (length out))).
Qed.

(** The inner loop: it is left with [ENOSPC], or it has taken all its
    input and the compressed text goes on. *)
Lemma inflate_loop_short (n : nat) : forall s i o input junk,
  tracks s p i o ->
  input `prefix_of` (drop i (gzip p) ++ junk) ->
  (o <= length p)%nat ->
  fits o ->
  (length p - o <= n)%nat ->
  exists fuel0,
    (forall fuel, (fuel0 <= fuel)%nat ->
       inflate_loop fuel path s input (sink o) = Done (Finish ENOSPC, stuck)) \/
    exists s' o' ret,
      (forall fuel, (fuel0 <= fuel)%nat ->
         inflate_loop fuel path s input (sink o)
           = Done (Fallthrough ret s', sink o')) /\
      tracks s' p (i + length input) o' /\
      (o' <= length p)%nat /\
      fits o' /\
      ret <> Z_STREAM_END /\
      (i + length input < length (gzip p))%nat.
Proof.
  induction n as [|n IH]; intros s i o input junk Htr Hpre Ho Hfit0 Hn.
  all: destruct (inflate_round_short s i o input junk Htr Hpre Ho Hfit0)
         as [Hfull|(s1 & c1 & out & ret & Hc1 & Hi1 & Hlen & Hfit & Htr1 & Hret
                    & Hlt & Hstop & Hrun)].
  all: try (exists 1%nat; left; intros [|fuel] Hfuel; [lia|apply Hfull]).
  all: destruct (Z.eqb_spec (Z.of_nat (length out)) ZLIB_CHUNK) as [Hchunk|Hpart].
  - unfold ZLIB_CHUNK in Hchunk. lia.
  - destruct Hstop as [->|]; [|done].
    exists 1%nat. right. exists s1, (o + length out)%nat, ret.
    split; [|done].
    intros [|fuel] Hfuel; [lia|]. rewrite Hrun.
    by destruct (Z.eqb_spec (Z.of_nat (length out)) ZLIB_CHUNK).
  - assert (Hpre1 : drop c1 input `prefix_of` (drop (i + c1) (gzip p) ++ junk)).
    { destruct Hpre as [k Hk].
      exists k. rewrite <- drop_drop, <- drop_app_le by (rewrite length_drop; lia).
      rewrite Hk, drop_app_le by lia. done. }
    destruct (IH s1 (i + c1)%nat (o + length out)%nat (drop c1 input) junk
                Htr1 Hpre1 Hlen Hfit)
      as [fuel0 [Hfull|(s' & o' & ret' & Hloop & Htr' & Ho' & Hfit' & Hret'
                        & Hlt')]].
    { unfold ZLIB_CHUNK in Hchunk. lia. }
    + exists (S fuel0). left. intros [|fuel] Hfuel; [lia|]. rewrite Hrun.
      destruct (Z.eqb_spec (Z.of_nat (length out)) ZLIB_CHUNK); [|done].
      apply Hfull. lia.
    + rewrite length_drop in Htr', Hlt'.
      replace (i + c1 + (length input - c1))%nat with (i + length input)%nat
        in Htr', Hlt' by lia.
      exists (S fuel0). right. exists s', o', ret'.
      split; [|done].
      intros [|fuel] Hfuel; [lia|]. rewrite Hrun.
      destruct (Z.eqb_spec (Z.of_nat (length out)) ZLIB_CHUNK); [|done].
      apply Hloop. lia.
  - destruct Hstop as [->|]; [|done].
    exists 1%nat. right. exists s1, (o + length out)%nat, ret.
    split; [|done].
    intros [|fuel] Hfuel; [lia|]. rewrite Hrun.
    by destruct (Z.eqb_spec (Z.of_nat (length out)) ZLIB_CHUNK).
Qed.

Variable beyond : nat -> ascii.
Hypothesis length_ok :
  Z.of_nat (String.length (base64_encode (gzip p))) < 2 ^ 32.

Local Abbreviation payload := (mkBuffer (base64_encode (gzip p)) beyond).
Local Abbreviation chunk4 := (Z.to_nat 16384).

(** The outer loop at the start of round [k]: it ends with [ENOSPC]. *)
Lemma decode_loop_short (n : nat) : forall (k : nat) s o save,
  tracks s p (3 * (chunk4 * k)) o ->
  (3 * (chunk4 * k) < length (gzip p))%nat ->
  (o <= length p)%nat ->
  fits o ->
  (length (gzip p) - 3 * (chunk4 * k) <= n)%nat ->
  exists fuel0, forall fuel, (fuel0 <= fuel)%nat ->
    decode_loop fuel path payload s 0 save (Z.of_nat (4 * (chunk4 * k)))
                (sink o)
      = Done (ENOSPC, stuck).
Proof.
  induction n as [|n IH]; intros k s o save Htr Hk Ho Hfit0 Hn; [lia|].
  set (i := (3 * (chunk4 * k))%nat) in *.
  assert (Hz : (gzip p) = take i (gzip p) ++ drop i (gzip p)) by (by rewrite take_drop).
  assert (Hz1 : length (take i (gzip p)) = (3 * (chunk4 * k))%nat)
    by (rewrite length_take; unfold i; lia).
  destruct (decide (length (drop i (gzip p)) <= 3 * chunk4)%nat) as [Hlast|Hinner].
  - (* the rest of the payload lies in this chunk *)
    destruct (decode_round_last (take i (gzip p)) (drop i (gzip p)) beyond (chunk4 * k)
                chunk4 save Hz1 Hlast) as (g & st & save' & Hdec).
    rewrite <- Hz in Hdec.
    destruct (inflate_loop_short (length p) s i o (drop i (gzip p) ++ g) g Htr
                ltac:(done) Ho Hfit0 ltac:(lia))
      as [fuel0 [Hfull|(s' & o' & ret & Hloop & Htr' & Ho' & Hfit' & Hret & Hlt)]].
    + exists (S fuel0). intros [|fuel] Hfuel; [lia|].
      rewrite (decode_loop_S gzip p path beyond), Nat2Z.id, chunk_chars, Hdec.
      cbv zeta.
      assert (Hin : length (drop i (gzip p) ++ g) <> O).
      { rewrite length_app, length_drop. lia. }
      destruct (Z.eqb_spec (Z.of_nat (length (drop i (gzip p) ++ g))) 0) as [|_]; [lia|].
      by rewrite Hfull by lia.
    + rewrite length_app, length_drop in Hlt. lia.
  - (* a full chunk inside the payload *)
    set (z2 := drop i (gzip p)) in *.
    assert (Hz2 : z2 = take (3 * chunk4) z2 ++ drop (3 * chunk4) z2)
      by (by rewrite take_drop).
    assert (Hz2a : length (take (3 * chunk4) z2) = (3 * chunk4)%nat)
      by (rewrite length_take; lia).
    destruct (decode_round_inner (take i (gzip p)) (take (3 * chunk4) z2)
                (drop (3 * chunk4) z2) beyond (chunk4 * k) chunk4 save
                Hz1 Hz2a ltac:(lia)) as (save' & Hdec).
    rewrite <- Hz2, <- Hz in Hdec.
    destruct (inflate_loop_short (length p) s i o (take (3 * chunk4) z2) []
                Htr)
      as [fuel0 [Hfull|(s' & o' & ret & Hloop & Htr' & Ho' & Hfit' & Hret & Hlt)]];
      [apply prefix_app_r, prefix_take|done|done|lia| |].
    + exists (S fuel0). intros [|fuel] Hfuel; [lia|].
      rewrite (decode_loop_S gzip p path beyond), Nat2Z.id, chunk_chars,
        Hdec, Hz2a.
      cbv zeta.
      destruct (Z.eqb_spec (Z.of_nat (3 * chunk4)) 0) as [|_]; [lia|].
      by rewrite Hfull by lia.
    + rewrite Hz2a in Htr', Hlt.
      replace (i + 3 * chunk4)%nat with (3 * (chunk4 * S k))%nat in Htr', Hlt
        by (unfold i; lia).
      destruct (IH (S k) s' o' save' Htr' Hlt Ho' Hfit'
                  ltac:(unfold i in Hn; lia))
        as [fuel1 Hrest].
      exists (S (fuel0 `max` fuel1)). intros [|fuel] Hfuel; [lia|].
      rewrite (decode_loop_S gzip p path beyond), Nat2Z.id, chunk_chars,
        Hdec, Hz2a.
      cbv zeta.
      destruct (Z.eqb_spec (Z.of_nat (3 * chunk4)) 0) as [|_]; [lia|].
      rewrite Hloop by lia.
      destruct (Z.eqb_spec ret Z_STREAM_END) as [|_]; [done|].
      assert (Hoff : u32 (Z.of_nat (4 * (chunk4 * k))
                          + u32 (Z.of_nat (3 * chunk4) * 4) / 3)
                     = Z.of_nat (4 * (chunk4 * S k))).
      { pose proof (enc_length_ge (gzip p) (chunk4 * S k) ltac:(lia)) as Hge.
        rewrite length_list_ascii_of_string in Hge.
        replace (Z.of_nat (3 * chunk4) * 4) with 196608 by lia.
        change (u32 196608 / 3) with 65536.
        unfold u32. rewrite Z.mod_small; lia. }
      rewrite Hoff. apply Hrest. lia.
Qed.

Lemma decode_loop_short_from_start :
  exists fuel0, forall fuel, (fuel0 <= fuel)%nat ->
    decode_loop fuel path payload (inflateInit2 (16 + MAX_WBITS)).2 0 0 0
                (sink 0)
      = Done (ENOSPC, stuck).
Proof.
  destruct (inflate_init _ _ zlib_ok p) as [_ Htr].
  pose proof (gzip_nonempty _ _ zlib_ok p) as Hne.
  destruct (decode_loop_short (length (gzip p)) 0
              (inflateInit2 (16 + MAX_WBITS)).2 0 0) as [fuel0 Hloop].
  - by rewrite Nat.mul_0_r.
  - rewrite Nat.mul_0_r. destruct (gzip p); [done|cbn; lia].
  - lia.
  - rewrite Z.add_0_r. etrans; [apply block_floor_le|lia].
  - lia.
  - exists fuel0. intros fuel Hfuel. specialize (Hloop fuel Hfuel).
    by rewrite Nat.mul_0_r in Hloop.
Qed.

End DiskFull.

(** X10.  A download for which the file system has too little room, the
    service delivering the base64 text of the compressed subtitle [p].
    The output stream is buffered, so what counts is where the shortage
    falls.  When a full block of the stream that is followed by more of
    the text cannot be taken, the [fwrite] that has to hand it over
    comes back short: the download ends with [ENOSPC] and "failed to
    write file" is logged.  When every full block fits and only bytes
    after the last block boundary are too many, every [fwrite] is
    accepted and the shortage shows at [fclose] only, whose result is
    dropped: the download returns 0 and logs nothing.  Either way the
    file holds of [p] what there was room for. *)
Theorem download_disk_full `{Zlib} `{XmlRpc} gzip tracks (p : list byte)
    beyond (o : options) token sub_id path (w : world) srv :
  inflates gzip tracks ->
  file_exists path w = false \/ force_overwrite o = true ->
  rpc_download (w_server w) token sub_id
    = (Reply (mkBuffer (base64_encode (gzip p)) beyond), srv) ->
  path ∉ w_denied w ->
  Z.of_nat (String.length (base64_encode (gzip p))) < 2 ^ 32 ->
  0 <= w_room w ->
  let w1 := if file_exists path w then log_info o Overwriting w else w in
  (w_room w < (Z.of_nat (length p) - 1) / stream_buffer * stream_buffer ->
   exists fuel0, forall fuel, (fuel0 <= fuel)%nat ->
     exists w',
       sub_download fuel o token sub_id path w = Done (ENOSPC, w') /\
       w_files w' = <[path := take (Z.to_nat (w_room w)) p]> (w_files w) /\
       w_out w' = w_out w1 ++ [Err WriteFailed]) /\
  (Z.of_nat (length p) / stream_buffer * stream_buffer <= w_room w
     < Z.of_nat (length p) ->
   exists fuel0, forall fuel, (fuel0 <= fuel)%nat ->
     exists w',
       sub_download fuel o token sub_id path w = Done (0, w') /\
       w_files w' = <[path := take (Z.to_nat (w_room w)) p]> (w_files w) /\
       w_out w' = w_out w1).
Proof.
  intros Hz Hfree Hrpc Hden Hlen Hroom0 w1. split.
  - intros Hstuck.
    assert (H1 : w_server w1 = w_server w /\ w_files w1 = w_files w /\
                 w_denied w1 = w_denied w /\ w_room w1 = w_room w).
    { unfold w1, log_info. by destruct (file_exists path w), (2 <=? quiet o). }
    destruct H1 as (Hs1 & Hf1 & Hd1 & Hr1).
    set (w3 := set_files (<[path := []]> (w_files (set_server srv w1)))
                         (w_room (set_server srv w1)) (set_server srv w1)).
    assert (Hold : w_files w3 !! path = Some []) by apply lookup_insert_eq.
    assert (Hr3 : w_room w3 = w_room w) by exact Hr1.
    assert (Hno : ~ (Z.of_nat (length (@nil byte)) + Z.of_nat (length p))
                      / stream_buffer * stream_buffer
                    <= Z.of_nat (length (@nil byte)) + w_room w3).
    { rewrite Hr3. change (Z.of_nat (length (@nil byte))) with 0.
      rewrite !Z.add_0_l. apply Z.nle_gt.
      eapply Z.lt_le_trans; [exact Hstuck|]. apply block_floor_mono. lia. }
    destruct (decode_loop_short_from_start gzip tracks Hz p path [] w3
                ltac:(by rewrite Hr3) Hno beyond Hlen) as [fuel0 Hloop].
    rewrite (written_start path [] p w3 Hold) in Hloop.
    destruct (inflate_init _ _ Hz p) as [Hinit _].
    exists fuel0. intros fuel Hfuel. specialize (Hloop fuel Hfuel).
    unfold sub_download.
    replace (file_exists path w && negb (force_overwrite o)) with false.
    2:{ destruct Hfree as [-> | ->]; [done|by rewrite andb_false_r]. }
    fold w1. rewrite Hs1, Hrpc.
    rewrite bool_decide_eq_false_2 by (cbn; by rewrite Hd1).
    fold w3.
    destruct (inflateInit2 (16 + MAX_WBITS)) as [z_ret strm].
    cbn [fst snd] in *.
    subst z_ret. cbn [Z.eqb Z_OK negb]. rewrite Hloop.
    eexists. split; [reflexivity|].
    unfold fclose, written, log_err.
    cbn [w_room w_files w_out set_files emit].
    rewrite Hr3.
    replace (w_room w - Z.of_nat (Z.to_nat (w_room w)) <? 0) with false
      by zbool.
    cbn [w_files w_out set_files emit app].
    unfold w3. cbn [w_files w_out set_files set_server app].
    by rewrite insert_insert_eq, Hf1.
  - intros [Hblocks Hshort].
    destruct (sub_download_stream gzip tracks p beyond o token sub_id path w
                srv Hz Hfree Hrpc Hden Hlen Hblocks) as [fuel0 Hdl].
    exists fuel0. intros fuel Hfuel.
    destruct (Hdl fuel Hfuel) as (w' & Hrun & Hfiles & _ & _ & _ & Hout).
    by exists w'.
Qed.


(** ** Option parsing *)

Lemma to_int_range v : - 2 ^ 31 <= to_int v < 2 ^ 31.
Proof.
  unfold to_int, u32. pow_numerals.
  pose proof (Z.mod_pos_bound v 4294967296 ltac:(lia)).
  destruct (v mod 4294967296 <? 2147483648) eqn:E; lia.
Qed.

(** What one option can do to the two search-mode flags and to the
    limit. *)
Lemma handle_option_keeps c optarg s s' :
  handle_option c optarg s = inr s' ->
  let o := cli_options s in
  let o' := cli_options s' in
  ((hash_search_only o', name_search_only o')
     = (hash_search_only o, name_search_only o)
   \/ (hash_search_only o', name_search_only o') = (true, false)
   \/ (hash_search_only o', name_search_only o') = (false, true)) /\
  (limit o' = limit o \/ 1 <= limit o' < 2 ^ 31).
Proof.
  unfold handle_option.
  destruct c as [[] [] [] [] [] [] [] []]; try discriminate;
    try (intros [= <-]; cbn; by auto).
  destruct (strtol optarg) as [v e].
  destruct (negb _ || _) eqn:E; [discriminate|].
  intros [= <-]. cbn. split; [by auto|right].
  apply orb_false_iff in E as [_ E%Z.ltb_ge].
  pose proof (to_int_range v). lia.
Qed.

Lemma parse_options_keeps opts : forall s s',
  parse_options opts s = inr s' ->
  hash_search_only (cli_options s) && name_search_only (cli_options s) = false ->
  1 <= limit (cli_options s) < 2 ^ 31 ->
  hash_search_only (cli_options s') && name_search_only (cli_options s') = false /\
  1 <= limit (cli_options s') < 2 ^ 31.
Proof.
  induction opts as [|[c optarg] opts IH]; intros s s'; cbn [parse_options].
  { by intros [= <-]. }
  destruct (handle_option c optarg s) as [e|s1] eqn:E; [discriminate|].
  intros Hrest Hmodes Hlimit.
  apply handle_option_keeps in E as [Hm Hl]. cbv zeta in Hm, Hl.
  apply (IH s1 s' Hrest).
  - destruct Hm as [[= -> ->]|[[= -> ->]|[= -> ->]]]; done.
  - destruct Hl as [->|]; done.
Qed.

(** X11.  Whatever options are given, the two search-mode flags are never
    both set when the parsing is through ([-o] and [-O] cancel each other,
    the later one wins), so the query array sent to the service is never
    empty: it holds the hash query, the name query, or both. *)
Theorem search_modes_exclusive opts s :
  parse_options opts default_cli = inr s ->
  hash_search_only (cli_options s) && name_search_only (cli_options s) = false /\
  forall token hash filesize filename,
    exists query queries,
      search_params (cli_options s) token hash filesize filename =
        [XScalar (XString token); XArray (query :: queries);
         XStruct [("limit", XInt (limit (cli_options s)))]].
Proof.
  intros Hparse.
  destruct (parse_options_keeps opts default_cli s Hparse eq_refl)
    as [Hmodes _]; [by vm_compute|].
  split; [exact Hmodes|].
  intros token hash filesize filename. unfold search_params.
  destruct (name_search_only (cli_options s)).
  - rewrite andb_true_r in Hmodes. rewrite Hmodes. by eexists _, _.
  - by eexists _, _.
Qed.

(** X12.  When the parsing is through, the limit is a positive [int]: the
    default 10, or the number given last with [-t], which was refused
    unless it read as a whole and was at least 1 after the cut to an
    [int]. *)
Theorem limit_is_positive opts s :
  parse_options opts default_cli = inr s ->
  1 <= limit (cli_options s) < 2 ^ 31.
Proof.
  intros Hparse.
  destruct (parse_options_keeps opts default_cli s Hparse eq_refl)
    as [_ Hlimit]; [by vm_compute|].
  exact Hlimit.
Qed.

Lemma handle_option_quiet c optarg s s' :
  handle_option c optarg s = inr s' ->
  quiet (cli_options s') =
    if Ascii.eqb c "q" then u32 (quiet (cli_options s) + 1)
    else quiet (cli_options s).
Proof.
  unfold handle_option.
  destruct c as [[] [] [] [] [] [] [] []]; try discriminate;
    try (intros [= <-]; reflexivity).
  destruct (strtol optarg) as [v e].
  destruct (negb _ || _); [discriminate|].
  intros [= <-]. reflexivity.
Qed.

Lemma parse_options_quiet opts : forall s s',
  parse_options opts s = inr s' ->
  0 <= quiet (cli_options s) ->
  quiet (cli_options s) + Z.of_nat (count_option "q" opts) < 2 ^ 32 ->
  quiet (cli_options s') =
    quiet (cli_options s) + Z.of_nat (count_option "q" opts).
Proof.
  induction opts as [|[c optarg] opts IH]; intros s s'; cbn [parse_options].
  { intros [= <-] _ _. cbn. lia. }
  destruct (handle_option c optarg s) as [e|s1] eqn:E; [discriminate|].
  intros Hrest H0 Hmax. apply handle_option_quiet in E.
  unfold count_option in *. rewrite filter_cons in *. cbn [fst] in *.
  destruct (decide (c = "q"%char)) as [->|Hc].
  - cbn [length] in *. rewrite Ascii.eqb_refl in E.
    assert (Hq1 : quiet (cli_options s1) = quiet (cli_options s) + 1).
    { rewrite E. unfold u32. apply Z.mod_small. lia. }
    rewrite (IH s1 s' Hrest); lia.
  - apply Ascii.eqb_neq in Hc. rewrite Hc in E.
    rewrite (IH s1 s' Hrest); lia.
Qed.

(** X16.  [quiet] counts the [-q] options.  So one [-q] is enough to keep
    the table from being printed when no question is asked (the test
    [!quiet]), and from the second [-q] on [log_info] prints nothing. *)
Theorem quiet_counts opts s :
  parse_options opts default_cli = inr s ->
  Z.of_nat (count_option "q" opts) < 2 ^ 32 ->
  quiet (cli_options s) = Z.of_nat (count_option "q" opts) /\
  ((quiet (cli_options s) =? 0) = true <-> count_option "q" opts = 0%nat) /\
  ((2 <= count_option "q" opts)%nat ->
   forall `{XmlRpc} m (w : world), log_info (cli_options s) m w = w).
Proof.
  intros Hparse Hmax.
  pose proof (parse_options_quiet opts default_cli s Hparse) as Hq.
  cbn [default_cli default_options cli_options quiet] in Hq.
  rewrite Z.add_0_l in Hq. specialize (Hq ltac:(lia) Hmax).
  split; [exact Hq|]. split.
  - rewrite Hq, Z.eqb_eq. lia.
  - intros Htwice ? m w. unfold log_info. rewrite Hq.
    by replace (2 <=? Z.of_nat (count_option "q" opts)) with true by zbool.
Qed.

(** [strtol] on the numeral of a negative number. *)
Lemma strtol_fmt_neg n rest :
  0 < n ->
  digit_of (char_at 0 rest) = None ->
  strtol (String "-" (fmt_digits n "") +:+ rest) =
    (Z.max LONG_MIN (- n), S (String.length (fmt_digits n ""))).
Proof.
  intros H0 Hrest. rewrite str_app_cons, <- fmt_digits_acc.
  pose proof (read_digits_fmt n rest 0 ltac:(lia)) as Hread.
  assert (Hlen : String.length (fmt_digits n "") <> 0%nat).
  { destruct (fmt_digits_head n "" ltac:(lia)) as (? & ? & _ & ->). done. }
  assert (Hstop : read_digits rest n (String.length (fmt_digits n ""))
                  = (n, String.length (fmt_digits n ""))).
  { destruct rest as [|c rest]; [done|].
    cbn [char_at] in Hrest. cbn [read_digits]. by rewrite Hrest. }
  unfold strtol. cbn [skip_spaces isspace]. cbn [str_from].
  change (isspace "-") with false. cbn [str_from].
  rewrite Hread, Nat.add_0_l, Hstop.
  destruct (String.length (fmt_digits n "")); [done|]. reflexivity.
Qed.

(** X13.  The argument of [-t]: the numeral of every [k] from 1 to
    [INT_MAX] sets the limit to [k]; the numeral of 0 or of a negative
    number is refused, and so is a numeral with anything after it. *)
Theorem limit_argument s :
  (forall k, 1 <= k < 2 ^ 31 ->
     handle_option "t" (fmt_i k) s =
       inr (mkCli (set_limit k (cli_options s)) (cli_list_languages s))) /\
  (forall k, - 2 ^ 31 <= k <= 0 ->
     handle_option "t" (fmt_i k) s = inl (ExitInvalidLimit (fmt_i k))) /\
  (forall k c rest,
     0 <= k -> digit_of c = None -> c <> Ascii.zero ->
     handle_option "t" (fmt_i k +:+ String c rest) s =
       inl (ExitInvalidLimit (fmt_i k +:+ String c rest))).
Proof.
  split; [|split].
  - intros k Hk. unfold handle_option, fmt_i.
    replace (k <? 0) with false by zbool.
    rewrite <- (str_app_nil_r (fmt_digits k "")) at 1.
    rewrite strtol_fmt by (done || lia).
    rewrite Z.min_r by (unfold LONG_MAX; pow_numerals; lia).
    rewrite <- (str_app_nil_r (fmt_digits k "")) at 2.
    rewrite char_at_app_length. cbn [char_at].
    assert (Hint : to_int k = k).
    { unfold to_int, u32. pow_numerals. rewrite Z.mod_small by lia.
      destruct (k <? 2147483648) eqn:E; lia. }
    rewrite Hint. replace (k <? 1) with false by zbool.
    reflexivity.
  - intros k Hk. unfold handle_option.
    assert (Hread : exists e, strtol (fmt_i k) = (k, e)).
    { unfold fmt_i. destruct (Z.ltb_spec k 0) as [Hneg|Hzero].
      - rewrite <- (str_app_nil_r (String "-" _)).
        rewrite strtol_fmt_neg by (done || lia).
        rewrite Z.max_r by (unfold LONG_MIN; pow_numerals; lia).
        replace (- - k) with k by lia. by eexists.
      - assert (k = 0) as -> by lia. by eexists. }
    destruct Hread as [e ->].
    assert (Hint : to_int k <= 0).
    { unfold to_int, u32. pow_numerals.
      destruct (Z.eq_dec k 0) as [->|Hk0]; [done|].
      assert (Hm : k mod 4294967296 = k + 4294967296).
      { symmetry. apply (Z.mod_unique _ _ (-1)); [left|]; lia. }
      rewrite Hm. destruct (k + 4294967296 <? 2147483648) eqn:E; lia. }
    replace (to_int k <? 1) with true by zbool.
    by rewrite orb_true_r.
  - intros k c rest Hk Hc Hnz. unfold handle_option, fmt_i.
    replace (k <? 0) with false by zbool.
    rewrite strtol_fmt by done.
    rewrite char_at_app_length. cbn [char_at].
    replace (Ascii.eqb c zero) with false; [done|].
    symmetry. by apply Ascii.eqb_neq.
Qed.


(** ** The search query *)

Lemma hex_digit_char d : 0 <= d < 16 -> hex_digit (hex_char d) = Some d.
Proof.
  intros Hd.
  assert (Hc : d = 0 \/ d = 1 \/ d = 2 \/ d = 3 \/ d = 4 \/ d = 5 \/ d = 6
               \/ d = 7 \/ d = 8 \/ d = 9 \/ d = 10 \/ d = 11 \/ d = 12
               \/ d = 13 \/ d = 14 \/ d = 15) by lia.
  repeat (destruct Hc as [-> | Hc]; [reflexivity|]). by subst.
Qed.

Lemma fmt_hex_length k : forall n acc,
  String.length (fmt_hex k n acc) = (k + String.length acc)%nat.
Proof.
  induction k as [|k IH]; intros n acc; cbn [fmt_hex]; [done|].
  rewrite IH. cbn [String.length]. lia.
Qed.

(** Reading the digits that [fmt_hex] has written gives the number back,
    as far as the digits go. *)
Lemma hex_value_fmt k : forall n acc,
  hex_value (fmt_hex k n acc) 0 = hex_value acc (n mod 16 ^ Z.of_nat k).
Proof.
  induction k as [|k IH]; intros n acc; cbn [fmt_hex].
  { by rewrite Z.mod_1_r. }
  rewrite IH. cbn [hex_value].
  rewrite hex_digit_char by (apply Z.mod_pos_bound; lia).
  f_equal. rewrite Nat2Z.inj_succ, Z.pow_succ_r by lia.
  rewrite Z.rem_mul_r by lia. lia.
Qed.

(** X14.  The hash-based query holds the language, the hash as exactly 16
    lowercase hexadecimal digits and the size as a decimal numeral; both
    read back as the 64-bit values they were made from, so that queries
    for different hashes or sizes differ. *)
Theorem hash_query_format o hash filesize :
  exists h b,
    hash_query o hash filesize =
      [("sublanguageid", XString (lang o)); ("moviehash", XString h);
       ("moviebytesize", XString b)] /\
    String.length h = 16%nat /\
    hex_value h 0 = Some (u64 hash) /\
    read_digits b 0 0 = (u64 filesize, String.length b).
Proof.
  exists (fmt_016x hash), (fmt_u64 filesize).
  split; [reflexivity|]. split; [apply fmt_hex_length|]. split.
  - unfold fmt_016x. rewrite hex_value_fmt. cbn [hex_value].
    f_equal. unfold u64. change (16 ^ Z.of_nat 16) with (2 ^ 64).
    apply Z.mod_mod. by pow_numerals.
  - unfold fmt_u64.
    rewrite read_digits_fmt by (apply Z.mod_pos_bound; by pow_numerals).
    reflexivity.
Qed.

(** ** The name searched for *)

Lemma contains_str_from c i : forall s,
  contains c s = false -> contains c (str_from i s) = false.
Proof.
  induction i as [|i IH]; intros [|a s]; cbn [str_from contains]; try done.
  intros [_ Hs]%orb_false_iff. by apply IH.
Qed.

Lemma strrchr_str_from s c i :
  strrchr s c = Some i -> contains c (str_from (S i) s) = false.
Proof.
  revert i. induction s as [|a s IH]; intros i; cbn [strrchr]; [done|].
  destruct (strrchr s c) as [j|] eqn:E.
  - intros [= <-]. cbn [str_from]. by apply IH.
  - destruct (Ascii.eqb a c); [|done]. intros [= <-]. cbn [str_from].
    by apply strrchr_None.
Qed.

(** X15.  The name that [process_file] searches for is the last component
    of the path: it holds no slash, it is what follows the last slash of
    the path, and it is the path itself when that has no slash.  A path
    that ends in a slash gives the empty name. *)
Theorem base_name_spec :
  (forall filepath, contains "/" (base_name filepath) = false) /\
  (forall dir name, contains "/" name = false ->
     base_name (dir +:+ "/" +:+ name) = name) /\
  (forall name, contains "/" name = false -> base_name name = name).
Proof.
  split; [|split].
  - intros filepath. unfold base_name.
    destruct (strrchr filepath "/") as [i|] eqn:E.
    + by apply strrchr_str_from.
    + by apply strrchr_None.
  - intros dir name Hname. unfold base_name.
    rewrite str_app_cons, str_app_nil, strrchr_app_last by done.
    change (String "/" name) with ("/" +:+ name).
    rewrite <- string_app_assoc.
    replace (S (String.length dir)) with (String.length (dir +:+ "/"))
      by (rewrite string_length_app; cbn; lia).
    apply str_from_app.
  - intros name Hname. unfold base_name.
    apply strrchr_None in Hname. by rewrite Hname.
Qed.

Lemma base_name_spec_example :
  contains "/" "m.mkv" = false /\
  base_name ("/a/b" +:+ "/" +:+ "m.mkv") = "m.mkv" /\
  base_name "m.mkv" = "m.mkv" /\
  base_name ("/a/b" +:+ "/" +:+ "") = "".
Proof.
  destruct base_name_spec as (_ & Hdir & Hbare).
  split; [reflexivity|]. split; [by apply Hdir|]. split; [by apply Hbare|].
  by apply Hdir.
Defined.


(** ** The table *)

Lemma count_digits_eq n dc :
  count_digits n dc =
    if Z.eq_dec n 0 then dc else count_digits (n ÷ 10) (dc + 1).
Proof.
  rewrite count_digits_equation_1. destruct (Z.eq_dec n 0); reflexivity.
Qed.

Lemma fmt_digits_length_S n :
  10 <= n ->
  String.length (fmt_digits n "") = S (String.length (fmt_digits (n / 10) "")).
Proof.
  intros Hn. rewrite (fmt_digits_eq n "").
  destruct (Z_lt_dec n 10); [lia|].
  rewrite fmt_digits_acc, string_length_app. cbn [String.length]. lia.
Qed.

Lemma fmt_digits_length_1 n :
  n < 10 -> String.length (fmt_digits n "") = 1%nat.
Proof.
  intros Hn. rewrite (fmt_digits_eq n "").
  destruct (Z_lt_dec n 10); [done|lia].
Qed.

(** The loop counts the decimal digits. *)
Lemma count_digits_fmt n : forall dc,
  1 <= n -> count_digits n dc = dc + strlen (fmt_digits n "").
Proof.
  unfold strlen.
  induction n as [n Hn|n Hn IH] using fmt_digits_ind; intros dc H1;
    rewrite count_digits_eq; destruct (Z.eq_dec n 0); try lia.
  - rewrite Z.quot_small by lia. rewrite count_digits_eq. cbn [Z.eq_dec].
    destruct (Z.eq_dec 0 0); [|done].
    rewrite fmt_digits_length_1 by done. lia.
  - rewrite Z.quot_div_nonneg by lia.
    rewrite IH by (apply Z.div_le_lower_bound; lia).
    rewrite (fmt_digits_length_S n) by done. lia.
Qed.

(** A smaller number has no more digits. *)
Lemma fmt_digits_length_mono b : forall a,
  0 <= a <= b ->
  (String.length (fmt_digits a "") <= String.length (fmt_digits b ""))%nat.
Proof.
  induction b as [b Hb|b Hb IH] using fmt_digits_ind; intros a Ha.
  - rewrite !fmt_digits_length_1 by lia. done.
  - rewrite (fmt_digits_length_S b) by done.
    destruct (Z_lt_dec a 10) as [Hsmall|Hbig].
    + rewrite fmt_digits_length_1 by done. lia.
    + rewrite (fmt_digits_length_S a) by lia.
      apply le_n_S, IH. split; [apply Z.div_pos; lia|].
      apply Z.div_le_mono; lia.
Qed.

(** *** Cells *)

Lemma spaces_length n : String.length (spaces n) = n.
Proof. induction n as [|n IH]; cbn [spaces String.length]; by rewrite ?IH. Qed.

Lemma pad_right_length width s :
  strlen (pad_right width s) = Z.max (strlen s) (Z.abs width).
Proof.
  unfold pad_right, strlen. rewrite string_length_app, spaces_length. lia.
Qed.

Lemma plain_app s t : plain (s +:+ t) = plain s && plain t.
Proof.
  induction s as [|a s IH]; rewrite ?str_app_nil, ?str_app_cons;
    cbn [plain]; [done|].
  by rewrite IH, andb_assoc.
Qed.

Lemma plain_spaces n : plain (spaces n) = true.
Proof. induction n as [|n IH]; cbn [spaces plain]; [done|]. by rewrite IH. Qed.

Lemma plain_pad_right width s : plain s = true -> plain (pad_right width s) = true.
Proof. intros Hs. unfold pad_right. by rewrite plain_app, Hs, plain_spaces. Qed.

Lemma plain_digit d : 0 <= d <= 9 -> leads3 (digit_char d) = false.
Proof.
  intros Hd.
  assert (Hc : d = 0 \/ d = 1 \/ d = 2 \/ d = 3 \/ d = 4 \/ d = 5 \/ d = 6
               \/ d = 7 \/ d = 8 \/ d = 9) by lia.
  repeat (destruct Hc as [-> | Hc]; [reflexivity|]). by subst.
Qed.

Lemma plain_fmt_digits n : forall acc,
  0 <= n -> plain acc = true -> plain (fmt_digits n acc) = true.
Proof.
  induction n as [n Hn|n Hn IH] using fmt_digits_ind; intros acc H0 Hacc;
    rewrite fmt_digits_eq; destruct (Z_lt_dec n 10); try lia.
  - cbn [plain]. by rewrite plain_digit, Hacc by lia.
  - apply IH; [apply Z.div_pos; lia|].
    cbn [plain]. rewrite plain_digit, Hacc; [done|].
    pose proof (Z.mod_pos_bound n 10). lia.
Qed.

(** *** Columns *)

Lemma symbols_plain s t (k : nat) :
  plain s = true ->
  symbols (s +:+ t) !! (String.length s + k)%nat = symbols t !! k.
Proof.
  induction s as [|a s IH]; rewrite ?str_app_nil, ?str_app_cons; [done|].
  cbn [plain symbols String.length].
  intros [Ha%negb_true_iff Hs]%andb_true_iff. rewrite Ha. by apply IH.
Qed.

(** Past a cell of [width] one-byte symbols. *)
Lemma column_skip width k cell t :
  plain cell = true -> strlen cell = width -> 0 <= k ->
  column (width + k) (cell +:+ t) = column k t.
Proof.
  intros Hplain <- Hk. unfold column, strlen.
  replace (Z.of_nat (String.length cell) + k <? 0) with false by zbool.
  replace (k <? 0) with false by zbool.
  rewrite Z2Nat.inj_add, Nat2Z.id by lia. by apply symbols_plain.
Qed.

(** The separator line from column [j] on. *)
Lemma separator_symbols dc m : forall j (k : nat),
  (k < m)%nat ->
  symbols (foldr (fun i rest =>
                    (if (i =? dc + 1) || (i =? dc + 1 + 4)
                        || (i =? dc + 1 + 4 + 6)
                     then SEP_CROSS else SEP_HORIZONTAL) +:+ rest)
                 newline (Z.of_nat <$> seq j m)) !! k =
    Some (if (Z.of_nat (j + k) =? dc + 1) || (Z.of_nat (j + k) =? dc + 1 + 4)
             || (Z.of_nat (j + k) =? dc + 1 + 4 + 6)
          then SEP_CROSS else SEP_HORIZONTAL).
Proof.
  induction m as [|m IH]; intros j k Hk; [lia|].
  cbn [seq]. rewrite fmap_cons. cbn [foldr].
  set (rest := foldr _ _ _).
  assert (Hsym : forall b : bool,
            symbols ((if b then SEP_CROSS else SEP_HORIZONTAL) +:+ rest) =
              (if b then SEP_CROSS else SEP_HORIZONTAL) :: symbols rest)
    by (by intros []).
  rewrite Hsym. destruct k as [|k].
  - by rewrite Nat.add_0_r.
  - rewrite lookup_cons. unfold rest.
    rewrite (IH (S j) k) by lia.
    by replace (S j + k)%nat with (j + S k)%nat by lia.
Qed.

Lemma column_separator c dc k :
  0 <= k < c ->
  column k (print_separator c dc) =
    Some (if (k =? dc + 1) || (k =? dc + 5) || (k =? dc + 11)
          then SEP_CROSS else SEP_HORIZONTAL).
Proof.
  intros Hk. unfold column, print_separator.
  replace (k <? 0) with false by zbool.
  rewrite (separator_symbols dc (Z.to_nat c) 0 (Z.to_nat k)) by lia.
  rewrite Nat.add_0_l, Z2Nat.id by lia.
  by replace (dc + 1 + 4) with (dc + 5) by lia;
     replace (dc + 5 + 6) with (dc + 11) by lia.
Qed.

(** The width of the number cell of an entry. *)
Lemma index_cell n i :
  1 <= n -> 0 <= i < n ->
  plain (pad_right (count_digits n 0) (fmt_i (i + 1))) = true /\
  strlen (pad_right (count_digits n 0) (fmt_i (i + 1))) = count_digits n 0.
Proof.
  intros Hn Hi. unfold fmt_i.
  replace (i + 1 <? 0) with false by zbool.
  split.
  - apply plain_pad_right, plain_fmt_digits; [lia|done].
  - rewrite pad_right_length, count_digits_fmt, Z.add_0_l by done.
    pose proof (fmt_digits_length_mono n (i + 1) ltac:(lia)).
    unfold strlen. lia.
Qed.

Lemma count_digits_pos n : 1 <= n -> 1 <= count_digits n 0.
Proof.
  intros Hn. rewrite count_digits_fmt by done. unfold strlen.
  destruct (fmt_digits_head n "" ltac:(lia)) as (d & s & _ & ->).
  cbn [String.length]. lia.
Qed.

(** X17.  The number column of the table is as wide as the largest number
    in it: for a table of [n >= 1] entries, [digit_count] is the number of
    decimal digits of [n], no entry number has more digits, and so every
    number cell, padded, is exactly [digit_count] bytes wide. *)
Theorem digit_count_fits n :
  1 <= n ->
  count_digits n 0 = strlen (fmt_i n) /\
  forall i, 0 <= i < n ->
    strlen (fmt_i (i + 1)) <= count_digits n 0 /\
    strlen (pad_right (count_digits n 0) (fmt_i (i + 1))) = count_digits n 0.
Proof.
  intros Hn. split.
  - unfold fmt_i. replace (n <? 0) with false by zbool.
    by rewrite count_digits_fmt.
  - intros i Hi. split; [|by apply index_cell].
    unfold fmt_i. replace (i + 1 <? 0) with false by zbool.
    rewrite count_digits_fmt by done.
    pose proof (fmt_digits_length_mono n (i + 1) ltac:(lia)).
    unfold strlen. lia.
Qed.

Lemma digit_count_fits_example :
  1 <= 12 /\ count_digits 12 0 = 2 /\
  strlen (pad_right (count_digits 12 0) (fmt_i (8 + 1))) = count_digits 12 0.
Proof.
  split; [lia|]. split; [by vm_compute|].
  destruct (digit_count_fits 12 ltac:(lia)) as [_ Hcell].
  by apply Hcell.
Defined.

(** X18.  The lines of the table line up.  In a table of [n >= 1] entries
    the header, the line of every entry and the line with its file name
    have their first two vertical bars in columns [digit_count + 1] and
    [digit_count + 5]; the header and the file-name lines have the third
    in column [digit_count + 11], and so has the line of an entry whose
    language code is three one-byte characters.  The separator line is [c]
    symbols long, longer than that, with a cross in these three columns
    and a horizontal bar everywhere else. *)
Theorem table_lines_up n align i info :
  1 <= n -> 0 <= i < n ->
  let dc := count_digits n 0 in
  let c := strlen (table_header dc align) - 5 in
  let bars line :=
    column (dc + 1) line = Some SEP_VERTICAL /\
    column (dc + 5) line = Some SEP_VERTICAL in
  bars (table_header dc align) /\
  bars (table_entry_line dc align i info) /\
  bars (table_file_line dc info) /\
  column (dc + 11) (table_header dc align) = Some SEP_VERTICAL /\
  column (dc + 11) (table_file_line dc info) = Some SEP_VERTICAL /\
  (plain (sub_lang info) = true -> strlen (sub_lang info) = 3 ->
   column (dc + 11) (table_entry_line dc align i info) = Some SEP_VERTICAL) /\
  dc + 11 < c /\
  forall k, 0 <= k < c ->
    column k (print_separator c dc) =
      Some (if (k =? dc + 1) || (k =? dc + 5) || (k =? dc + 11)
            then SEP_CROSS else SEP_HORIZONTAL).
Proof.
  intros Hn Hi dc c bars.
  pose proof (count_digits_pos n Hn) as Hdc. fold dc in Hdc.
  assert (Hhead : plain (pad_right dc "#") = true /\
                  strlen (pad_right dc "#") = dc).
  { split; [by apply plain_pad_right|].
    rewrite pad_right_length. unfold strlen. cbn [String.length]. lia. }
  assert (Hblank : plain (pad_right dc "") = true /\
                   strlen (pad_right dc "") = dc).
  { split; [by apply plain_pad_right|].
    rewrite pad_right_length. unfold strlen. cbn [String.length]. lia. }
  destruct (index_cell n i Hn Hi) as [Hip Hil]. fold dc in Hip, Hil.
  destruct Hhead as [Hhp Hhl], Hblank as [Hbp Hbl].
  unfold bars, table_header, table_entry_line, table_file_line.
  rewrite !(column_skip dc _ (pad_right dc "#")) by (done || lia).
  rewrite !(column_skip dc _ (pad_right dc "")) by (done || lia).
  rewrite !(column_skip dc _ (pad_right dc (fmt_i (i + 1)))) by (done || lia).
  split; [split; reflexivity|].
  split; [destruct (matched_by_hash info); split; reflexivity|].
  split; [split; reflexivity|].
  split; [reflexivity|]. split; [reflexivity|]. split; [|split].
  - intros Hlp Hll.
    assert (Hmark : forall t,
              column 11 (" " +:+ SEP_VERTICAL +:+ " "
                         +:+ (if matched_by_hash info then "*" else " ")
                         +:+ " " +:+ SEP_VERTICAL +:+ " " +:+ t)
              = column 4 t)
      by (intros t; destruct (matched_by_hash info); reflexivity).
    rewrite Hmark.
    rewrite (column_skip 3 1 (sub_lang info)) by (done || lia).
    reflexivity.
  - unfold c, table_header, strlen.
    rewrite !string_length_app.
    pose proof (pad_right_length dc "#") as H1.
    pose proof (pad_right_length align HEADER_RELEASE_NAME) as H2.
    unfold strlen in H1, H2. cbn [String.length HEADER_RELEASE_NAME] in *.
    lia.
  - intros k Hk. by apply column_separator.
Qed.

Lemma table_lines_up_example :
  column (1 + 1) (table_entry_line 1 19 0 (parse_result by_hash))
    = Some SEP_VERTICAL /\
  column (1 + 11) (table_entry_line 1 19 0 (parse_result by_hash))
    = Some SEP_VERTICAL /\
  column (1 + 11) (print_separator (strlen (table_header 1 19) - 5) 1)
    = Some SEP_CROSS /\
  column (1 + 12) (print_separator (strlen (table_header 1 19) - 5) 1)
    = Some SEP_HORIZONTAL.
Proof.
  destruct (table_lines_up 1 19 0 (parse_result by_hash) ltac:(lia) ltac:(lia))
    as (_ & [Hbar _] & _ & _ & _ & Hthird & _ & Hsep).
  split; [exact Hbar|]. split; [by apply Hthird|].
  split; [by apply (Hsep (1 + 11))|by apply (Hsep (1 + 12))].
Defined.

(** The widest name found by the scan. *)
Lemma widest_spec infos : forall align,
  align <= widest align infos /\
  (forall info, info ∈ infos ->
     strlen (release_name info) <= widest align infos /\
     strlen (filename info) <= widest align infos) /\
  (widest align infos = align \/
   exists info, info ∈ infos /\
     (widest align infos = strlen (release_name info) \/
      widest align infos = strlen (filename info))).
Proof.
  induction infos as [|x infos IH]; intros align.
  { split; [done|]. split; [|by left]. by intros info ?%elem_of_nil. }
  change (widest align (x :: infos))
    with (widest (Z.max (Z.max align (strlen (release_name x)))
                        (strlen (filename x))) infos).
  destruct (IH (Z.max (Z.max align (strlen (release_name x)))
                      (strlen (filename x)))) as (Hge & Hall & Hwit).
  split; [lia|]. split.
  - intros info [->|Hin]%elem_of_cons; [lia|by apply Hall].
  - destruct Hwit as [Heq|(info & Hin & Hw)].
    + destruct (Z.max_spec (Z.max align (strlen (release_name x)))
                           (strlen (filename x))) as [[_ Hm]|[_ Hm]];
        [right; exists x; split; [by apply elem_of_cons; left|right; lia]|].
      destruct (Z.max_spec align (strlen (release_name x))) as [[_ Hm']|[_ Hm']];
        [right; exists x; split; [by apply elem_of_cons; left|left; lia]|].
      left. lia.
    + right. exists info. split; [by apply elem_of_cons; right|done].
Qed.

(** X19.  The name column is as wide as its widest content and no wider:
    the width that the scan of the results hands to the table is at least
    the length of the column title and of every release name and file
    name, and it is one of these lengths; so the title and every release
    name, padded, are exactly that wide. *)
Theorem release_name_column (results : list result) :
  let '(_, align, infos) := scan_results results in
  infos = parse_result <$> results /\
  strlen (pad_right align HEADER_RELEASE_NAME) = align /\
  (forall info, info ∈ infos ->
     strlen (filename info) <= align /\
     strlen (pad_right align (release_name info)) = align) /\
  (align = strlen HEADER_RELEASE_NAME \/
   exists info, info ∈ infos /\
     (align = strlen (release_name info) \/ align = strlen (filename info))).
Proof.
  rewrite scan_results_spec.
  destruct (widest_spec (parse_result <$> results) (strlen HEADER_RELEASE_NAME))
    as (Hge & Hall & Hwit).
  assert (H0 : 0 <= strlen HEADER_RELEASE_NAME) by (unfold strlen; lia).
  split; [done|]. split; [|split; [|done]].
  - rewrite pad_right_length. lia.
  - intros info Hin. destruct (Hall info Hin) as [Hr Hf].
    split; [done|]. rewrite pad_right_length. lia.
Qed.


(** ** Reads of [sub_infos] stay inside the array *)

Lemma table_list_bounds sub_infos n c dc align todo : forall i,
  0 <= i ->
  is_Some (table_list sub_infos n c dc align i todo) <->
  (todo = O \/ Z.to_nat i + todo <= length sub_infos)%nat.
Proof.
  induction todo as [|todo IH]; intros i Hi; cbn [table_list].
  { split; [by left|by eexists]. }
  destruct (sub_infos !! Z.to_nat i) as [info|] eqn:E; cbn.
  - apply lookup_lt_Some in E.
    specialize (IH (i + 1) ltac:(lia)).
    destruct (table_list sub_infos n c dc align (i + 1) todo) as [rest|]; cbn.
    + split; [|by eexists]. intros _. right.
      destruct IH as [[->|IH] _]; [by eexists|lia|lia].
    + split; [by intros [? ?]|]. intros [|Hlen]; [done|].
      destruct IH as [_ IH]. destruct IH as [? ?]; [right; lia|done].
  - apply lookup_ge_None in E. split; [by intros [? ?]|].
    intros [|Hlen]; [done|lia].
Qed.

(** X20.  [print_table] reads [sub_infos[0]] to [sub_infos[n - 1]]: it is
    defined exactly when the array has at least [n] entries.  With [n] the
    length of the array, as [download_chosen_results] calls it, it always
    is. *)
Theorem print_table_in_bounds sub_infos align :
  (forall n, 0 <= n ->
     is_Some (print_table sub_infos n align) <->
     (Z.to_nat n <= length sub_infos)%nat) /\
  is_Some (print_table sub_infos (Z.of_nat (length sub_infos)) align).
Proof.
  assert (Hiff : forall n, 0 <= n ->
            is_Some (print_table sub_infos n align) <->
            (Z.to_nat n <= length sub_infos)%nat).
  { intros n Hn. unfold print_table.
    set (dc := count_digits n 0).
    set (c := strlen (table_header dc align) - 5).
    pose proof (table_list_bounds sub_infos n c dc align (Z.to_nat n) 0
                  ltac:(lia)) as Hlist.
    destruct (table_list sub_infos n c dc align 0 (Z.to_nat n)) as [text|]; cbn.
    - split; [|by eexists]. intros _.
      destruct Hlist as [[Hz|Hlen] _]; [by eexists|lia|lia].
    - split; [by intros [? ?]|]. intros Hlen.
      destruct Hlist as [_ Hlist]. destruct Hlist as [? ?]; [right; lia|done]. }
  split; [exact Hiff|]. apply Hiff; lia.
Qed.

Section Bounds.
Context `{Zlib} `{XmlRpc}.
Implicit Types (w : world) (o : options) (infos : list sub_info).

Lemma inflate_loop_no_crash fuel : forall path strm input w,
  inflate_loop fuel path strm input w <> Crash.
Proof.
  induction fuel as [|fuel IH]; intros path strm input w; cbn [inflate_loop];
    [done|].
  destruct (inflate strm input ZLIB_CHUNK) as [[[strm' consumed] out] ret].
  destruct (_ || _); [done|].
  destruct (fwrite path out w) as [written w1].
  destruct (negb _); [done|].
  destruct (_ =? ZLIB_CHUNK); [apply IH|done].
Qed.

Lemma decode_loop_no_crash fuel : forall path buf strm st sv off w,
  decode_loop fuel path buf strm st sv off w <> Crash.
Proof.
  induction fuel as [|fuel IH]; intros path buf strm st sv off w;
    cbn [decode_loop]; [done|].
  destruct (g_base64_decode_step _ _ _) as [[z_in st'] sv'].
  destruct (_ =? 0); [done|].
  pose proof (inflate_loop_no_crash fuel path strm z_in w) as Hin.
  destruct (inflate_loop fuel path strm z_in w) as [[[r1|z_ret strm'] w1]| |];
    try done.
  destruct (z_ret =? Z_STREAM_END); [done|apply IH].
Qed.

Lemma sub_download_no_crash fuel o token sub_id path w :
  sub_download fuel o token sub_id path w <> Crash.
Proof.
  unfold sub_download.
  destruct (_ && _); [done|].
  destruct (rpc_download _ _ _) as [[code|buf] srv]; [done|].
  destruct (bool_decide _); [done|].
  destruct (inflateInit2 _) as [z_ret strm].
  destruct (negb _); [done|].
  pose proof (decode_loop_no_crash fuel path buf strm 0 0 0
                (set_files (<[path := []]> (w_files (set_server srv
                   (if file_exists path w then log_info o Overwriting w else w))))
                   (w_room (set_server srv
                   (if file_exists path w then log_info o Overwriting w else w)))
                   (set_server srv
                   (if file_exists path w then log_info o Overwriting w else w))))
    as Hloop.
  by destruct (decode_loop _ _ _ _ _ _ _ _) as [[r w1]| |].
Qed.

(** The index of the download step is inside the array, and a path can be
    derived. *)
Lemma fetch_no_crash fuel o filepath token infos sel w :
  1 <= sel <= Z.of_nat (length infos) ->
  same_name o = false \/ filepath <> "" ->
  fetch fuel o filepath token infos sel w <> Crash.
Proof.
  intros Hsel Hpath. unfold fetch.
  replace (sel - 1 <? 0) with false by zbool.
  destruct (infos !! Z.to_nat (sel - 1)) as [info|] eqn:E.
  2:{ apply lookup_ge_None in E. lia. }
  assert (Hsub : is_Some (get_sub_path o filepath (filename info))).
  { unfold get_sub_path. destruct (same_name o) eqn:Hsame.
    - destruct Hpath as [|Hne]; [done|].
      assert (Hidx : 0 <= same_name_index filepath).
      { unfold same_name_index, strlen.
        destruct (strrchr filepath "."); [lia|].
        destruct filepath; [done|]. cbn [String.length]. lia. }
      replace (same_name_index filepath <? 0) with false by zbool.
      by eexists.
    - destruct (strrchr filepath "/"); by eexists. }
  destruct Hsub as [p ->]. apply sub_download_no_crash.
Qed.

Lemma read_choice_range n lines :
  let sel := (read_choice n lines).1.1 in sel <= 0 \/ 1 <= sel <= n.
Proof.
  induction lines as [|l lines IH]; cbn [read_choice]; [left; done|].
  destruct (_ || _); [left; done|].
  destruct (valid_choice n l) eqn:Hv.
  - right. cbn [fst]. by apply valid_choice_range.
  - by destruct (read_choice n lines) as [[sel rest] k].
Qed.

Lemma ask_loop_no_crash fuel : forall o filepath token infos align sel w,
  same_name o = false \/ filepath <> "" ->
  ask_loop fuel o filepath token infos align (Z.of_nat (length infos)) sel w
    <> Crash.
Proof.
  induction fuel as [|fuel IH]; intros o filepath token infos align sel w Hpath;
    cbn [ask_loop]; destruct (_ || _); try done.
  unfold select_1_out_of.
  pose proof (read_choice_range (Z.of_nat (length infos))
                (w_stdin (emit (Table infos align) w))) as Hrange.
  destruct (read_choice _ _) as [[sel1 rest] k]. cbn [fst] in Hrange.
  cbv zeta in Hrange.
  destruct (Z.leb_spec sel1 0) as [|Hpos]; [done|].
  pose proof (fetch_no_crash fuel o filepath token infos sel1
                (set_stdin rest
                   (foldr (fun _ => emit (Prompt (Z.of_nat (length infos))))
                          (emit (Table infos align) w) (replicate k tt)))
                ltac:(lia) Hpath) as Hfetch.
  destruct (fetch _ _ _ _ _ _ _) as [[r w1]| |]; [|done..].
  destruct (negb _ || _); [done|by apply IH].
Qed.

(** The download step reads [sub_infos[sel - 1]]: it is undefined exactly
    when [sel] is not one of 1 to the length of the array. *)
Lemma fetch_crash_iff fuel o filepath token infos sel w :
  same_name o = false \/ filepath <> "" ->
  fetch fuel o filepath token infos sel w = Crash <->
  ~ (1 <= sel <= Z.of_nat (length infos)).
Proof.
  intros Hpath. split.
  - intros Hcrash Hsel. by apply (fetch_no_crash fuel o filepath token infos sel w).
  - intros Hout. unfold fetch.
    destruct (Z.ltb_spec (sel - 1) 0) as [|Hpos]; [done|].
    rewrite (proj2 (lookup_ge_None infos (Z.to_nat (sel - 1)))) by lia.
    done.
Qed.

(** X21.  The selector reads [sub_infos] inside the array only.  For a
    list of [n] results that is not empty, as [process_file] hands it
    over, and an input path that is not empty (or with [same_name] off):
    the download step for [sel] is undefined exactly when [sel] is not one
    of 1 to [n]; the candidate that is taken without a question has an
    index from 1 to [n]; and in the loop of questions no round runs the
    download step with an index outside 1 to [n], so the loop is never
    undefined.  The empty input path under [same_name], for which no path
    can be derived, is excluded. *)
Theorem selection_stays_in_bounds fuel o filepath token
    (results : list result) w :
  results <> [] ->
  same_name o = false \/ filepath <> "" ->
  let infos := parse_result <$> results in
  let n := Z.of_nat (length results) in
  (forall sel w',
     fetch fuel o filepath token infos sel w' = Crash <-> ~ (1 <= sel <= n)) /\
  (forall k,
     auto_choice o infos = Some k ->
     1 <= Z.of_nat k + 1 <= n /\
     download_chosen_results fuel o filepath token results w =
       fetch fuel o filepath token infos (Z.of_nat k + 1)
         (if quiet o =? 0
          then emit (Table infos (widest (strlen HEADER_RELEASE_NAME) infos)) w
          else w)) /\
  (forall align sel w',
     ask_loop fuel o filepath token infos align n sel w' <> Crash).
Proof.
  intros Hne Hpath infos n.
  assert (Hlen : Z.of_nat (length infos) = n).
  { unfold infos, n. by rewrite length_fmap. }
  assert (Hpos : 1 <= n).
  { unfold n. destruct results; [done|cbn [length]; lia]. }
  split; [|split].
  - intros sel w'. rewrite <- Hlen. by apply fetch_crash_iff.
  - intros k Hk. split; [|by apply download_chosen_direct].
    unfold auto_choice in Hk. destruct (always_ask o); [done|].
    destruct (first_hash_match infos) as [j|] eqn:E.
    + injection Hk as ->.
      apply first_hash_match_Some in E as [Hj _].
      destruct (infos !! k) eqn:Ek; [|done].
      apply lookup_lt_Some in Ek. lia.
    + destruct (never_ask o); [|done]. injection Hk as <-. lia.
  - intros align sel w'. rewrite <- Hlen. by apply ask_loop_no_crash.
Qed.

End Bounds.


(** ** Concrete runs at the prompt *)

(** Twelve candidates; the user types 10. *)
Lemma typed_number_selects_example :
  fmt_i 10 = "10" /\
  @select_1_out_of (scripted name_only_service) 12
    (start name_only_service [] [line (fmt_i 10); line "q"])
  = (10, set_stdin [line "q"]
           (emit (Prompt 12)
              (start name_only_service [] [line (fmt_i 10); line "q"]))).
Proof.
  split; [vm_compute; reflexivity|].
  apply (@typed_number_selects (scripted name_only_service) 12 10);
    [lia|reflexivity|reflexivity].
Defined.

(** Two candidates; the user types 4294967297, which is 1 as an [int]. *)
Lemma typed_number_wraps_example :
  fmt_i 4294967297 = "4294967297" /\
  @select_1_out_of (scripted name_only_service) 2
    (start name_only_service [] [line (fmt_i 4294967297)])
  = (1, set_stdin []
          (emit (Prompt 2)
             (start name_only_service [] [line (fmt_i 4294967297)]))) /\
  valid_choice 2 (line (fmt_i 9223372036854775808)) = false.
Proof.
  split; [vm_compute; reflexivity|].
  destruct (@typed_number_wraps (scripted name_only_service) 2 1
              ltac:(lia) eq_refl) as [Hwrap Hmax].
  split.
  - apply (Hwrap 1); [lia|by vm_compute|reflexivity].
  - apply Hmax. by vm_compute.
Defined.

(** Two candidates; the user types 0, a word, 3, and then 2. *)
Lemma select_asks_again_example :
  exists w',
    @select_1_out_of (scripted name_only_service) 2
      (start name_only_service []
             [line "0"; line "second"; line "3"; line "2"; line "q"])
    = (2, w') /\
    1 <= 2 <= 2 /\
    w_stdin w' = [line "q"] /\
    w_out w' = [] ++ replicate 4 (Prompt 2).
Proof.
  apply (@select_asks_again (scripted name_only_service) 2
           [line "0"; line "second"; line "3"] (line "2") [line "q"]
           (start name_only_service []
                  [line "0"; line "second"; line "3"; line "2"; line "q"])).
  - repeat constructor.
  - reflexivity.
  - reflexivity.
Defined.

(** One candidate found by name; the input holds an empty line and ends. *)
Lemma end_of_input_is_EIO_example :
  exists w',
    @ask_loop toy_zlib (scripted name_only_service) 3
      default_options "/a/m.mkv" "token" [parse_result by_name] 19 1 0
      (start name_only_service [] [line ""])
    = Done (inl EIO, w') /\
    w_stdin w' = [] /\
    w_files w' = ∅ /\
    w_server w' = tt /\
    w_out w' = [] ++ [Table [parse_result by_name] 19; Prompt 1; Prompt 1].
Proof.
  apply (@end_of_input_is_EIO toy_zlib (scripted name_only_service) 2
           default_options "/a/m.mkv" "token" [parse_result by_name] 19 1 0
           (start name_only_service [] [line ""])).
  - by left.
  - repeat constructor.
Defined.


(** ** Concrete downloads *)

(** A download next to another file: that file is as before. *)
Lemma sub_download_elsewhere_example :
  exists w',
    @sub_download toy_zlib (scripted hash_service) 5 default_options "token" 8
      "/a/y.srt" (start hash_service [("/a/m.mkv", one_word_file)] [line "1"])
    = Done (0, w') /\
    w_files w' !! "/a/m.mkv" = Some one_word_file /\
    w_files w' !! "/a/y.srt" = Some [x41; x42] /\
    w_stdin w' = [line "1"].
Proof.
  assert (Hrun : exists w',
            @sub_download toy_zlib (scripted hash_service) 5 default_options
              "token" 8 "/a/y.srt"
              (start hash_service [("/a/m.mkv", one_word_file)] [line "1"])
            = Done (0, w') /\
            w_files w' !! "/a/y.srt" = Some [x41; x42]).
  { vm_compute. eexists. split; reflexivity. }
  destruct Hrun as (w' & Hrun & Hsub).
  exists w'. split; [exact Hrun|].
  destruct (@sub_download_elsewhere toy_zlib (scripted hash_service) 5
              default_options "token" 8 "/a/y.srt" _ 0 w' Hrun)
    as (Hother & _ & Hin).
  split; [by rewrite Hother|]. split; [exact Hsub|exact Hin].
Defined.

(** The candidate's path is /a/y.srt: the input file is as before. *)
Lemma selector_writes_candidate_paths_example :
  exists w',
    @download_chosen_results toy_zlib (scripted hash_service) 5
      default_options "/a/m.mkv" "token" [by_hash]
      (start hash_service [("/a/m.mkv", one_word_file)] [])
    = Done (0, w') /\
    w_files w' !! "/a/m.mkv" = Some one_word_file.
Proof.
  assert (Hrun : exists w',
            @download_chosen_results toy_zlib (scripted hash_service) 5
              default_options "/a/m.mkv" "token" [by_hash]
              (start hash_service [("/a/m.mkv", one_word_file)] [])
            = Done (0, w')).
  { vm_compute. eexists. reflexivity. }
  destruct Hrun as [w' Hrun]. exists w'. split; [exact Hrun|].
  destruct (@selector_writes_candidate_paths toy_zlib (scripted hash_service)
              5 default_options "/a/m.mkv" "token" [by_hash]
              (start hash_service [("/a/m.mkv", one_word_file)] [])
              "/a/m.mkv") as [Hkeep _].
  { intros info [->|[]%elem_of_nil]%elem_of_cons. by vm_compute. }
  rewrite (Hkeep 0 w' Hrun). reflexivity.
Defined.

(** One input file, one candidate matched by hash, the toy stream of
    ["AB"] as the payload. *)
Lemma process_file_delivers_example :
  exists fuel0, forall fuel, (fuel0 <= fuel)%nat ->
    exists w',
      @process_file toy_zlib (scripted hash_service) fuel default_options
        "/a/m.mkv" "token"
        (start hash_service [("/a/m.mkv", one_word_file)] [])
      = Done (0, w') /\
      w_files w' =
        <["/a/y.srt" := [x41; x42]]>
          (w_files (start hash_service [("/a/m.mkv", one_word_file)] [])) /\
      w_stdin w' = [].
Proof.
  apply (@process_file_delivers toy_zlib (scripted hash_service) toy_gzip
           toy_tracks [x41; x42] (fun _ => Ascii.zero) default_options "token"
           "/a/m.mkv" (start hash_service [("/a/m.mkv", one_word_file)] [])
           9 8 [by_hash] 0%nat (parse_result by_hash) "/a/y.srt" tt tt
           toy_inflates);
    try reflexivity.
  - by left.
  - apply not_elem_of_empty.
  - by vm_compute.
Defined.

(** One candidate found by name; the user answers 1. *)
Lemma single_candidate_answer_example :
  exists fuel0, forall fuel, (fuel0 <= fuel)%nat ->
    exists w',
      @ask_loop toy_zlib (scripted name_only_service) fuel
        default_options "/a/m.mkv" "token" [parse_result by_name] 19 1 0
        (start name_only_service [] [line (fmt_i 1); line "q"])
      = Done (inl 0, w') /\
      w_files w' = <["/a/x.srt" := [x41; x42]]> ∅ /\
      w_stdin w' = [line "q"] /\
      prompt_count (w_out w') = 1%nat.
Proof.
  apply (@single_candidate_answer toy_zlib (scripted name_only_service)
           toy_gzip toy_tracks [x41; x42] (fun _ => Ascii.zero)
           default_options "token" "/a/m.mkv" by_name 19 0
           (start name_only_service [] [line (fmt_i 1); line "q"])
           "/a/x.srt" [line "q"] tt toy_inflates);
    try reflexivity.
  - by left.
  - by left.
  - apply not_elem_of_empty.
  - by vm_compute.
Defined.

(** The toy stream of ["AB"] and room for one byte: status 0, one byte in
    the file, nothing logged.  The toy stream of 5000 bytes and room for
    100: the first block cannot be handed over. *)
Lemma download_disk_full_example :
  summary (@sub_download toy_zlib
             (scripted (serving [] (toy_payload [x41; x42]))) 10
             default_options "token" 8 "/a/y.srt"
             (cramped (serving [] (toy_payload [x41; x42])) [] 1))
  = Some (0, [("/a/y.srt", [x41])], []) /\
  (exists fuel0, forall fuel, (fuel0 <= fuel)%nat ->
     exists w',
       @sub_download toy_zlib
          (scripted (serving [] (toy_payload [x41; x42]))) fuel
          default_options "token" 8 "/a/y.srt"
          (cramped (serving [] (toy_payload [x41; x42])) [] 1)
         = Done (0, w') /\
       w_files w' = <["/a/y.srt" := take (Z.to_nat 1) [x41; x42]]> ∅ /\
       w_out w' = []) /\
  (exists fuel0, forall fuel, (fuel0 <= fuel)%nat ->
     exists w',
       @sub_download toy_zlib
          (scripted (serving [] (toy_payload long_text))) fuel
          default_options "token" 8 "/a/y.srt"
          (cramped (serving [] (toy_payload long_text)) [] 100)
         = Done (ENOSPC, w') /\
       w_files w' = <["/a/y.srt" := take (Z.to_nat 100) long_text]> ∅ /\
       w_out w' = [] ++ [Err WriteFailed]).
Proof.
  split; [vm_compute; reflexivity|]. split.
  - destruct (@download_disk_full toy_zlib
                (scripted (serving [] (toy_payload [x41; x42])))
                toy_gzip toy_tracks [x41; x42] (fun _ => Ascii.zero)
                default_options "token" 8 "/a/y.srt"
                (cramped (serving [] (toy_payload [x41; x42])) [] 1) tt
                toy_inflates (or_introl eq_refl) eq_refl
                ltac:(apply not_elem_of_empty) ltac:(by vm_compute)
                ltac:(by vm_compute)) as [_ Hsilent].
    apply Hsilent. by vm_compute.
  - destruct (@download_disk_full toy_zlib
                (scripted (serving [] (toy_payload long_text)))
                toy_gzip toy_tracks long_text (fun _ => Ascii.zero)
                default_options "token" 8 "/a/y.srt"
                (cramped (serving [] (toy_payload long_text)) [] 100) tt
                toy_inflates (or_introl eq_refl) eq_refl
                ltac:(apply not_elem_of_empty) ltac:(by vm_compute)
                ltac:(by vm_compute)) as [Hstuck _].
    apply Hstuck. by vm_compute.
Defined.

(** One candidate, matched by hash: the indices 0 and 2 are outside the
    array, the candidate taken without a question has index 1, and the
    loop of questions is never undefined. *)
Lemma selection_stays_in_bounds_example :
  @fetch toy_zlib (scripted hash_service) 5 default_options "/a/m.mkv"
    "token" [parse_result by_hash] 0 (start hash_service [] [line "1"])
  = Crash /\
  @fetch toy_zlib (scripted hash_service) 5 default_options "/a/m.mkv"
    "token" [parse_result by_hash] 2 (start hash_service [] [line "1"])
  = Crash /\
  1 <= Z.of_nat 0 + 1 <= 1 /\
  @ask_loop toy_zlib (scripted hash_service) 5 default_options "/a/m.mkv"
    "token" [parse_result by_hash] 19 1 0 (start hash_service [] [line "1"])
  <> Crash.
Proof.
  destruct (@selection_stays_in_bounds toy_zlib (scripted hash_service) 5
              default_options "/a/m.mkv" "token" [by_hash]
              (start hash_service [] [line "1"])
              ltac:(discriminate) (or_introl eq_refl))
    as (Hstep & Hauto & Hloop).
  split; [apply Hstep; cbn; lia|].
  split; [apply Hstep; cbn; lia|].
  split; [exact (proj1 (Hauto 0%nat eq_refl))|].
  apply Hloop.
Defined.

(** ** Concrete option lists *)

Lemma search_modes_exclusive_example :
  exists s,
    parse_options some_options default_cli = inr s /\
    hash_search_only (cli_options s) = true /\
    name_search_only (cli_options s) = false /\
    hash_search_only (cli_options s) && name_search_only (cli_options s)
      = false.
Proof.
  eexists. split; [reflexivity|]. split; [reflexivity|]. split; [reflexivity|].
  apply (search_modes_exclusive some_options). reflexivity.
Defined.

Lemma limit_is_positive_example :
  exists s,
    parse_options some_options default_cli = inr s /\
    limit (cli_options s) = 25 /\
    1 <= limit (cli_options s) < 2 ^ 31.
Proof.
  eexists. split; [reflexivity|]. split; [reflexivity|].
  apply (limit_is_positive some_options). reflexivity.
Defined.

Lemma limit_argument_example :
  fmt_i 25 = "25" /\ fmt_i (-3) = "-3" /\
  handle_option "t" (fmt_i 25) default_cli =
    inr (mkCli (set_limit 25 default_options) false) /\
  handle_option "t" (fmt_i (-3)) default_cli =
    inl (ExitInvalidLimit (fmt_i (-3))) /\
  handle_option "t" (fmt_i 25 +:+ String "x" "") default_cli =
    inl (ExitInvalidLimit (fmt_i 25 +:+ String "x" "")).
Proof.
  destruct (limit_argument default_cli) as (Hset & Hlow & Hjunk).
  split; [by vm_compute|]. split; [by vm_compute|].
  split; [apply Hset; by vm_compute|].
  split; [apply Hlow; by vm_compute|].
  apply Hjunk; [lia|reflexivity|done].
Defined.

Lemma quiet_counts_example :
  exists s,
    parse_options some_options default_cli = inr s /\
    count_option "q" some_options = 2%nat /\
    quiet (cli_options s) = Z.of_nat (count_option "q" some_options).
Proof.
  eexists. split; [reflexivity|]. split; [reflexivity|].
  apply (quiet_counts some_options); [reflexivity|by vm_compute].
Defined.

(** ** Concrete tables *)

Lemma print_table_in_bounds_example :
  is_Some (print_table [parse_result by_name; parse_result by_hash] 2 19) /\
  ~ is_Some (print_table [parse_result by_name; parse_result by_hash] 3 19).
Proof.
  destruct (print_table_in_bounds [parse_result by_name; parse_result by_hash]
              19) as [Hiff _].
  split.
  - apply Hiff; [lia|]. cbn. lia.
  - intros Hsome. apply Hiff in Hsome; [|lia]. cbn in Hsome. lia.
Defined.

Lemma release_name_column_example :
  strlen (pad_right 19 (release_name (parse_result by_name))) = 19 /\
  strlen (filename (parse_result by_name)) <= 19.
Proof.
  pose proof (release_name_column [by_name; by_hash]) as Hcol.
  change (scan_results [by_name; by_hash])
    with (0 + 2, 19, [parse_result by_name; parse_result by_hash]) in Hcol.
  destruct Hcol as (_ & _ & Hall & _).
  destruct (Hall (parse_result by_name)) as [Hf Hr];
    [apply elem_of_cons; by left|].
  by split.
Defined.
